(** * Whiteboard photo booth: canvas text fitting and grid compositing

    A shallow embedding of [getAdjustedFontAndLines] and [drawWhiteboard]
    (the proportional-padding variant of the application module) together
    with the properties stated for them in the specification, followed by
    the handlers of the application component around them (the initial
    texts, dragging, capturing, downloading), the handlers of the grid of
    inputs, and the service worker, with properties read off their code.

    Conventions of the embedding.
    - A JavaScript string is the list of its UTF-16 code units; [text[i]],
      [text.length], [+] and [slice] act on code units.
    - A JavaScript number is an exact rational ([Q]).  Rounding of IEEE-754
      doubles, NaN and infinities are not represented; loop counters that
      hold integers are [Z].  The grid geometry, whose stated properties are
      equalities between computed numbers, is embedded a second time on
      binary64 values ([Binary64]) to see what rounding does to them.
      The search loop of the fitter is embedded a second time with its
      counter rounded as a double is ([DoubleCounter]), to see when the
      loop is left.
    - The 2D context is a record holding the current font (read by
      [measureText]) and the sequence of drawing calls issued so far.
    - Arrays live in a heap indexed by references, so that copying an array
      and writing to the copy can be told apart from writing to the
      original. *)

From Stdlib Require Import QArith Qround Qminmax Lqa Lia ZArith NArith.
From Stdlib Require Import List String Ascii Bool.
From Stdlib Require Import Floats.SpecFloat.
From Stdlib Require Import DecimalString.
From stdpp Require Import base list gmap.
Import ListNotations.

Local Open Scope Q_scope.

(** ** Strings *)

(** A UTF-16 code unit. *)
Abbreviation char := N (only parsing).
Abbreviation jsstring := (list N) (only parsing).

(** The code units of an ASCII literal. *)
Definition str (s : string) : jsstring :=
  map N_of_ascii (list_ascii_of_string s).

(** U+2026 HORIZONTAL ELLIPSIS, the one-unit string ['…']. *)
Definition ellipsis : jsstring := [8230%N].

(** ECMAScript WhiteSpace and LineTerminator code points, the characters
    removed by [String.prototype.trim]. *)
Definition isWhiteSpace (c : char) : bool :=
  match c with
  | 9 | 10 | 11 | 12 | 13 | 32 | 160 | 5760
  | 8192 | 8193 | 8194 | 8195 | 8196 | 8197 | 8198 | 8199 | 8200 | 8201 | 8202
  | 8232 | 8233 | 8239 | 8287 | 12288 | 65279 => true
  | _ => false
  end%N.

Fixpoint trimStart (s : jsstring) : jsstring :=
  match s with
  | c :: rest => if isWhiteSpace c then trimStart rest else s
  | [] => []
  end.

Definition trimEnd (s : jsstring) : jsstring := rev (trimStart (rev s)).

(** [text.trim()] *)
Definition trim (s : jsstring) : jsstring := trimEnd (trimStart s).

(** [s === ''] *)
Definition isEmptyString (s : jsstring) : bool :=
  match s with [] => true | _ => false end.

(** [!text || text.trim() === ''] *)
Definition isBlank (text : jsstring) : bool :=
  isEmptyString text || isEmptyString (trim text).

(** ** Numbers *)

(** [a > b] on numbers. *)
Definition Qgt_bool (a b : Q) : bool := negb (Qle_bool a b).

(** [n] as a number, for [lines.length]. *)
Definition ofNat (n : nat) : Q := inject_Z (Z.of_nat n).

(** ** The 2D rendering context *)

(** The fonts a context can hold: the initial one, or the one assigned by
    [ctx.font = `900 ${fontSize}px 'Noto Serif JP', serif`]. *)
Inductive Font : Type :=
  | DefaultFont
  | NotoSerifJP900 (fontSize : Z).

(** Drawing calls and style assignments, in the order they are issued. *)
Inductive DrawOp : Type :=
  | SetFillStyle (color : string)
  | SetStrokeStyle (color : string)
  | SetLineWidth (w : Q)
  | SetTextAlign (a : string)
  | SetTextBaseline (b : string)
  | FillRect (x y w h : Q)
  | StrokeRect (x y w h : Q)
  | BeginPath
  | MoveTo (x y : Q)
  | LineTo (x y : Q)
  | Stroke
  | FillText (f : Font) (text : jsstring) (x y : Q).

Record Context2D : Type := mkContext2D {
  font : Font;
  calls : list DrawOp
}.

Definition setFont (f : Font) (ctx : Context2D) : Context2D :=
  {| font := f; calls := calls ctx |}.

Definition emit (op : DrawOp) (ctx : Context2D) : Context2D :=
  {| font := font ctx; calls := calls ctx ++ [op] |}.

(** [ctx.fillText(line, x, y)] draws with the font current at the call. *)
Definition fillText (line : jsstring) (x y : Q) (ctx : Context2D) : Context2D :=
  emit (FillText (font ctx) line x y) ctx.

(** ** The text fitter *)

Record FitResult : Type := mkFitResult {
  lines : list jsstring;
  lineHeight : Q
}.

(** [{ lines: [], lineHeight: 0 }] *)
Definition emptyResult : FitResult := {| lines := []; lineHeight := 0 |}.

Definition minFontSize : Z := 1.

Section Fitter.

(** The width reported by [ctx.measureText(s).width] under a given font. *)
Variable measureText : Font -> jsstring -> Q.

Definition measureWidth (ctx : Context2D) (s : jsstring) : Q :=
  measureText (font ctx) s.

(** The character loop of the greedy wrap: [lines] and [currentLine] are
    the two loop variables, [chars] is what is left of [text]. *)
Fixpoint wrapLoop (ctx : Context2D) (maxWidth : Q) (chars : jsstring)
    (lines : list jsstring) (currentLine : jsstring)
    : list jsstring * jsstring :=
  match chars with
  | [] => (lines, currentLine)
  | char :: rest =>
      let testLine := currentLine ++ [char] in
      if Qgt_bool (measureWidth ctx testLine) maxWidth
         && (0 <? length currentLine)%nat
      then wrapLoop ctx maxWidth rest (lines ++ [currentLine]) [char]
      else wrapLoop ctx maxWidth rest lines testLine
  end.

(** The loop followed by the final [lines.push(currentLine)]. *)
Definition wrapText (ctx : Context2D) (maxWidth : Q) (text : jsstring)
    : list jsstring :=
  let '(lines, currentLine) := wrapLoop ctx maxWidth text [] [] in
  lines ++ [currentLine].

(** The search loop
    [for (fontSize = Math.floor(maxHeight); fontSize >= minFontSize; fontSize--)].
    The counter is [Z.of_nat n]; it reaches [0 < minFontSize] exactly when
    [n] does, which is where the loop is left without a result. *)
Fixpoint searchLoop (text : jsstring) (maxWidth maxHeight : Q)
    (n : nat) (ctx : Context2D) : option FitResult * Context2D :=
  match n with
  | O => (None, ctx)
  | S k =>
      let fontSize := Z.of_nat (S k) in
      let ctx := setFont (NotoSerifJP900 fontSize) ctx in
      let lineHeight := inject_Z fontSize * 1.4 in
      if Qgt_bool lineHeight maxHeight
      then searchLoop text maxWidth maxHeight k ctx
      else
        let lines := wrapText ctx maxWidth text in
        if Qle_bool (ofNat (length lines) * lineHeight) maxHeight
        then (Some {| lines := lines; lineHeight := lineHeight |}, ctx)
        else searchLoop text maxWidth maxHeight k ctx
  end.

(** The trimming loop
    [while (measure(truncatedLastLine + '…') > maxWidth && truncatedLastLine.length > 0)
       truncatedLastLine = truncatedLastLine.slice(0, -1)].
    Every round removes one unit, so [length truncatedLastLine] rounds
    are enough. *)
Fixpoint trimLoop (ctx : Context2D) (maxWidth : Q) (rounds : nat)
    (truncatedLastLine : jsstring) : jsstring :=
  match rounds with
  | O => truncatedLastLine
  | S k =>
      if Qgt_bool (measureWidth ctx (truncatedLastLine ++ ellipsis)) maxWidth
         && (0 <? length truncatedLastLine)%nat
      then trimLoop ctx maxWidth k (removelast truncatedLastLine)
      else truncatedLastLine
  end.

Definition trimToFit (ctx : Context2D) (maxWidth : Q) (lastLine : jsstring)
    : jsstring :=
  trimLoop ctx maxWidth (length lastLine) lastLine.

(** The code after the search loop. *)
Definition fallback (ctx : Context2D) (text : jsstring)
    (maxWidth maxHeight : Q) : FitResult * Context2D :=
  let fallbackFontSize := minFontSize in
  let ctx := setFont (NotoSerifJP900 fallbackFontSize) ctx in
  let fallbackLineHeight := inject_Z fallbackFontSize * 1.4 in
  if Qgt_bool fallbackLineHeight maxHeight
  then (emptyResult, ctx)
  else
    let lines := wrapText ctx maxWidth text in
    let maxLines := Z.max 1 (Qfloor (maxHeight / fallbackLineHeight)) in
    let truncatedLines := firstn (Z.to_nat maxLines) lines in
    if (maxLines <? Z.of_nat (length lines))%Z
       && (0 <? length truncatedLines)%nat
    then
      let lastLine :=
        default [] (truncatedLines !! (length truncatedLines - 1)%nat) in
      let truncatedLastLine := trimToFit ctx maxWidth lastLine in
      ({| lines := <[(length truncatedLines - 1)%nat :=
                       truncatedLastLine ++ ellipsis]> truncatedLines;
          lineHeight := fallbackLineHeight |}, ctx)
    else
      ({| lines := truncatedLines; lineHeight := fallbackLineHeight |}, ctx).

Definition getAdjustedFontAndLines (ctx : Context2D) (text : jsstring)
    (maxWidth maxHeight : Q) : FitResult * Context2D :=
  if isBlank text || Qle_bool maxWidth 0 || Qle_bool maxHeight 0
  then (emptyResult, ctx)
  else
    match searchLoop text maxWidth maxHeight
                     (Z.to_nat (Qfloor maxHeight)) ctx with
    | (Some result, ctx) => (result, ctx)
    | (None, ctx) => fallback ctx text maxWidth maxHeight
    end.

End Fitter.

(** ** The search loop with its counter as a double *)

(** [fontSize] is a JavaScript number.  Every value it takes is an integer,
    and an integer of more than 53 bits need not be a double, so
    [fontSize--] need not decrease it.  Here the counter is rounded as a
    double is and the loop is run for a given number of rounds; the other
    numbers stay exact.  Overflow to infinity, beyond 2^1024, is not
    represented: the counter never grows. *)
Module DoubleCounter.

(** The double nearest to an integer, a tie going to the double whose
    53-bit significand is even.  [unit] is the distance between the
    doubles around [z]: 1 up to 53 bits, and twice as much for every bit
    beyond. *)
Definition roundToDouble (z : Z) : Z :=
  let digits := (Z.log2 (Z.abs z) + 1)%Z in
  let unit := (2 ^ Z.max 0 (digits - 53))%Z in
  let significand := (Z.abs z / unit)%Z in
  let rest := (Z.abs z mod unit)%Z in
  let rounded :=
    if (2 * rest <? unit)%Z then significand
    else if (unit <? 2 * rest)%Z then (significand + 1)%Z
    else if Z.even significand then significand
    else (significand + 1)%Z in
  (Z.sgn z * (rounded * unit))%Z.

(** [fontSize--] *)
Definition decrement (fontSize : Z) : Z := roundToDouble (fontSize - 1).

(** The search loop
    [for (fontSize = Math.floor(maxHeight); fontSize >= minFontSize; fontSize--)]
    from a value of the counter, for at most [rounds] evaluations of its
    test.  [None] says that the loop is still running when they are used
    up; [Some (None, ctx)] that the loop was left without a result. *)
Fixpoint searchLoop (measureText : Font -> jsstring -> Q) (text : jsstring)
    (maxWidth maxHeight : Q) (rounds : nat) (fontSize : Z) (ctx : Context2D)
    : option (option FitResult * Context2D) :=
  match rounds with
  | O => None
  | S rounds =>
      if (minFontSize <=? fontSize)%Z
      then
        let ctx := setFont (NotoSerifJP900 fontSize) ctx in
        let lineHeight := inject_Z fontSize * 1.4 in
        if Qgt_bool lineHeight maxHeight
        then searchLoop measureText text maxWidth maxHeight rounds
                        (decrement fontSize) ctx
        else
          let lines := wrapText measureText ctx maxWidth text in
          if Qle_bool (ofNat (length lines) * lineHeight) maxHeight
          then Some (Some {| lines := lines; lineHeight := lineHeight |}, ctx)
          else searchLoop measureText text maxWidth maxHeight rounds
                          (decrement fontSize) ctx
      else Some (None, ctx)
  end.

(** The fitter around that loop: [None] when the loop is still running
    after [rounds] evaluations of its test. *)
Definition getAdjustedFontAndLines (measureText : Font -> jsstring -> Q)
    (rounds : nat) (ctx : Context2D) (text : jsstring)
    (maxWidth maxHeight : Q) : option (FitResult * Context2D) :=
  if isBlank text || Qle_bool maxWidth 0 || Qle_bool maxHeight 0
  then Some (emptyResult, ctx)
  else
    match searchLoop measureText text maxWidth maxHeight rounds
                     (Qfloor maxHeight) ctx with
    | Some (Some result, ctx) => Some (result, ctx)
    | Some (None, ctx) => Some (fallback measureText ctx text maxWidth maxHeight)
    | None => None
    end.

End DoubleCounter.

(** ** The grid compositor *)

Definition NUM_ROWS : nat := 5.
Definition NUM_COLS : nat := 2.

(** The constants computed at the top of [drawWhiteboard]. *)
Record Geometry : Type := mkGeometry {
  borderPadding : Q;
  textPadding : Q;
  gridWidth : Q;
  gridHeight : Q;
  colWidths : list Q;
  cellHeight : Q;
  effectiveCellHeight : Q
}.

Definition geometry (boardWidth boardHeight : Q) : Geometry :=
  let borderPadding := boardWidth * 0.025 in
  let textPadding := boardWidth * 0.015 in
  let gridWidth := boardWidth - borderPadding * 2 in
  let gridHeight := boardHeight - borderPadding * 2 in
  let colWidths := [gridWidth * 0.3; gridWidth * 0.7] in
  let cellHeight := gridHeight / ofNat NUM_ROWS in
  let effectiveCellHeight := cellHeight - textPadding * 2 in
  {| borderPadding := borderPadding; textPadding := textPadding;
     gridWidth := gridWidth; gridHeight := gridHeight;
     colWidths := colWidths; cellHeight := cellHeight;
     effectiveCellHeight := effectiveCellHeight |}.

(** [colWidths[col]] *)
Definition colWidth (g : Geometry) (col : nat) : Q :=
  default 0 (colWidths g !! col).

(** The box of a cell, as the body of the cell loop computes it:
    [currentCellWidth - textPadding * 2],
    [borderPadding + (col === 0 ? 0 : colWidths[0])] and
    [borderPadding + row * cellHeight]. *)
Definition effectiveCellWidth (g : Geometry) (col : nat) : Q :=
  colWidth g col - textPadding g * 2.

Definition cellLeftX (g : Geometry) (col : nat) : Q :=
  borderPadding g + (if (col =? 0)%nat then 0 else colWidth g 0).

Definition cellTopY (g : Geometry) (row : nat) : Q :=
  borderPadding g + ofNat row * cellHeight g.

(** *** The date cell *)

Definition isDigit (c : char) : bool := ((48 <=? c) && (c <=? 57))%N.

Definition hyphen : char := 45%N.

(** [/^\d{4}-\d{2}-\d{2}$/.test(s)]: four digits, a hyphen, two digits, a
    hyphen, two digits, and nothing before or after. *)
Definition isIsoDate (s : jsstring) : bool :=
  match s with
  | [y1; y2; y3; y4; h1; m1; m2; h2; d1; d2] =>
      isDigit y1 && isDigit y2 && isDigit y3 && isDigit y4
      && (h1 =? hyphen)%N
      && isDigit m1 && isDigit m2
      && (h2 =? hyphen)%N
      && isDigit d1 && isDigit d2
  | _ => false
  end.

(** [s.split(sep)] for a one-unit separator: [current] is the piece being
    read. *)
Fixpoint splitLoop (sep : char) (s : jsstring) (current : jsstring)
    : list jsstring :=
  match s with
  | [] => [current]
  | c :: rest =>
      if (c =? sep)%N then current :: splitLoop sep rest []
      else splitLoop sep rest (current ++ [c])
  end.

Definition split (sep : char) (s : jsstring) : list jsstring :=
  splitLoop sep s [].

Definition nen : jsstring := [24180%N].     (* U+5E74 *)
Definition gatsu : jsstring := [26376%N].   (* U+6708 *)
Definition nichi : jsstring := [26085%N].   (* U+65E5 *)

(** A destructured element that is missing is [undefined], which a template
    literal prints as the word. *)
Definition templatePart (parts : list jsstring) (i : nat) : jsstring :=
  default (str "undefined") (parts !! i).

(** [const [year, month, day] = s.split('-'); `${year}年${month}月${day}日`] *)
Definition localizeDate (s : jsstring) : jsstring :=
  let parts := split hyphen s in
  let year := templatePart parts 0 in
  let month := templatePart parts 1 in
  let day := templatePart parts 2 in
  year ++ nen ++ month ++ gatsu ++ day ++ nichi.

(** *** Arrays of strings on the heap *)

Abbreviation ref := nat (only parsing).
Abbreviation heap := (gmap nat (list (list N))) (only parsing).

Definition readArray (h : heap) (r : ref) : list jsstring :=
  default [] (h !! r).

(** A new array with the given elements. *)
Definition allocArray (h : heap) (elements : list jsstring) : ref * heap :=
  let r := fresh (dom h) in (r, <[r := elements]> h).

(** [arr[i] = v] for an index inside the array. *)
Definition writeArray (h : heap) (r : ref) (i : nat) (v : jsstring) : heap :=
  <[r := <[i := v]> (readArray h r)]> h.

(** [const textsToDraw = [...texts]] and the rewrite of index 7. *)
Definition prepareTexts (h : heap) (texts : ref) : ref * heap :=
  let '(textsToDraw, h) := allocArray h (readArray h texts) in
  match readArray h textsToDraw !! 7%nat with
  | Some s =>
      if negb (isEmptyString s) && isIsoDate s
      then (textsToDraw, writeArray h textsToDraw 7 (localizeDate s))
      else (textsToDraw, h)
  | None => (textsToDraw, h)
  end.

Section Compositor.

Variable measureText : Font -> jsstring -> Q.

(** [lines.forEach(line => { fillText(line, textStartX, textStartY);
    textStartY += lineHeight })] *)
Fixpoint drawLines (ls : list jsstring) (textStartX textStartY lineHeight : Q)
    (context : Context2D) : Context2D :=
  match ls with
  | [] => context
  | line :: rest =>
      drawLines rest textStartX (textStartY + lineHeight) lineHeight
                (fillText line textStartX textStartY context)
  end.

(** The body of the cell loop.  A missing element is [undefined], which the
    fitter's first test treats like the empty string. *)
Definition drawCell (g : Geometry) (textsToDraw : list jsstring)
    (row col : nat) (context : Context2D) : Context2D :=
  let index := (row * NUM_COLS + col)%nat in
  let text := default [] (textsToDraw !! index) in
  let currentCellWidth := colWidth g col in
  let effectiveCellWidth := effectiveCellWidth g col in
  let '(result, context) :=
    getAdjustedFontAndLines measureText context text
                            effectiveCellWidth (effectiveCellHeight g) in
  if (0 <? length (lines result))%nat
  then
    let cellLeftX := cellLeftX g col in
    let cellTopY := cellTopY g row in
    let textBlockHeight := ofNat (length (lines result)) * lineHeight result in
    let textStartX := cellLeftX + currentCellWidth / 2 in
    let textStartY :=
      cellTopY + cellHeight g / 2 - textBlockHeight / 2
      + lineHeight result / 2 in
    drawLines (lines result) textStartX textStartY (lineHeight result) context
  else context.

(** The drawing part of [drawWhiteboard]: everything after the texts
    to draw have been prepared. *)
Definition drawBoard (context : Context2D) (boardWidth boardHeight : Q)
    (textsToDraw : list jsstring) : Context2D :=
  let g := geometry boardWidth boardHeight in

  let context := emit (SetFillStyle "white") context in
  let context := emit (FillRect 0 0 boardWidth boardHeight) context in

  let context := emit (SetStrokeStyle "#1a1a1a") context in
  let context := emit (SetLineWidth 2) context in
  let context := emit (StrokeRect 0 0 boardWidth boardHeight) context in
  let context :=
    emit (StrokeRect (borderPadding g) (borderPadding g)
                     (gridWidth g) (gridHeight g)) context in

  let context := emit (SetStrokeStyle "#cccccc") context in
  let context := emit (SetLineWidth 1) context in
  let context := emit BeginPath context in

  let context :=
    fold_left (fun context i =>
                 let y := borderPadding g + ofNat i * cellHeight g in
                 let context := emit (MoveTo (borderPadding g) y) context in
                 emit (LineTo (boardWidth - borderPadding g) y) context)
              (seq 1 (NUM_ROWS - 1)) context in

  let verticalLineX := borderPadding g + colWidth g 0 in
  let context := emit (MoveTo verticalLineX (borderPadding g)) context in
  let context :=
    emit (LineTo verticalLineX (borderPadding g + gridHeight g)) context in
  let context := emit Stroke context in

  let context := emit (SetFillStyle "#1a1a1a") context in
  let context := emit (SetTextAlign "center") context in
  let context := emit (SetTextBaseline "middle") context in

  fold_left (fun context row =>
               fold_left (fun context col =>
                            drawCell g textsToDraw row col context)
                         (seq 0 NUM_COLS) context)
            (seq 0 NUM_ROWS) context.

(** [texts] is the caller's array; the heap is returned as the call leaves
    it. *)
Definition drawWhiteboard (context : Context2D) (boardWidth boardHeight : Q)
    (texts : ref) (h : heap) : Context2D * heap :=
  let '(textsToDraw, h) := prepareTexts h texts in
  (drawBoard context boardWidth boardHeight (readArray h textsToDraw), h).

End Compositor.

(** ** The grid geometry on doubles *)

Module Binary64.

(** IEEE-754 binary64, round to nearest even. *)
Definition prec : Z := 53.
Definition emax : Z := 1024.

Definition mul : spec_float -> spec_float -> spec_float := SFmul prec emax.
Definition add : spec_float -> spec_float -> spec_float := SFadd prec emax.
Definition sub : spec_float -> spec_float -> spec_float := SFsub prec emax.
Definition div : spec_float -> spec_float -> spec_float := SFdiv prec emax.

(** [a === b] on numbers. *)
Definition eqb : spec_float -> spec_float -> bool := SFeqb.

(** The double of an integer below 2^53. *)
Definition ofZ (z : Z) : spec_float := binary_normalize prec emax z 0 false.

(** The double a decimal literal [num / den] denotes: the one nearest to the
    quotient, which is what the correctly rounded division returns. *)
Definition decimal (num den : Z) : spec_float := div (ofZ num) (ofZ den).

Record Geometry : Type := mkGeometry {
  borderPadding : spec_float;
  textPadding : spec_float;
  gridWidth : spec_float;
  gridHeight : spec_float;
  colWidths : list spec_float;
  cellHeight : spec_float;
  effectiveCellHeight : spec_float
}.

(** The constants of [drawWhiteboard], operation by operation. *)
Definition geometry (boardWidth boardHeight : spec_float) : Geometry :=
  let borderPadding := mul boardWidth (decimal 25 1000) in
  let textPadding := mul boardWidth (decimal 15 1000) in
  let gridWidth := sub boardWidth (mul borderPadding (ofZ 2)) in
  let gridHeight := sub boardHeight (mul borderPadding (ofZ 2)) in
  let colWidths := [mul gridWidth (decimal 3 10); mul gridWidth (decimal 7 10)] in
  let cellHeight := div gridHeight (ofZ (Z.of_nat NUM_ROWS)) in
  let effectiveCellHeight := sub cellHeight (mul textPadding (ofZ 2)) in
  {| borderPadding := borderPadding; textPadding := textPadding;
     gridWidth := gridWidth; gridHeight := gridHeight;
     colWidths := colWidths; cellHeight := cellHeight;
     effectiveCellHeight := effectiveCellHeight |}.

(** [colWidths[col]]; a missing element is [undefined], a NaN in
    arithmetic. *)
Definition colWidth (g : Geometry) (col : nat) : spec_float :=
  default S754_nan (colWidths g !! col).

(** The equalities stated for the grid, as tests on doubles. *)
Definition columnsFillGrid (g : Geometry) : bool :=
  eqb (add (colWidth g 0) (colWidth g 1)) (gridWidth g).

Definition columnsThreeToSeven (g : Geometry) : bool :=
  eqb (mul (ofZ 7) (colWidth g 0)) (mul (ofZ 3) (colWidth g 1)).

Definition fiveCellsFillGrid (g : Geometry) : bool :=
  eqb (mul (cellHeight g) (ofZ 5)) (gridHeight g).

Definition gridIdentities (boardWidth boardHeight : spec_float) : bool :=
  let g := geometry boardWidth boardHeight in
  columnsFillGrid g && columnsThreeToSeven g && fiveCellsFillGrid g.

(** The proportions stated to survive scaling, as tests on doubles. *)
Definition sameProportions (boardWidth boardHeight factor : spec_float) : bool :=
  let g := geometry boardWidth boardHeight in
  let g' := geometry (mul factor boardWidth) (mul factor boardHeight) in
  eqb (div (colWidth g' 0) (colWidth g' 1)) (div (colWidth g 0) (colWidth g 1))
  && eqb (div (borderPadding g') (mul factor boardWidth))
         (div (borderPadding g) boardWidth)
  && eqb (div (colWidth g' 0) (mul factor boardWidth))
         (div (colWidth g 0) boardWidth)
  && eqb (div (colWidth g' 1) (mul factor boardWidth))
         (div (colWidth g 1) boardWidth)
  && eqb (div (cellHeight g') (mul factor boardHeight))
         (div (cellHeight g) boardHeight).

End Binary64.

(** A measurement stub: every code unit is [w] wide per pixel of font size. *)
Definition fixedWidth (w : Q) (f : Font) (s : jsstring) : Q :=
  match f with
  | DefaultFont => 10 * w * ofNat (length s)
  | NotoSerifJP900 fontSize => inject_Z fontSize * w * ofNat (length s)
  end.

Definition ctx0 : Context2D := {| font := DefaultFont; calls := [] |}.

(** ** Notions used by the statements *)

(** The integer a double holds, for a double that is zero or finite with
    an exponent that is not negative. *)
Definition integerOf (f : spec_float) : option Z :=
  match f with
  | S754_zero _ => Some 0%Z
  | S754_finite s m e =>
      if (0 <=? e)%Z then Some (cond_Zopp s (Zpos m * 2 ^ e))%Z else None
  | _ => None
  end.

(** The fitter returns [outcome]: some number of rounds of the search loop
    is enough for it. *)
Definition fitterReturns (measureText : Font -> list N -> Q)
    (ctx : Context2D) (text : list N) (maxWidth maxHeight : Q)
    (outcome : FitResult * Context2D) : Prop :=
  exists rounds : nat,
    DoubleCounter.getAdjustedFontAndLines measureText rounds ctx text
                                          maxWidth maxHeight
    = Some outcome.

(** A line is within the width unless it is a single code unit: the first
    unit of a line is taken without looking at its width. *)
Definition withinWidth (measureText : Font -> list N -> Q) (f : Font)
    (maxWidth : Q) (line : list N) : Prop :=
  (2 <= length line)%nat -> measureText f line <= maxWidth.

(** The lines the greedy wrap yields at a candidate font size. *)
Definition linesAt (measureText : Font -> list N -> Q) (text : list N)
    (maxWidth : Q) (fontSize : Z) : list (list N) :=
  wrapText measureText (setFont (NotoSerifJP900 fontSize) ctx0) maxWidth text.

(** A candidate fits when its wrapped lines, at the line height of that
    size, are no taller than the box. *)
Definition fitsHeight (measureText : Font -> list N -> Q) (text : list N)
    (maxWidth maxHeight : Q) (fontSize : Z) : Prop :=
  ofNat (length (linesAt measureText text maxWidth fontSize))
    * (inject_Z fontSize * 1.4) <= maxHeight.

(** Counting down from [n], the search settles on [k]: it is in range, it
    fits, and no candidate above it does. *)
Definition settlesOn (measureText : Font -> list N -> Q) (text : list N)
    (maxWidth maxHeight : Q) (n k : nat) : Prop :=
  (1 <= k <= n)%nat
  /\ fitsHeight measureText text maxWidth maxHeight (Z.of_nat k)
  /\ forall j : nat, (k < j <= n)%nat ->
       ~ fitsHeight measureText text maxWidth maxHeight (Z.of_nat j).

(** The height of one line at the minimum font size. *)
Definition minLineHeight : Q := inject_Z minFontSize * 1.4.

(** The number of whole lines of that height that the box can hold. *)
Definition wholeLines (maxHeight : Q) : Z := Qfloor (maxHeight / minLineHeight).

(** The context the fallback works in. *)
Definition fallbackContext (ctx : Context2D) : Context2D :=
  setFont (NotoSerifJP900 minFontSize) ctx.

(** Every returned line is within the width, at the font left in the
    context. *)
Definition neverOverflowsWidth (measureText : Font -> list N -> Q)
    (ctx : Context2D) (text : list N) (maxWidth maxHeight : Q) : Prop :=
  let '(result, ctx') :=
    getAdjustedFontAndLines measureText ctx text maxWidth maxHeight in
  Forall (fun line => measureText (font ctx') line <= maxWidth) (lines result).

(** The returned block of lines is no taller than the box. *)
Definition neverOverflowsHeight (measureText : Font -> list N -> Q)
    (ctx : Context2D) (text : list N) (maxWidth maxHeight : Q) : Prop :=
  let result :=
    fst (getAdjustedFontAndLines measureText ctx text maxWidth maxHeight) in
  ofNat (length (lines result)) * lineHeight result <= maxHeight.

(** The last returned line is within the width, at the font left in the
    context. *)
Definition lastLineFits (measureText : Font -> list N -> Q)
    (ctx : Context2D) (text : list N) (maxWidth maxHeight : Q) : Prop :=
  let '(result, ctx') :=
    getAdjustedFontAndLines measureText ctx text maxWidth maxHeight in
  forall lastLine,
    last (lines result) = Some lastLine ->
    measureText (font ctx') lastLine <= maxWidth.

(** The font size behind a result: the line height is the font size times
    1.4, and it is 0 for the empty result. *)
Definition chosenFontSize (result : FitResult) : Q := lineHeight result / 1.4.

(** The font size chosen for a box. *)
Definition fontSizeFor (measureText : Font -> list N -> Q) (ctx : Context2D)
    (text : list N) (maxWidth maxHeight : Q) : Q :=
  chosenFontSize
    (fst (getAdjustedFontAndLines measureText ctx text maxWidth maxHeight)).

(** A wider box never gets a smaller font. *)
Definition widthMonotone (measureText : Font -> list N -> Q) (ctx : Context2D)
    (text : list N) (maxHeight : Q) : Prop :=
  forall w1 w2 : Q,
    w1 <= w2 ->
    fontSizeFor measureText ctx text w1 maxHeight
    <= fontSizeFor measureText ctx text w2 maxHeight.

(** A taller box never gets a smaller font. *)
Definition heightMonotone (measureText : Font -> list N -> Q) (ctx : Context2D)
    (text : list N) (maxWidth : Q) : Prop :=
  forall h1 h2 : Q,
    h1 <= h2 ->
    fontSizeFor measureText ctx text maxWidth h1
    <= fontSizeFor measureText ctx text maxWidth h2.

(** A measure under which a string is never narrower than one of its
    suffixes, at the font sizes the fitter tries.  A sum of non-negative
    advance widths is such a measure. *)
Definition suffixMonotone (measureText : Font -> list N -> Q) : Prop :=
  forall (fontSize : Z) (s t : list N),
    (minFontSize <= fontSize)%Z ->
    measureText (NotoSerifJP900 fontSize) t
    <= measureText (NotoSerifJP900 fontSize) (s ++ t).

(** A measure that is not of that kind: ["cd"] is much wider than ["bcd"].
    The font plays no role. *)
Definition crampedMeasure (f : Font) (s : list N) : Q :=
  if decide (s = str "ab") then 3
  else if decide (s = str "abc") then 5
  else if decide (s = str "cd") then 100
  else 1.

(** The strings the cell loop reads: the contents of [textsToDraw] once the
    date cell has been dealt with. *)
Definition displayedTexts (h : gmap nat (list (list N))) (texts : nat)
    : list (list N) :=
  let '(textsToDraw, h') := prepareTexts h texts in readArray h' textsToDraw.

(** A board as the application fills it in, and a heap holding it. *)
Definition sampleTexts : list (list N) :=
  [str "Equipment"; str "Pump 3"; str "Target"; str "Valve";
   str "Type"; str "Monthly"; str "Date"; str "2024-03-05";
   str "Company"; str "AQUA"].

Definition sampleHeap : gmap nat (list (list N)) := {[ 3%nat := sampleTexts ]}.

(** The [fillText] calls the line loop issues, from the font, the
    horizontal position, the first baseline and the line height. *)
Fixpoint lineCalls (f : Font) (textStartX textStartY lineHeight : Q)
    (ls : list (list N)) : list DrawOp :=
  match ls with
  | [] => []
  | line :: rest =>
      FillText f line textStartX textStartY
      :: lineCalls f textStartX (textStartY + lineHeight) lineHeight rest
  end.

(** The strings a sequence of calls draws, in order. *)
Definition drawnTexts (ops : list DrawOp) : list (list N) :=
  omap (fun op => match op with FillText _ text _ _ => Some text | _ => None end)
       ops.

(** A call that draws a line of the cell at [row], [col] inside it: the
    text is anchored at the middle of the cell's width, and the band one
    line height tall around its baseline lies between the padded top and
    the padded bottom of the cell. *)
Definition lineInsideCell (g : Geometry) (row col : nat) (op : DrawOp) : Prop :=
  match op with
  | FillText (NotoSerifJP900 fontSize) _ x y =>
      (minFontSize <= fontSize)%Z
      /\ x == cellLeftX g col + colWidth g col / 2
      /\ cellTopY g row + textPadding g <= y - inject_Z fontSize * 1.4 / 2
      /\ y + inject_Z fontSize * 1.4 / 2
         <= cellTopY g row + cellHeight g - textPadding g
  | _ => False
  end.

(** A call that draws a line of the cell in column [col] within its
    width: centred on its anchor, a line of two units or more lies between
    the cell's left and right edges, each moved inwards by the text
    padding. *)
Definition lineWithinCellWidth (measureText : Font -> list N -> Q)
    (g : Geometry) (col : nat) (op : DrawOp) : Prop :=
  match op with
  | FillText f line x _ =>
      (2 <= length line)%nat ->
      cellLeftX g col + textPadding g <= x - measureText f line / 2
      /\ x + measureText f line / 2
         <= cellLeftX g col + colWidth g col - textPadding g
  | _ => False
  end.

(** A measure under which a string is never narrower than a part of it,
    at the font sizes the fitter tries.  A sum of non-negative advance
    widths is such a measure. *)
Definition substringMonotone (measureText : Font -> list N -> Q) : Prop :=
  forall (fontSize : Z) (s t u : list N),
    (minFontSize <= fontSize)%Z ->
    measureText (NotoSerifJP900 fontSize) t
    <= measureText (NotoSerifJP900 fontSize) (s ++ t ++ u).

(** A way of breaking the text into lines at a font size: the lines, none
    of them empty, spell the text, and each is within the width in the
    sense of [withinWidth]. *)
Definition lineBreaking (measureText : Font -> list N -> Q) (text : list N)
    (maxWidth : Q) (fontSize : Z) (broken : list (list N)) : Prop :=
  concat broken = text
  /\ Forall (fun line => line <> []) broken
  /\ Forall (withinWidth measureText (NotoSerifJP900 fontSize) maxWidth) broken.

(** The integers from [start] on, [count] of them. *)
Fixpoint integersFrom (start : Z) (count : nat) : list Z :=
  match count with
  | O => []
  | S k => start :: integersFrom (Z.succ start) k
  end.

(** A heap holding the sample board followed by an eleventh string. *)
Definition longHeap : gmap nat (list (list N)) :=
  {[ 0%nat := sampleTexts ++ [str "ignored"] ]}.

(** ** The application component

    The state the handlers of [App] read and write is passed in and handed
    back: the texts, the position of the board over the preview, the drag
    state and the download counters.  What the browser supplies (the date,
    the rectangles of elements, the size of the video frame) is an
    argument. *)

Module App.

(** [String(n)] for a non-negative integer: its decimal digits. *)
Definition numberToString (n : nat) : jsstring :=
  str (NilEmpty.string_of_uint (N.to_uint (N.of_nat n))).


(** ['0'] *)
Definition zero : char := 48%N.

(** [s.padStart(targetLength, pad)] for a pad of one unit. *)
Definition padStart (targetLength : nat) (pad : char) (s : jsstring)
    : jsstring :=
  replicate (targetLength - length s) pad ++ s.

(** What [new Date()] is asked for. *)
Record Today : Type := mkToday {
  getFullYear : Z;
  getMonth : nat;
  getDate : nat
}.

(** *** The initial texts *)


(** *** Dragging the board *)

Record Position : Type := mkPosition { x : Q; y : Q }.

Record Pointer : Type := mkPointer { clientX : Q; clientY : Q }.

Record DOMRect : Type := mkDOMRect {
  left : Q;
  top : Q;
  width : Q;
  height : Q
}.

(** [isDraggingRef] and [dragOffsetRef]. *)
Record DragState : Type := mkDragState {
  isDragging : bool;
  dragOffset : Position
}.

(** [handleDragStart], for a main element and an overlay that exist:
    [overlayRect] is the overlay's bounding rectangle. *)
Definition handleDragStart (point : Pointer) (overlayRect : DOMRect)
    : DragState :=
  {| isDragging := true;
     dragOffset := {| x := clientX point - left overlayRect;
                      y := clientY point - top overlayRect |} |}.

(** [handleDragMove]: the new value of [whiteboardPosition].  [mainRect] is
    the bounding rectangle of the main element, [overlayWidth] and
    [overlayHeight] are the overlay's [offsetWidth] and [offsetHeight]. *)
Definition handleDragMove (drag : DragState) (movePoint : Pointer)
    (mainRect : DOMRect) (overlayWidth overlayHeight : Q)
    (whiteboardPosition : Position) : Position :=
  if negb (isDragging drag) then whiteboardPosition
  else
    let newX := clientX movePoint - left mainRect - x (dragOffset drag) in
    let newY := clientY movePoint - top mainRect - y (dragOffset drag) in
    let newX := Qmax 0 (Qmin newX (width mainRect - overlayWidth)) in
    let newY := Qmax 0 (Qmin newY (height mainRect - overlayHeight)) in
    {| x := newX; y := newY |}.

(** [handleDragEnd] *)
Definition handleDragEnd (drag : DragState) : DragState :=
  {| isDragging := false; dragOffset := dragOffset drag |}.

(** [setWhiteboardPosition({ x: 0, y: mainRect.height - overlayHeight })]
    of the layout effect, for a main element and an overlay that exist:
    the board at the lower left corner of the main element. *)
Definition initialPosition (mainRect : DOMRect) (overlayHeight : Q) : Position :=
  {| x := 0; y := height mainRect - overlayHeight |}.

(** *** Taking the photo *)

Definition targetAspectRatio : Q := 4 / 3.

(** The source rectangle of [drawImage]. *)
Record Crop : Type := mkCrop {
  sx : Q;
  sy : Q;
  sWidth : Q;
  sHeight : Q
}.

(** The part of the video frame that is kept.  [videoWidth] and
    [videoHeight] are the frame's size in pixels; the quotient is the
    exact one, which is what the code computes when the height is not
    0. *)
Definition cropRegion (videoWidth videoHeight : Z) : Crop :=
  let videoWidth := inject_Z videoWidth in
  let videoHeight := inject_Z videoHeight in
  let videoAspectRatio := videoWidth / videoHeight in
  if Qgt_bool videoAspectRatio targetAspectRatio
  then
    let sHeight := videoHeight in
    let sWidth := videoHeight * targetAspectRatio in
    {| sx := (videoWidth - sWidth) / 2; sy := 0;
       sWidth := sWidth; sHeight := sHeight |}
  else
    let sWidth := videoWidth in
    let sHeight := videoWidth / targetAspectRatio in
    {| sx := 0; sy := (videoHeight - sHeight) / 2;
       sWidth := sWidth; sHeight := sHeight |}.

(** The conversion of a number to an unsigned 32-bit integer: the number
    truncated towards zero and reduced modulo 2^32. *)
Definition toUnsignedLong (v : Q) : Q :=
  inject_Z ((Z.quot (Qnum v) (Zpos (Qden v))) mod 2 ^ 32).

(** The value a canvas dimension takes when a number is assigned to it: the
    number converted to an unsigned 32-bit integer, or the default of the
    dimension ([300] for the width, [150] for the height) when that is
    above 2^31 - 1. *)
Definition canvasDimension (defaultValue : Q) (v : Q) : Q :=
  let value := toUnsignedLong v in
  if Qle_bool value 2147483647 then value else defaultValue.

(** The numbers [capturePhoto] computes before it draws: the crop, the
    size of the canvas, and the place and size of the board on it. *)
Record Layout : Type := mkLayout {
  crop : Crop;
  canvasWidth : Q;
  canvasHeight : Q;
  boardLeftX : Q;
  boardTopY : Q;
  boardWidth : Q;
  boardHeight : Q
}.

(** [canvas.width = sWidth] and [canvas.height = sHeight] store unsigned
    integers, which is what the later reads of [canvas.width] and
    [canvas.height] give. *)
Definition captureLayout (videoWidth videoHeight : Z) (mainRect : DOMRect)
    (whiteboardScale : Q) (whiteboardPosition : Position) : Layout :=
  let crop := cropRegion videoWidth videoHeight in
  let canvasWidth := canvasDimension 300 (sWidth crop) in
  let canvasHeight := canvasDimension 150 (sHeight crop) in
  let baseBoardWidth := canvasWidth * 0.3 in
  let baseBoardHeight := canvasHeight * 0.25 in
  let boardWidth := baseBoardWidth * whiteboardScale in
  let boardHeight := baseBoardHeight * whiteboardScale in
  let scaleX := canvasWidth / width mainRect in
  let scaleY := canvasHeight / height mainRect in
  let boardLeftX := x whiteboardPosition * scaleX in
  let boardTopY := y whiteboardPosition * scaleY in
  {| crop := crop; canvasWidth := canvasWidth; canvasHeight := canvasHeight;
     boardLeftX := boardLeftX; boardTopY := boardTopY;
     boardWidth := boardWidth; boardHeight := boardHeight |}.

(** [capturePhoto], for a canvas, a video and a main element that exist.
    The frame drawn by [drawImage] and the translation are the [crop] and
    the board's place in the layout; [context] is the canvas context as the
    resize leaves it, and the calls of [drawWhiteboard] are in the board's
    own coordinates.  Nothing happens before the video has data. *)
Definition capturePhoto (measureText : Font -> jsstring -> Q)
    (context : Context2D) (readyState : Z) (videoWidth videoHeight : Z)
    (mainRect : DOMRect) (whiteboardScale : Q) (whiteboardPosition : Position)
    (whiteboardTexts : ref) (h : heap)
    : option (Layout * Context2D) * heap :=
  if (2 <=? readyState)%Z
  then
    let layout :=
      captureLayout videoWidth videoHeight mainRect whiteboardScale
                    whiteboardPosition in
    let '(context, h) :=
      drawWhiteboard measureText context (boardWidth layout)
                     (boardHeight layout) whiteboardTexts h in
    (Some (layout, context), h)
  else (None, h).

(** *** Downloading the photo *)

Record Download : Type := mkDownload {
  href : jsstring;
  download : jsstring
}.

(** [`${month}.${day}${text1}${text2}`] *)
Definition baseFilename (today : Today) (whiteboardTexts : list jsstring)
    : jsstring :=
  let month := padStart 2 zero (numberToString (getMonth today + 1)) in
  let day := padStart 2 zero (numberToString (getDate today)) in
  let dateString := month ++ str "." ++ day in
  let text1 := default [] (whiteboardTexts !! 1%nat) in
  let text2 := default [] (whiteboardTexts !! 3%nat) in
  dateString ++ text1 ++ text2.

(** [downloadPhoto]: the link that is clicked, if any, and the counters
    afterwards.  [counters] is the object in [downloadCounterRef]; its keys
    are base file names, which begin with a digit, so no key is a property
    the object inherits.  [imageSrc] is [null] or a string. *)
Definition downloadPhoto (imageSrc : option jsstring) (today : Today)
    (whiteboardTexts : list jsstring) (counters : gmap (list N) nat)
    : option Download * gmap (list N) nat :=
  match imageSrc with
  | Some src =>
      if isEmptyString src then (None, counters)
      else
        let baseFilename := baseFilename today whiteboardTexts in
        let currentCount := default 0%nat (counters !! baseFilename) in
        let newCount := (currentCount + 1)%nat in
        let counters := <[baseFilename := newCount]> counters in
        let counterString := padStart 3 zero (numberToString newCount) in
        let finalFilename := baseFilename ++ counterString ++ str ".jpg" in
        (Some {| href := src; download := finalFilename |}, counters)
  | None => (None, counters)
  end.

End App.

(** A position the application gives the board under a layout: the one
    set when the preview is laid out, or one left by a move of a drag. *)
Definition placed (mainRect : App.DOMRect) (overlayWidth overlayHeight : Q)
    (position : App.Position) : Prop :=
  position = App.initialPosition mainRect overlayHeight
  \/ exists (drag : App.DragState) (movePoint : App.Pointer)
            (previous : App.Position),
       App.isDragging drag = true
       /\ position = App.handleDragMove drag movePoint mainRect
                                        overlayWidth overlayHeight previous.

(** The main element of a preview, 400 by 300. *)
Definition sampleMain : App.DOMRect :=
  {| App.left := 10; App.top := 10; App.width := 400; App.height := 300 |}.

(** *** Notions used by the statements about downloads *)

(** A click on the download button: what the handler is run with. *)
Record DownloadClick : Type := mkDownloadClick {
  clickImage : option (list N);
  clickToday : App.Today;
  clickTexts : list (list N)
}.

(** The file names a sequence of clicks downloads, in order, the counters
    being handed from each click to the next. *)
Fixpoint downloads (clicks : list DownloadClick) (counters : gmap (list N) nat)
    : list (list N) :=
  match clicks with
  | [] => []
  | click :: rest =>
      match App.downloadPhoto (clickImage click) (clickToday click)
                              (clickTexts click) counters with
      | (Some link, counters) => App.download link :: downloads rest counters
      | (None, counters) => downloads rest counters
      end
  end.

(** The number a string of decimal digits denotes. *)
Definition digitsValue (s : list N) : nat :=
  fold_left (fun acc c => (10 * acc + (N.to_nat c - 48))%nat) s 0%nat.

(** How many times a base file name occurs among those already used. *)
Fixpoint timesSeen (base : list N) (seen : list (list N)) : nat :=
  match seen with
  | [] => 0%nat
  | s :: rest =>
      ((if bool_decide (s = base) then 1 else 0) + timesSeen base rest)%nat
  end.

(** File names numbered by occurrence: each base name is followed by one
    more than the number of times it was used before, in at least three
    digits, and by [.jpg]. *)
Fixpoint numberedNames (seen bases : list (list N)) : list (list N) :=
  match bases with
  | [] => []
  | base :: rest =>
      (base
       ++ App.padStart 3 App.zero (App.numberToString (timesSeen base seen + 1))
       ++ str ".jpg")
      :: numberedNames (base :: seen) rest
  end.

(** The base file names of the clicks that find a photo to download. *)
Fixpoint downloadBases (clicks : list DownloadClick) : list (list N) :=
  match clicks with
  | [] => []
  | click :: rest =>
      match clickImage click with
      | Some src =>
          if isEmptyString src then downloadBases rest
          else App.baseFilename (clickToday click) (clickTexts click)
               :: downloadBases rest
      | None => downloadBases rest
      end
  end.

(** A click with a photo, on a given day, with given texts in cells 1 and
    3. *)
Definition sampleClick (text1 text2 : list N) : DownloadClick :=
  {| clickImage := Some (str "data:image/jpeg;base64,");
     clickToday :=
       {| App.getFullYear := 2024; App.getMonth := 2; App.getDate := 5 |};
     clickTexts := [[]; text1; []; text2] |}.

(** ** The grid of inputs

    [WhiteboardGridInput] edits the texts and keeps three lists of saved
    options.  A handler is run on the state of the render it was created
    in, and renders happen between events, so the list a handler tests and
    the list its update is applied to are the same list. *)

Module ChalkboardInput.

Definition lineFeed : char := 10%N.
Definition carriageReturn : char := 13%N.

(** [text.split(/\r?\n/)]: a line ends at a line feed, which a carriage
    return just before it belongs to; [current] is the line being read. *)
Fixpoint splitLinesLoop (s : jsstring) (current : jsstring) : list jsstring :=
  match s with
  | [] => [current]
  | c :: rest =>
      match rest with
      | d :: rest' =>
          if (c =? carriageReturn)%N && (d =? lineFeed)%N
          then current :: splitLinesLoop rest' []
          else if (c =? lineFeed)%N then current :: splitLinesLoop rest []
          else splitLinesLoop rest (current ++ [c])
      | [] =>
          if (c =? lineFeed)%N then current :: splitLinesLoop rest []
          else splitLinesLoop rest (current ++ [c])
      end
  end.

Definition splitLines (text : jsstring) : list jsstring :=
  splitLinesLoop text [].

(** [Array.from(new Set(lines))]: a set keeps its elements in the order
    they were first added; [seen] is the set so far. *)
Fixpoint uniqueLoop (seen : list jsstring) (ls : list jsstring)
    : list jsstring :=
  match ls with
  | [] => []
  | line :: rest =>
      if bool_decide (line ∈ seen) then uniqueLoop seen rest
      else line :: uniqueLoop (line :: seen) rest
  end.

Definition unique (ls : list jsstring) : list jsstring := uniqueLoop [] ls.

(** The three lists of saved options. *)
Record SavedOptions : Type := mkSavedOptions {
  savedOptionsForField1 : list jsstring;
  savedOptionsForField2 : list jsstring;
  savedOptionsForField3 : list jsstring
}.

(** The state setters, applied to an updater function. *)
Definition setSavedOptionsForField1 (update : list jsstring -> list jsstring)
    (saved : SavedOptions) : SavedOptions :=
  {| savedOptionsForField1 := update (savedOptionsForField1 saved);
     savedOptionsForField2 := savedOptionsForField2 saved;
     savedOptionsForField3 := savedOptionsForField3 saved |}.

Definition setSavedOptionsForField2 (update : list jsstring -> list jsstring)
    (saved : SavedOptions) : SavedOptions :=
  {| savedOptionsForField1 := savedOptionsForField1 saved;
     savedOptionsForField2 := update (savedOptionsForField2 saved);
     savedOptionsForField3 := savedOptionsForField3 saved |}.

Definition setSavedOptionsForField3 (update : list jsstring -> list jsstring)
    (saved : SavedOptions) : SavedOptions :=
  {| savedOptionsForField1 := savedOptionsForField1 saved;
     savedOptionsForField2 := savedOptionsForField2 saved;
     savedOptionsForField3 := update (savedOptionsForField3 saved) |}.

(** The messages shown by [alert], by what they say. *)
Inductive Alert : Type :=
  | ListUpdated (listName : jsstring) (count : nat)
  | ListNotUpdated
  | EnterText
  | AlreadySaved (textToAdd listName : jsstring)
  | Saved (textToAdd listName : jsstring).

(** The [onload] handler of [handleFileRead]: [text] is what was read from
    the file, [setOptions] the setter of the list that is imported into. *)
Definition onload
    (setOptions : (list jsstring -> list jsstring) -> SavedOptions -> SavedOptions)
    (listName : jsstring) (text : jsstring) (saved : SavedOptions)
    : SavedOptions * Alert :=
  let lines :=
    List.filter (fun line => negb (isEmptyString (trim line)))
                (splitLines text) in
  let uniqueLines := unique lines in
  let saved := setOptions (fun _ => uniqueLines) saved in
  if (0 <? length uniqueLines)%nat
  then (saved, ListUpdated listName (length uniqueLines))
  else (saved, ListNotUpdated).

Section Lists.

(** [String.prototype.toLowerCase] *)
Variable toLowerCase : jsstring -> jsstring.

(** [handleAddItemToList]: the lists afterwards and the message shown, if
    any.  [texts] are the texts of the board, whose labels name the
    lists. *)
Definition handleAddItemToList (texts : list jsstring) (index : nat)
    (value : jsstring) (saved : SavedOptions) : SavedOptions * option Alert :=
  let textToAdd := trim value in
  if isEmptyString textToAdd then (saved, Some EnterText)
  else
    let '(options, setOptions, listName) :=
      if (index =? 1)%nat
      then (savedOptionsForField1 saved, Some setSavedOptionsForField1,
            templatePart texts 0)
      else if (index =? 3)%nat
      then (savedOptionsForField2 saved, Some setSavedOptionsForField2,
            templatePart texts 2)
      else if (index =? 5)%nat
      then (savedOptionsForField3 saved, Some setSavedOptionsForField3,
            templatePart texts 4)
      else ([], None, []) in
    match setOptions with
    | Some setOptions =>
        let isDuplicate :=
          existsb (fun opt =>
                     bool_decide (toLowerCase opt = toLowerCase textToAdd))
                  options in
        if isDuplicate then (saved, Some (AlreadySaved textToAdd listName))
        else (setOptions (fun prev => textToAdd :: prev) saved,
              Some (Saved textToAdd listName))
    | None => (saved, None)
    end.

End Lists.

(** The [onDelete] of [getModalProps], for the list the modal was opened
    on: [prev.filter(opt => opt !== optionToDelete)]. *)
Definition onDelete (currentTargetIndex : option nat)
    (optionToDelete : jsstring) (saved : SavedOptions) : SavedOptions :=
  let remove :=
    fun prev : list jsstring =>
      List.filter (fun opt => negb (bool_decide (opt = optionToDelete))) prev in
  match currentTargetIndex with
  | Some 1%nat => setSavedOptionsForField1 remove saved
  | Some 3%nat => setSavedOptionsForField2 remove saved
  | Some 5%nat => setSavedOptionsForField3 remove saved
  | _ => saved
  end.

(** *** Saved options in [localStorage] *)

(** What [JSON.parse] returns. *)
#[warnings="-register-all"]
Inductive JSONValue : Type :=
  | JSONNull
  | JSONBoolean (b : bool)
  | JSONNumber (n : Q)
  | JSONString (s : jsstring)
  | JSONArray (elements : list JSONValue)
  | JSONObject (members : list (jsstring * JSONValue)).

(** [Array.isArray(parsed) && parsed.every(item => typeof item === 'string')],
    with the array as a list of strings when the test passes. *)
Definition stringArray (parsed : JSONValue) : option (list jsstring) :=
  match parsed with
  | JSONArray elements =>
      if forallb (fun item =>
                    match item with JSONString _ => true | _ => false end)
                 elements
      then Some (omap (fun item =>
                         match item with JSONString s => Some s | _ => None end)
                      elements)
      else None
  | _ => None
  end.

Section Storage.

(** [JSON.parse], [None] when it throws. *)
Variable parse : jsstring -> option JSONValue.

(** [getSavedOptions]: the options, and the storage as the call leaves
    it. *)
Definition getSavedOptions (key : jsstring) (defaultOptions : list jsstring)
    (localStorage : gmap (list N) (list N))
    : list jsstring * gmap (list N) (list N) :=
  match localStorage !! key with
  | Some items =>
      if isEmptyString items then (defaultOptions, localStorage)
      else
        match parse items with
        | Some parsed =>
            match stringArray parsed with
            | Some options => (options, localStorage)
            | None => (defaultOptions, delete key localStorage)
            end
        | None => (defaultOptions, delete key localStorage)
        end
  | None => (defaultOptions, localStorage)
  end.

End Storage.


End ChalkboardInput.

(** Saved options are distinct without regard to case when no two of them
    have the same lower-case form. *)
Definition caseDistinct (toLowerCase : list N -> list N)
    (options : list (list N)) : Prop :=
  NoDup (map toLowerCase options).

(** A lower-casing of the ASCII letters, to run the handlers with. *)
Definition asciiLowerCase (s : list N) : list N :=
  map (fun c => if ((65 <=? c) && (c <=? 90))%N then (c + 32)%N else c) s.

(** What the user does to the saved lists besides importing: saving the
    text of a cell, and deleting an option in the modal. *)
Inductive ListEdit : Type :=
  | AddItem (texts : list (list N)) (index : nat) (value : list N)
  | DeleteOption (currentTargetIndex : option nat) (optionToDelete : list N).

Definition applyEdit (toLowerCase : list N -> list N)
    (saved : ChalkboardInput.SavedOptions) (edit : ListEdit)
    : ChalkboardInput.SavedOptions :=
  match edit with
  | AddItem texts index value =>
      fst (ChalkboardInput.handleAddItemToList toLowerCase texts index value
                                               saved)
  | DeleteOption currentTargetIndex optionToDelete =>
      ChalkboardInput.onDelete currentTargetIndex optionToDelete saved
  end.

Definition allCaseDistinct (toLowerCase : list N -> list N)
    (saved : ChalkboardInput.SavedOptions) : Prop :=
  caseDistinct toLowerCase (ChalkboardInput.savedOptionsForField1 saved)
  /\ caseDistinct toLowerCase (ChalkboardInput.savedOptionsForField2 saved)
  /\ caseDistinct toLowerCase (ChalkboardInput.savedOptionsForField3 saved).

(** ** The service worker

    A handler is run to completion on the cache storage it finds and hands
    back the storage it leaves: the promise chain of a handler is
    sequential, and the handlers of different events are not interleaved.
    A cache lists the responses put in it under the URL of their request;
    a response is matched by that URL alone, and is there as soon as it is
    put.  A URL is the string the worker or the page writes.  The network
    is a function from requests to responses, [None] being a fetch that is
    rejected. *)

Module ServiceWorker.

Definition CACHE_NAME : string := "whiteboard-photo-booth-v1".

Definition urlsToCache : list string :=
  ["./"; "./index.html"; "./assets/index-rQ6P09Eo"; "./assets/style.css"]%string.

Definition externalResources : list string :=
  ["https://cdn.tailwindcss.com";
   "https://fonts.googleapis.com/css2?family=Noto+Serif+JP:wght@400;700;900&display=swap"
  ]%string.

Record Request : Type := mkRequest {
  method : string;
  mode : string;
  url : string
}.

Record Response : Type := mkResponse {
  status : Z;
  type : string;
  body : string
}.

Abbreviation Cache := (list (string * Response)) (only parsing).
Abbreviation CacheStorage := (list (string * list (string * Response)))
  (only parsing).

(** [cache.match(url)] *)
Fixpoint cacheMatch (cache : Cache) (url : string) : option Response :=
  match cache with
  | [] => None
  | (key, response) :: rest =>
      if String.eqb key url then Some response else cacheMatch rest url
  end.

(** [cache.put(url, response)]: the response replaces what was stored
    under the URL. *)
Definition cachePut (cache : Cache) (url : string) (response : Response)
    : Cache :=
  List.filter (fun entry => negb (String.eqb (fst entry) url)) cache
  ++ [(url, response)].

(** [caches.keys()] *)
Definition keys (caches : CacheStorage) : list string := map fst caches.

(** [caches.match(url)]: the caches are searched in the order they were
    created. *)
Fixpoint storageMatch (caches : CacheStorage) (url : string)
    : option Response :=
  match caches with
  | [] => None
  | (_, cache) :: rest =>
      match cacheMatch cache url with
      | Some response => Some response
      | None => storageMatch rest url
      end
  end.

(** The cache of a name, if there is one. *)
Fixpoint storageGet (caches : CacheStorage) (cacheName : string)
    : option Cache :=
  match caches with
  | [] => None
  | (name, cache) :: rest =>
      if String.eqb name cacheName then Some cache
      else storageGet rest cacheName
  end.

(** [caches.open(cacheName)]: the cache is created when there is none of
    that name. *)
Definition storageOpen (caches : CacheStorage) (cacheName : string)
    : CacheStorage :=
  match storageGet caches cacheName with
  | Some _ => caches
  | None => caches ++ [(cacheName, [])]
  end.

(** A change made through the handle of an opened cache. *)
Definition storageUpdate (caches : CacheStorage) (cacheName : string)
    (change : Cache -> Cache) : CacheStorage :=
  map (fun entry =>
         if String.eqb (fst entry) cacheName
         then (fst entry, change (snd entry)) else entry) caches.

(** [caches.delete(cacheName)] *)
Definition storageDelete (caches : CacheStorage) (cacheName : string)
    : CacheStorage :=
  List.filter (fun entry => negb (String.eqb (fst entry) cacheName)) caches.

(** The request [cache.add(url)] and [cache.addAll] fetch. *)
Definition requestFor (url : string) : Request :=
  {| method := "GET"; mode := "cors"; url := url |}.

(** [response.ok] *)
Definition ok (response : Response) : bool :=
  ((200 <=? status response) && (status response <=? 299))%Z.

Section Handlers.

Variable fetch : Request -> option Response.

(** What [cache.addAll(urls)] fetches: nothing is stored unless every
    fetch succeeds with an ok response. *)
Fixpoint fetchAll (urls : list string) : option (list (string * Response)) :=
  match urls with
  | [] => Some []
  | url :: rest =>
      match fetch (requestFor url) with
      | Some response =>
          if ok response
          then match fetchAll rest with
               | Some entries => Some ((url, response) :: entries)
               | None => None
               end
          else None
      | None => None
      end
  end.

(** [try { await cache.add(url) } catch (err) { console.warn(...) }] *)
Definition tryAdd (caches : CacheStorage) (url : string) : CacheStorage :=
  match fetch (requestFor url) with
  | Some response =>
      if ok response
      then storageUpdate caches CACHE_NAME
                         (fun cache => cachePut cache url response)
      else caches
  | None => caches
  end.

(** The [install] handler: whether the promise given to [waitUntil] is
    fulfilled, and the storage. *)
Definition onInstall (caches : CacheStorage) : bool * CacheStorage :=
  let caches := storageOpen caches CACHE_NAME in
  match fetchAll urlsToCache with
  | Some entries =>
      let caches :=
        storageUpdate caches CACHE_NAME
          (fun cache =>
             fold_left (fun cache entry => cachePut cache (fst entry) (snd entry))
                       entries cache) in
      (true, fold_left tryAdd externalResources caches)
  | None => (false, caches)
  end.

(** What becomes of a fetch event: the handler returns without answering,
    or answers with a response, or with [undefined], or with a promise
    that is rejected. *)
Inductive Outcome : Type :=
  | NotHandled
  | Responded (response : Response)
  | RespondedUndefined
  | Rejected.

(** The [fetch] handler. *)
Definition onFetch (request : Request) (caches : CacheStorage)
    : Outcome * CacheStorage :=
  if negb (String.eqb (method request) "GET") then (NotHandled, caches)
  else if String.eqb (mode request) "navigate"
  then
    match storageMatch caches "./index.html" with
    | Some response => (Responded response, caches)
    | None =>
        match fetch request with
        | Some response => (Responded response, caches)
        | None => (Rejected, caches)
        end
    end
  else
    let caches := storageOpen caches CACHE_NAME in
    match cacheMatch (default [] (storageGet caches CACHE_NAME)) (url request) with
    | Some response => (Responded response, caches)
    | None =>
        match fetch request with
        | Some networkResponse =>
            if negb (status networkResponse =? 200)%Z
               || negb (String.eqb (type networkResponse) "basic"
                        || String.eqb (type networkResponse) "cors")
            then (Responded networkResponse, caches)
            else
              let responseToCache := networkResponse in
              (Responded networkResponse,
               storageUpdate caches CACHE_NAME
                 (fun cache => cachePut cache (url request) responseToCache))
        | None =>
            match storageMatch caches "./index.html" with
            | Some response => (Responded response, caches)
            | None => (RespondedUndefined, caches)
            end
        end
    end.

End Handlers.

(** The [activate] handler: every cache whose name is not on the white
    list is deleted. *)
Definition onActivate (caches : CacheStorage) : CacheStorage :=
  let cacheWhitelist := [CACHE_NAME] in
  fold_left (fun caches cacheName =>
               if negb (existsb (String.eqb cacheName) cacheWhitelist)
               then storageDelete caches cacheName
               else caches)
            (keys caches) caches.

End ServiceWorker.

(** A network that is down. *)
Definition offline (request : ServiceWorker.Request)
    : option ServiceWorker.Response := None.

(** A network that answers every request with a page of its own. *)
Definition online (request : ServiceWorker.Request)
    : option ServiceWorker.Response :=
  Some {| ServiceWorker.status := 200; ServiceWorker.type := "basic";
          ServiceWorker.body := ServiceWorker.url request |}.

(** Every cache of the application's name holds [response] under [url],
    and there is such a cache. *)
Definition cachedInApp (url : string) (response : ServiceWorker.Response)
    (caches : list (string * list (string * ServiceWorker.Response))) : Prop :=
  Exists (fun entry => String.eqb (fst entry) ServiceWorker.CACHE_NAME = true)
         caches
  /\ Forall (fun entry =>
               String.eqb (fst entry) ServiceWorker.CACHE_NAME = true ->
               ServiceWorker.cacheMatch (snd entry) url = Some response)
            caches.

(** A storage left by an older version: a cache of another name with a
    stale page. *)
Definition staleStorage : list (string * list (string * ServiceWorker.Response)) :=
  [("whiteboard-photo-booth-v0"%string,
    [("./index.html"%string,
      {| ServiceWorker.status := 200; ServiceWorker.type := "basic";
         ServiceWorker.body := "stale" |})])].

(** * Properties *)

(** ** Comparisons and counts *)

Lemma Qgt_bool_true (a b : Q) : Qgt_bool a b = true <-> b < a.
Proof.
  unfold Qgt_bool. rewrite negb_true_iff.
  split; intros H.
  - apply Qnot_le_lt. intros Hle. apply Qle_bool_iff in Hle. congruence.
  - destruct (Qle_bool a b) eqn:E; [|reflexivity].
    apply Qle_bool_iff in E. lra.
Qed.

Lemma Qgt_bool_false (a b : Q) : Qgt_bool a b = false <-> a <= b.
Proof.
  unfold Qgt_bool. rewrite negb_false_iff. apply Qle_bool_iff.
Qed.

Lemma ofNat_le (n m : nat) : (n <= m)%nat -> ofNat n <= ofNat m.
Proof.
  intros H. unfold ofNat. rewrite <- Zle_Qle. lia.
Qed.

(** ** Blank text *)

Lemma trimStart_nil_iff (s : list N) :
  trimStart s = [] <-> forallb isWhiteSpace s = true.
Proof.
  induction s as [|c s IH]; simpl.
  - tauto.
  - destruct (isWhiteSpace c); simpl; [exact IH|].
    split; intros H; discriminate H.
Qed.

Lemma trim_nil_iff (s : list N) :
  trim s = [] <-> forallb isWhiteSpace s = true.
Proof.
  unfold trim, trimEnd. split.
  - intros H.
    destruct (forallb isWhiteSpace s) eqn:E; [reflexivity|exfalso].
    assert (Hne : trimStart s <> []).
    { intros Hn. apply trimStart_nil_iff in Hn. congruence. }
    assert (Hr : trimStart (rev (trimStart s)) = []).
    { apply (f_equal (@rev N)) in H. rewrite rev_involutive in H. exact H. }
    apply trimStart_nil_iff in Hr.
    rewrite forallb_forall in Hr.
    assert (Hall : forallb isWhiteSpace (trimStart s) = true).
    { apply forallb_forall. intros x Hx. apply Hr. apply in_rev in Hx. exact Hx. }
    apply trimStart_nil_iff in Hall.
    clear - Hall Hne.
    induction s as [|c s IH]; simpl in *; [congruence|].
    destruct (isWhiteSpace c) eqn:Ec; [auto|].
    simpl in Hall. rewrite Ec in Hall. discriminate.
  - intros H. apply trimStart_nil_iff in H. rewrite H. reflexivity.
Qed.

Lemma isBlank_iff (text : list N) :
  isBlank text = true <-> forallb isWhiteSpace text = true.
Proof.
  unfold isBlank. rewrite orb_true_iff. split.
  - intros [H|H].
    + destruct text; [reflexivity|discriminate].
    + apply trim_nil_iff. destruct (trim text); [reflexivity|discriminate].
  - intros H. right. apply trim_nil_iff in H. rewrite H. reflexivity.
Qed.

Lemma isBlank_false_nonempty (text : list N) :
  isBlank text = false -> text <> [].
Proof.
  intros H ->. discriminate H.
Qed.

(** ** The greedy wrap *)

Section WrapFacts.

Variable measureText : Font -> list N -> Q.

(** Only the font of the context matters to the wrap. *)
Lemma wrapLoop_font (c1 c2 : Context2D) (W : Q) (chars : list N) :
  font c1 = font c2 ->
  forall ls cur,
    wrapLoop measureText c1 W chars ls cur = wrapLoop measureText c2 W chars ls cur.
Proof.
  intros Hf. induction chars as [|ch rest IH]; intros ls cur; simpl.
  - reflexivity.
  - unfold measureWidth. rewrite Hf.
    destruct (_ && _); apply IH.
Qed.

Lemma wrapText_font (c1 c2 : Context2D) (W : Q) (text : list N) :
  font c1 = font c2 ->
  wrapText measureText c1 W text = wrapText measureText c2 W text.
Proof.
  intros Hf. unfold wrapText.
  rewrite (wrapLoop_font c1 c2 W text Hf). reflexivity.
Qed.

(** No code unit is lost, duplicated or moved. *)
Lemma wrapLoop_concat (ctx : Context2D) (W : Q) (chars : list N) :
  forall ls cur ls' cur',
    wrapLoop measureText ctx W chars ls cur = (ls', cur') ->
    concat ls' ++ cur' = concat ls ++ cur ++ chars.
Proof.
  induction chars as [|ch rest IH]; intros ls cur ls' cur' H; simpl in H.
  - inversion H; subst. rewrite app_nil_r. reflexivity.
  - destruct (_ && _) in H; apply IH in H; rewrite H.
    + rewrite concat_app. simpl. rewrite app_nil_r, <- app_assoc.
      reflexivity.
    + rewrite <- app_assoc. reflexivity.
Qed.

Lemma wrapText_concat (ctx : Context2D) (W : Q) (text : list N) :
  concat (wrapText measureText ctx W text) = text.
Proof.
  unfold wrapText.
  destruct (wrapLoop measureText ctx W text [] []) as [ls cur] eqn:E.
  apply wrapLoop_concat in E. simpl in E.
  rewrite concat_app. simpl. rewrite app_nil_r. exact E.
Qed.

(** Lines are only closed when they hold something. *)
Lemma wrapLoop_nonempty (ctx : Context2D) (W : Q) (chars : list N) :
  forall ls cur ls' cur',
    wrapLoop measureText ctx W chars ls cur = (ls', cur') ->
    Forall (fun l => l <> []) ls ->
    Forall (fun l => l <> []) ls' /\ (cur <> [] \/ chars <> [] -> cur' <> []).
Proof.
  induction chars as [|ch rest IH]; intros ls cur ls' cur' H Hls; simpl in H.
  - inversion H; subst. split; [exact Hls|]. intros [Hc|Hc]; congruence.
  - destruct (_ && _) eqn:Econd in H.
    + apply andb_true_iff in Econd as [_ Hlen].
      apply Nat.ltb_lt in Hlen.
      apply IH in H.
      * destruct H as [H1 H2]. split; [exact H1|].
        intros _. apply H2. left. discriminate.
      * apply Forall_app. split; [exact Hls|].
        constructor; [|constructor].
        intros ->. simpl in Hlen. lia.
    + apply IH in H; [|exact Hls].
      destruct H as [H1 H2]. split; [exact H1|].
      intros _. apply H2. left. destruct cur; discriminate.
Qed.

Lemma wrapText_nonempty (ctx : Context2D) (W : Q) (text : list N) :
  text <> [] -> Forall (fun l => l <> []) (wrapText measureText ctx W text).
Proof.
  intros Hne. unfold wrapText.
  destruct (wrapLoop measureText ctx W text [] []) as [ls cur] eqn:E.
  apply wrapLoop_nonempty in E; [|constructor].
  destruct E as [H1 H2].
  apply Forall_app. split; [exact H1|].
  constructor; [|constructor]. apply H2. right. exact Hne.
Qed.

Lemma wrapText_length_pos (ctx : Context2D) (W : Q) (text : list N) :
  (1 <= length (wrapText measureText ctx W text))%nat.
Proof.
  unfold wrapText.
  destruct (wrapLoop measureText ctx W text [] []) as [ls cur].
  rewrite length_app. simpl. lia.
Qed.

(** Every closed line, and the current one, is a single code unit or within
    the width. *)
Lemma wrapLoop_width (ctx : Context2D) (W : Q) (chars : list N) :
  forall ls cur ls' cur',
    wrapLoop measureText ctx W chars ls cur = (ls', cur') ->
    Forall (withinWidth measureText (font ctx) W) ls ->
    withinWidth measureText (font ctx) W cur ->
    Forall (withinWidth measureText (font ctx) W) ls'
    /\ withinWidth measureText (font ctx) W cur'.
Proof.
  induction chars as [|ch rest IH]; intros ls cur ls' cur' H Hls Hcur;
    simpl in H.
  - inversion H; subst. split; assumption.
  - destruct (_ && _) eqn:Econd in H.
    + apply IH in H; [exact H| |].
      * apply Forall_app. split; [exact Hls|].
        constructor; [exact Hcur|constructor].
      * intros Hlen. simpl in Hlen. lia.
    + apply IH in H; [exact H|exact Hls|].
      intros Hlen.
      apply andb_false_iff in Econd as [Hw|Hl].
      * apply Qgt_bool_false in Hw. exact Hw.
      * apply Nat.ltb_ge in Hl. rewrite length_app in Hlen. simpl in Hlen. lia.
Qed.

Lemma wrapText_width (ctx : Context2D) (W : Q) (text : list N) :
  Forall (withinWidth measureText (font ctx) W) (wrapText measureText ctx W text).
Proof.
  unfold wrapText.
  destruct (wrapLoop measureText ctx W text [] []) as [ls cur] eqn:E.
  apply wrapLoop_width in E.
  - destruct E as [H1 H2]. apply Forall_app. split; [exact H1|].
    constructor; [exact H2|constructor].
  - constructor.
  - intros Hlen. simpl in Hlen. lia.
Qed.

End WrapFacts.

(** ** The search loop *)

Section SearchFacts.

Variable measureText : Font -> list N -> Q.
Variables (text : list N) (maxWidth maxHeight : Q).

Lemma linesAt_context (fontSize : Z) (ctx : Context2D) :
  wrapText measureText (setFont (NotoSerifJP900 fontSize) ctx) maxWidth text
  = linesAt measureText text maxWidth fontSize.
Proof.
  apply wrapText_font. reflexivity.
Qed.

Lemma searchLoop_S (k : nat) (ctx : Context2D) :
  searchLoop measureText text maxWidth maxHeight (S k) ctx =
  let fontSize := Z.of_nat (S k) in
  let ctx := setFont (NotoSerifJP900 fontSize) ctx in
  let lineHeight := inject_Z fontSize * 1.4 in
  if Qgt_bool lineHeight maxHeight
  then searchLoop measureText text maxWidth maxHeight k ctx
  else
    let lines := wrapText measureText ctx maxWidth text in
    if Qle_bool (ofNat (length lines) * lineHeight) maxHeight
    then (Some {| lines := lines; lineHeight := lineHeight |}, ctx)
    else searchLoop measureText text maxWidth maxHeight k ctx.
Proof.
  reflexivity.
Qed.

(** A size skipped because one line is already too tall does not fit. *)
Lemma skipped_not_fits (fontSize : Z) :
  maxHeight < inject_Z fontSize * 1.4 ->
  (1 <= fontSize)%Z ->
  ~ fitsHeight measureText text maxWidth maxHeight fontSize.
Proof.
  intros Hskip Hpos Hfit. unfold fitsHeight in Hfit.
  assert (Hn : 1 <= ofNat (length (linesAt measureText text maxWidth fontSize))).
  { apply (ofNat_le 1). apply wrapText_length_pos. }
  assert (Hf : 1 <= inject_Z fontSize).
  { change (inject_Z 1 <= inject_Z fontSize). rewrite <- Zle_Qle. exact Hpos. }
  set (n := ofNat _) in *. set (f := inject_Z fontSize) in *.
  assert (Hmul : 1 * (f * 1.4) <= n * (f * 1.4)).
  { apply Qmult_le_compat_r; [exact Hn|]. lra. }
  lra.
Qed.

Lemma fits_line_height (fontSize : Z) :
  (1 <= fontSize)%Z ->
  fitsHeight measureText text maxWidth maxHeight fontSize ->
  inject_Z fontSize * 1.4 <= maxHeight.
Proof.
  intros Hpos Hfit.
  destruct (Qlt_le_dec maxHeight (inject_Z fontSize * 1.4)) as [Hlt|Hle];
    [|exact Hle].
  exfalso. exact (skipped_not_fits fontSize Hlt Hpos Hfit).
Qed.

Lemma settlesOn_S (n k : nat) :
  settlesOn measureText text maxWidth maxHeight n k ->
  ~ fitsHeight measureText text maxWidth maxHeight (Z.of_nat (S n)) ->
  settlesOn measureText text maxWidth maxHeight (S n) k.
Proof.
  intros (Hk & Hfit & Hmax) Hno. repeat split; try assumption; try lia.
  intros j Hj. destruct (Nat.eq_dec j (S n)) as [->|Hne]; [exact Hno|].
  apply Hmax. lia.
Qed.

(** What the loop returns when it returns a result: the first candidate,
    counting down, that fits. *)
Lemma searchLoop_some (n : nat) :
  forall ctx result ctx',
    searchLoop measureText text maxWidth maxHeight n ctx = (Some result, ctx') ->
    exists k : nat,
      settlesOn measureText text maxWidth maxHeight n k
      /\ ctx' = setFont (NotoSerifJP900 (Z.of_nat k)) ctx
      /\ lines result = linesAt measureText text maxWidth (Z.of_nat k)
      /\ lineHeight result = inject_Z (Z.of_nat k) * 1.4.
Proof.
  induction n as [|k IH]; intros ctx result ctx' H.
  - discriminate H.
  - rewrite searchLoop_S in H. cbv zeta in H.
    destruct (Qgt_bool _ maxHeight) eqn:Eskip in H.
    + apply IH in H. destruct H as (k0 & Hset & Hctx & Hl & Hlh).
      exists k0. split; [|split; [exact Hctx|split; assumption]].
      apply settlesOn_S; [exact Hset|].
      apply Qgt_bool_true in Eskip.
      apply skipped_not_fits; [exact Eskip|lia].
    + destruct (Qle_bool _ maxHeight) eqn:Efit in H.
      * inversion H; subst; clear H. exists (S k).
        rewrite linesAt_context in *.
        split; [|repeat split].
        split; [lia|]. split; [|intros j Hj; lia].
        apply Qle_bool_iff in Efit. exact Efit.
      * apply IH in H. destruct H as (k0 & Hset & Hctx & Hl & Hlh).
        exists k0. split; [|split; [exact Hctx|split; assumption]].
        apply settlesOn_S; [exact Hset|].
        intros Hfit. unfold fitsHeight in Hfit.
        apply Qle_bool_iff in Hfit.
        rewrite linesAt_context in Efit. congruence.
Qed.

(** When the loop runs out of candidates, none of them fits. *)
Lemma searchLoop_none (n : nat) :
  forall ctx ctx',
    searchLoop measureText text maxWidth maxHeight n ctx = (None, ctx') ->
    forall j : nat, (1 <= j <= n)%nat ->
      ~ fitsHeight measureText text maxWidth maxHeight (Z.of_nat j).
Proof.
  induction n as [|k IH]; intros ctx ctx' H j Hj.
  - lia.
  - rewrite searchLoop_S in H. cbv zeta in H.
    destruct (Qgt_bool _ maxHeight) eqn:Eskip in H.
    + destruct (Nat.eq_dec j (S k)) as [->|Hne].
      * apply Qgt_bool_true in Eskip.
        apply skipped_not_fits; [exact Eskip|lia].
      * eapply IH; [exact H|lia].
    + destruct (Qle_bool _ maxHeight) eqn:Efit in H; [discriminate H|].
      destruct (Nat.eq_dec j (S k)) as [->|Hne].
      * intros Hfit. unfold fitsHeight in Hfit.
        apply Qle_bool_iff in Hfit.
        rewrite linesAt_context in Efit. congruence.
      * eapply IH; [exact H|lia].
Qed.

(** If some candidate in range fits, the loop returns a result. *)
Lemma searchLoop_found (n c : nat) (ctx : Context2D) :
  (1 <= c <= n)%nat ->
  fitsHeight measureText text maxWidth maxHeight (Z.of_nat c) ->
  exists result ctx',
    searchLoop measureText text maxWidth maxHeight n ctx = (Some result, ctx').
Proof.
  intros Hc Hfit.
  destruct (searchLoop measureText text maxWidth maxHeight n ctx)
    as [[result|] ctx'] eqn:E.
  - exists result, ctx'. reflexivity.
  - exfalso. exact (searchLoop_none n ctx ctx' E c Hc Hfit).
Qed.

End SearchFacts.

(** ** The truncation fallback *)

Lemma minLineHeight_value : minLineHeight == 1.4.
Proof. reflexivity. Qed.

Lemma wholeLines_pos (maxHeight : Q) :
  minLineHeight <= maxHeight -> (1 <= wholeLines maxHeight)%Z.
Proof.
  intros H. unfold wholeLines.
  change 1%Z with (Qfloor 1). apply Qfloor_resp_le.
  apply Qle_shift_div_l; [reflexivity|].
  rewrite Qmult_1_l. exact H.
Qed.

(** That many lines fit, and one more does not. *)
Lemma wholeLines_fit (maxHeight : Q) :
  inject_Z (wholeLines maxHeight) * minLineHeight <= maxHeight.
Proof.
  unfold wholeLines.
  pose proof (Qfloor_le (maxHeight / minLineHeight)) as Hfl.
  assert (Hm : inject_Z (Qfloor (maxHeight / minLineHeight)) * minLineHeight
               <= maxHeight / minLineHeight * minLineHeight).
  { apply Qmult_le_compat_r; [exact Hfl|]. discriminate. }
  assert (Hd : maxHeight / minLineHeight * minLineHeight == maxHeight).
  { field. discriminate. }
  rewrite Hd in Hm. exact Hm.
Qed.

Lemma wholeLines_maximal (maxHeight : Q) :
  maxHeight < inject_Z (wholeLines maxHeight + 1) * minLineHeight.
Proof.
  unfold wholeLines.
  pose proof (Qlt_floor (maxHeight / minLineHeight)) as Hfl.
  assert (Hm : maxHeight / minLineHeight * minLineHeight
               < inject_Z (Qfloor (maxHeight / minLineHeight) + 1) * minLineHeight).
  { apply Qmult_lt_compat_r; [reflexivity|exact Hfl]. }
  assert (Hd : maxHeight / minLineHeight * minLineHeight == maxHeight).
  { field. discriminate. }
  rewrite Hd in Hm. exact Hm.
Qed.

Section FallbackFacts.

Variable measureText : Font -> list N -> Q.

(** The trimming loop stops on a prefix of the line that fits together
    with the ellipsis, or on the empty string. *)
Lemma trimLoop_spec (ctx : Context2D) (W : Q) (rounds : nat) :
  forall s : list N,
    (length s <= rounds)%nat ->
    (exists dropped, s = trimLoop measureText ctx W rounds s ++ dropped)
    /\ (measureText (font ctx) (trimLoop measureText ctx W rounds s ++ ellipsis) <= W
        \/ trimLoop measureText ctx W rounds s = []).
Proof.
  induction rounds as [|k IH]; intros s Hlen; simpl.
  - destruct s; [|simpl in Hlen; lia].
    split; [exists []; reflexivity|right; reflexivity].
  - destruct (_ && _) eqn:Econd.
    + apply andb_true_iff in Econd as [_ Hpos]. apply Nat.ltb_lt in Hpos.
      assert (Hne : s <> []) by (intros ->; simpl in Hpos; lia).
      assert (Hrl : (length (removelast s) <= k)%nat).
      { rewrite removelast_firstn_len, length_take. lia. }
      destruct (IH (removelast s) Hrl) as [[dropped Hd] Hfit].
      split; [|exact Hfit].
      exists (dropped ++ [List.last s 0%N]).
      rewrite app_assoc, <- Hd. apply app_removelast_last. exact Hne.
    + split; [exists []; rewrite app_nil_r; reflexivity|].
      apply andb_false_iff in Econd as [Hw|Hl].
      * left. apply Qgt_bool_false in Hw. exact Hw.
      * right. apply Nat.ltb_ge in Hl. destruct s; [reflexivity|simpl in Hl; lia].
Qed.

Lemma trimToFit_spec (ctx : Context2D) (W : Q) (lastLine : list N) :
  (exists dropped, lastLine = trimToFit measureText ctx W lastLine ++ dropped)
  /\ (measureText (font ctx) (trimToFit measureText ctx W lastLine ++ ellipsis) <= W
      \/ trimToFit measureText ctx W lastLine = []).
Proof. apply trimLoop_spec. reflexivity. Qed.

Variables (text : list N) (maxWidth maxHeight : Q).

Lemma fallback_too_low (ctx : Context2D) :
  maxHeight < minLineHeight ->
  fallback measureText ctx text maxWidth maxHeight
  = (emptyResult, fallbackContext ctx).
Proof.
  intros H. unfold fallback. cbv zeta.
  apply Qgt_bool_true in H. fold minLineHeight. rewrite H. reflexivity.
Qed.

Lemma fallback_whole (ctx : Context2D) :
  minLineHeight <= maxHeight ->
  (Z.of_nat (length (linesAt measureText text maxWidth minFontSize))
   <= wholeLines maxHeight)%Z ->
  fallback measureText ctx text maxWidth maxHeight
  = ({| lines := linesAt measureText text maxWidth minFontSize;
        lineHeight := minLineHeight |}, fallbackContext ctx).
Proof.
  intros H Hall. unfold fallback. cbv zeta.
  apply Qgt_bool_false in H. fold minLineHeight. rewrite H.
  fold (wholeLines maxHeight). rewrite linesAt_context.
  assert (Hlt : (Z.max 1 (wholeLines maxHeight)
                 <? Z.of_nat (length (linesAt measureText text maxWidth minFontSize)))%Z
                = false) by (apply Z.ltb_ge; lia).
  rewrite Hlt. simpl andb. cbv iota.
  rewrite take_ge by lia. reflexivity.
Qed.

Lemma fallback_truncated (ctx : Context2D) :
  minLineHeight <= maxHeight ->
  (wholeLines maxHeight
   < Z.of_nat (length (linesAt measureText text maxWidth minFontSize)))%Z ->
  exists lastLine,
    linesAt measureText text maxWidth minFontSize
      !! (Z.to_nat (wholeLines maxHeight) - 1)%nat = Some lastLine
    /\ fallback measureText ctx text maxWidth maxHeight
       = ({| lines :=
               take (Z.to_nat (wholeLines maxHeight) - 1)
                    (linesAt measureText text maxWidth minFontSize)
               ++ [trimToFit measureText (fallbackContext ctx) maxWidth lastLine
                   ++ ellipsis];
             lineHeight := minLineHeight |}, fallbackContext ctx).
Proof.
  intros H Hmore. pose proof (wholeLines_pos maxHeight H) as Hpos.
  unfold fallback. cbv zeta.
  apply Qgt_bool_false in H. fold minLineHeight. rewrite H.
  fold (wholeLines maxHeight). rewrite linesAt_context.
  fold (fallbackContext ctx).
  set (wrapped := linesAt measureText text maxWidth minFontSize) in *.
  rewrite Z.max_r by lia.
  set (m := Z.to_nat (wholeLines maxHeight)).
  assert (Hm : (1 <= m < length wrapped)%nat) by (unfold m; lia).
  assert (Hlt : (wholeLines maxHeight <? Z.of_nat (length wrapped))%Z = true)
    by (apply Z.ltb_lt; lia).
  rewrite Hlt. rewrite length_take_le by lia.
  assert (Hpos' : (0 <? m)%nat = true) by (apply Nat.ltb_lt; lia).
  rewrite Hpos'. simpl andb. cbv iota.
  destruct (wrapped !! (m - 1)%nat) as [lastLine|] eqn:El.
  - exists lastLine. split; [reflexivity|].
    rewrite lookup_take_lt by lia. rewrite El. simpl default.
    rewrite insert_take_drop by (rewrite length_take_le; lia).
    rewrite take_take. replace (Init.Nat.min (m - 1) m) with (m - 1)%nat by lia.
    replace (S (m - 1)) with m by lia.
    rewrite drop_ge by (rewrite length_take_le; lia).
    reflexivity.
  - apply lookup_ge_None in El. lia.
Qed.

End FallbackFacts.

(** ** The fitter as a whole *)

Section FitterFacts.

Variable measureText : Font -> list N -> Q.
Variables (ctx : Context2D) (text : list N) (maxWidth maxHeight : Q).

Lemma fit_guard :
  isBlank text = true \/ maxWidth <= 0 \/ maxHeight <= 0 ->
  getAdjustedFontAndLines measureText ctx text maxWidth maxHeight
  = (emptyResult, ctx).
Proof.
  intros H. unfold getAdjustedFontAndLines.
  assert (Hg : isBlank text || Qle_bool maxWidth 0 || Qle_bool maxHeight 0 = true).
  { rewrite !orb_true_iff. rewrite !Qle_bool_iff. tauto. }
  rewrite Hg. reflexivity.
Qed.

Lemma fit_search :
  isBlank text = false -> 0 < maxWidth -> 0 < maxHeight ->
  getAdjustedFontAndLines measureText ctx text maxWidth maxHeight
  = match searchLoop measureText text maxWidth maxHeight
                     (Z.to_nat (Qfloor maxHeight)) ctx with
    | (Some result, ctx') => (result, ctx')
    | (None, ctx') => fallback measureText ctx' text maxWidth maxHeight
    end.
Proof.
  intros Hb Hw Hh. unfold getAdjustedFontAndLines.
  assert (Hg : isBlank text || Qle_bool maxWidth 0 || Qle_bool maxHeight 0 = false).
  { rewrite !orb_false_iff. repeat split; [exact Hb| |].
    - destruct (Qle_bool maxWidth 0) eqn:E; [|reflexivity].
      apply Qle_bool_iff in E. lra.
    - destruct (Qle_bool maxHeight 0) eqn:E; [|reflexivity].
      apply Qle_bool_iff in E. lra. }
  rewrite Hg. reflexivity.
Qed.

(** Either the guard returns, or the search loop is entered. *)
Lemma fit_cases :
  (isBlank text = true \/ maxWidth <= 0 \/ maxHeight <= 0)
  \/ (isBlank text = false /\ 0 < maxWidth /\ 0 < maxHeight).
Proof.
  destruct (isBlank text); [left; left; reflexivity|].
  destruct (Qlt_le_dec 0 maxWidth); [|left; right; left; assumption].
  destruct (Qlt_le_dec 0 maxHeight); [|left; right; right; assumption].
  right. repeat split; assumption.
Qed.

End FitterFacts.

(** ** Width *)

Lemma fallback_lines_within_width (measureText : Font -> list N -> Q)
    (ctx : Context2D) (text : list N) (maxWidth maxHeight : Q) :
  Forall (withinWidth measureText
            (font (snd (fallback measureText ctx text maxWidth maxHeight)))
            maxWidth)
         (lines (fst (fallback measureText ctx text maxWidth maxHeight))).
Proof.
  destruct (Qlt_le_dec maxHeight minLineHeight) as [Hlow|Hok].
  - rewrite fallback_too_low by exact Hlow. constructor.
  - pose proof (wrapText_width measureText (fallbackContext ctx) maxWidth text)
      as Hwrap.
    unfold fallbackContext in Hwrap at 2. rewrite linesAt_context in Hwrap.
    destruct (Z_lt_le_dec (wholeLines maxHeight)
                (Z.of_nat (length (linesAt measureText text maxWidth minFontSize))))
      as [Hmore|Hall].
    + destruct (fallback_truncated measureText text maxWidth maxHeight ctx Hok Hmore)
        as (lastLine & _ & ->).
      simpl fst. simpl snd. simpl lines.
      apply Forall_app. split; [apply Forall_take; exact Hwrap|].
      constructor; [|constructor].
      intros Hlen.
      destruct (trimToFit_spec measureText (fallbackContext ctx) maxWidth lastLine)
        as [_ [Hfit|Hnil]]; [exact Hfit|].
      rewrite Hnil in Hlen. simpl in Hlen. lia.
    + rewrite (fallback_whole measureText text maxWidth maxHeight ctx Hok Hall).
      exact Hwrap.
Qed.

(** C1 (as amended). On every return path, every returned line that has
    at least two code units measures at most [maxWidth] at the font the
    fitter leaves in the context.  A line of one code unit is returned
    whatever its width: the first unit of a line is accepted unmeasured, and
    a last line trimmed to nothing is the bare ellipsis. *)
Theorem fit_lines_within_width (measureText : Font -> list N -> Q)
    (ctx : Context2D) (text : list N) (maxWidth maxHeight : Q) :
  Forall (withinWidth measureText
            (font (snd (getAdjustedFontAndLines measureText ctx text
                                                maxWidth maxHeight)))
            maxWidth)
         (lines (fst (getAdjustedFontAndLines measureText ctx text
                                              maxWidth maxHeight))).
Proof.
  destruct (fit_cases text maxWidth maxHeight) as [Hg|(Hb & Hw & Hh)].
  - rewrite fit_guard by exact Hg. constructor.
  - rewrite fit_search by assumption.
    destruct (searchLoop measureText text maxWidth maxHeight
                (Z.to_nat (Qfloor maxHeight)) ctx) as [[result|] ctx'] eqn:E.
    + apply searchLoop_some in E.
      destruct E as (k & _ & -> & Hl & _). simpl fst. simpl snd.
      rewrite Hl. unfold linesAt.
      apply (wrapText_width measureText
               (setFont (NotoSerifJP900 (Z.of_nat k)) ctx0) maxWidth text).
    + apply fallback_lines_within_width.
Qed.

(** C1 (as stated) fails: one code unit wider than the box is returned as a
    line.  With 10 px per unit and per pixel of font size, ["a"] in a box
    5 wide and 2 high comes back as the line ["a"] at font size 1, which
    measures 10. *)
Lemma fit_single_glyph_overflows :
  getAdjustedFontAndLines (fixedWidth 10) ctx0 (str "a") 5 2
  = ({| lines := [str "a"]; lineHeight := inject_Z 1 * 1.4 |},
     setFont (NotoSerifJP900 1) ctx0)
  /\ fixedWidth 10 (NotoSerifJP900 1) (str "a") == 10
  /\ ~ neverOverflowsWidth (fixedWidth 10) ctx0 (str "a") 5 2.
Proof.
  split; [reflexivity|]. split; [reflexivity|].
  unfold neverOverflowsWidth. vm_compute. intros H.
  inversion H as [|x l Hx Hl]; subst. apply Hx. reflexivity.
Qed.

(** ** Height and font size *)

(** C2. When the search loop returns (the non-fallback result) for
    non-blank text and a box of positive width and height, the fitter
    returns that result; its font size is a candidate between the minimum
    and [floor(maxHeight)]; its lines are the greedy wrap at that size and
    its line height is the size times 1.4; the lines fit the height; and no
    larger candidate in the searched range fits. *)
Theorem search_result_is_largest_fit (measureText : Font -> list N -> Q)
    (ctx : Context2D) (text : list N) (maxWidth maxHeight : Q)
    (result : FitResult) (ctx' : Context2D) :
  isBlank text = false -> 0 < maxWidth -> 0 < maxHeight ->
  searchLoop measureText text maxWidth maxHeight
             (Z.to_nat (Qfloor maxHeight)) ctx = (Some result, ctx') ->
  getAdjustedFontAndLines measureText ctx text maxWidth maxHeight
  = (result, ctx')
  /\ exists fontSize : Z,
       (minFontSize <= fontSize <= Qfloor maxHeight)%Z
       /\ font ctx' = NotoSerifJP900 fontSize
       /\ lineHeight result = inject_Z fontSize * 1.4
       /\ lines result = linesAt measureText text maxWidth fontSize
       /\ ofNat (length (lines result)) * lineHeight result <= maxHeight
       /\ forall candidate : Z,
            (fontSize < candidate <= Qfloor maxHeight)%Z ->
            ~ fitsHeight measureText text maxWidth maxHeight candidate.
Proof.
  intros Hb Hw Hh Hs. split.
  - rewrite fit_search by assumption. rewrite Hs. reflexivity.
  - apply searchLoop_some in Hs.
    destruct Hs as (k & (Hk & Hfit & Hmax) & -> & Hl & Hlh).
    exists (Z.of_nat k). unfold minFontSize.
    repeat split; try assumption; try lia.
    + rewrite Hl, Hlh. exact Hfit.
    + intros candidate Hc.
      replace candidate with (Z.of_nat (Z.to_nat candidate)) by lia.
      apply Hmax. lia.
Qed.

Lemma search_result_is_largest_fit_witness :
  getAdjustedFontAndLines (fixedWidth 1) ctx0 (str "hello world") 20 10
  = ({| lines := [str "hello "; str "world"]; lineHeight := inject_Z 3 * 1.4 |},
     setFont (NotoSerifJP900 3) ctx0)
  /\ exists fontSize : Z,
       (minFontSize <= fontSize <= Qfloor 10)%Z
       /\ font (setFont (NotoSerifJP900 3) ctx0) = NotoSerifJP900 fontSize
       /\ inject_Z 3 * 1.4 = inject_Z fontSize * 1.4
       /\ [str "hello "; str "world"]
          = linesAt (fixedWidth 1) (str "hello world") 20 fontSize
       /\ ofNat (length [str "hello "; str "world"]) * (inject_Z 3 * 1.4) <= 10
       /\ forall candidate : Z,
            (fontSize < candidate <= Qfloor 10)%Z ->
            ~ fitsHeight (fixedWidth 1) (str "hello world") 20 10 candidate.
Proof.
  exact (search_result_is_largest_fit (fixedWidth 1) ctx0 (str "hello world")
           20 10
           {| lines := [str "hello "; str "world"]; lineHeight := inject_Z 3 * 1.4 |}
           (setFont (NotoSerifJP900 3) ctx0)
           eq_refl eq_refl eq_refl eq_refl).
Defined.

(** C9. A non-fallback result of the fitter on non-blank text is a
    partition of the text.  When, for non-blank text and a box of positive
    width, the search loop returns a result, the fitter returns that
    result; the lines the fitter returns, joined in order, are the text
    itself, and none of them is empty. *)
Theorem search_result_partitions_text (measureText : Font -> list N -> Q)
    (ctx : Context2D) (text : list N) (maxWidth maxHeight : Q)
    (result : FitResult) (ctx' : Context2D) :
  isBlank text = false -> 0 < maxWidth ->
  searchLoop measureText text maxWidth maxHeight
             (Z.to_nat (Qfloor maxHeight)) ctx = (Some result, ctx') ->
  let returned :=
    fst (getAdjustedFontAndLines measureText ctx text maxWidth maxHeight) in
  returned = result
  /\ concat (lines returned) = text
  /\ Forall (fun line => line <> []) (lines returned).
Proof.
  intros Hb Hw Hs. cbv zeta.
  assert (Hreturned :
            fst (getAdjustedFontAndLines measureText ctx text maxWidth maxHeight)
            = result).
  { pose proof Hs as Hsome. apply searchLoop_some in Hsome.
    destruct Hsome as (k & (Hk & Hfit & _) & _).
    apply fits_line_height in Hfit; [|lia].
    assert (Hh : 0 < maxHeight).
    { assert (Hk1 : inject_Z 1 <= inject_Z (Z.of_nat k))
        by (rewrite <- Zle_Qle; lia).
      set (q := inject_Z (Z.of_nat k)) in *.
      change (inject_Z 1) with 1 in Hk1. lra. }
    rewrite fit_search by assumption. rewrite Hs. reflexivity. }
  rewrite Hreturned. split; [reflexivity|].
  apply searchLoop_some in Hs.
  destruct Hs as (k & _ & _ & Hl & _). rewrite Hl. unfold linesAt. split.
  - apply wrapText_concat.
  - apply wrapText_nonempty. apply isBlank_false_nonempty. exact Hb.
Qed.

Lemma search_result_partitions_text_witness :
  fst (getAdjustedFontAndLines (fixedWidth 1) ctx0 (str "hello world") 20 10)
  = {| lines := [str "hello "; str "world"]; lineHeight := inject_Z 3 * 1.4 |}
  /\ concat (lines (fst (getAdjustedFontAndLines (fixedWidth 1) ctx0
                                                 (str "hello world") 20 10)))
     = str "hello world"
  /\ Forall (fun line => line <> [])
            (lines (fst (getAdjustedFontAndLines (fixedWidth 1) ctx0
                                                 (str "hello world") 20 10))).
Proof.
  exact (search_result_partitions_text (fixedWidth 1) ctx0 (str "hello world")
           20 10
           {| lines := [str "hello "; str "world"]; lineHeight := inject_Z 3 * 1.4 |}
           (setFont (NotoSerifJP900 3) ctx0)
           eq_refl eq_refl eq_refl).
Defined.

Lemma fallback_height (measureText : Font -> list N -> Q)
    (ctx : Context2D) (text : list N) (maxWidth maxHeight : Q) :
  0 <= maxHeight ->
  ofNat (length (lines (fst (fallback measureText ctx text maxWidth maxHeight))))
  * lineHeight (fst (fallback measureText ctx text maxWidth maxHeight))
  <= maxHeight.
Proof.
  intros Hnn.
  destruct (Qlt_le_dec maxHeight minLineHeight) as [Hlow|Hok].
  - rewrite fallback_too_low by exact Hlow. simpl. lra.
  - pose proof (wholeLines_pos maxHeight Hok) as Hpos.
    pose proof (wholeLines_fit maxHeight) as Hfit.
    assert (Hbound : forall n : nat,
               (Z.of_nat n <= wholeLines maxHeight)%Z ->
               ofNat n * minLineHeight <= maxHeight).
    { intros n Hn. apply Qle_trans with (2 := Hfit).
      apply Qmult_le_compat_r; [|discriminate].
      unfold ofNat. rewrite <- Zle_Qle. exact Hn. }
    destruct (Z_lt_le_dec (wholeLines maxHeight)
                (Z.of_nat (length (linesAt measureText text maxWidth minFontSize))))
      as [Hmore|Hall].
    + destruct (fallback_truncated measureText text maxWidth maxHeight ctx Hok Hmore)
        as (lastLine & _ & ->).
      simpl fst. simpl lines. simpl lineHeight.
      apply Hbound. rewrite length_app, length_take. simpl. lia.
    + rewrite (fallback_whole measureText text maxWidth maxHeight ctx Hok Hall).
      simpl fst. simpl lines. simpl lineHeight.
      apply Hbound. exact Hall.
Qed.

(** C10 (as amended). For a box whose height is not negative, the block
    of returned lines is no taller than the box on every return path: the
    guard and the too-low fallback return no line, the search loop returns
    only what it has checked, and the truncation fallback keeps at most
    [floor(maxHeight / 1.4)] lines of height 1.4. *)
Theorem fit_never_overflows_height (measureText : Font -> list N -> Q)
    (ctx : Context2D) (text : list N) (maxWidth maxHeight : Q) :
  0 <= maxHeight ->
  neverOverflowsHeight measureText ctx text maxWidth maxHeight.
Proof.
  intros Hnn. unfold neverOverflowsHeight. cbv zeta.
  destruct (fit_cases text maxWidth maxHeight) as [Hg|(Hb & Hw & Hh)].
  - rewrite fit_guard by exact Hg. simpl. lra.
  - rewrite fit_search by assumption.
    destruct (searchLoop measureText text maxWidth maxHeight
                (Z.to_nat (Qfloor maxHeight)) ctx) as [[result|] ctx'] eqn:E.
    + apply searchLoop_some in E.
      destruct E as (k & (_ & Hfit & _) & _ & Hl & Hlh). simpl fst.
      rewrite Hl, Hlh. exact Hfit.
    + apply fallback_height. exact Hnn.
Qed.

Lemma fit_never_overflows_height_witness :
  neverOverflowsHeight (fixedWidth 1) ctx0 (str "abcdefghij") 3 3.
Proof.
  exact (fit_never_overflows_height (fixedWidth 1) ctx0 (str "abcdefghij") 3 3
           ltac:(discriminate)).
Defined.

(** C10 (as stated) fails on the guard's return path: for a box of negative
    height the fitter returns no line and line height 0, and 0 * 0 is not
    at most the negative height. *)
Lemma fit_negative_height_not_bounded :
  fst (getAdjustedFontAndLines (fixedWidth 1) ctx0 (str "a") 10 (-1))
  = emptyResult
  /\ ~ neverOverflowsHeight (fixedWidth 1) ctx0 (str "a") 10 (-1).
Proof.
  split; [reflexivity|].
  unfold neverOverflowsHeight. vm_compute. intros H. apply H. reflexivity.
Qed.

(** ** Degenerate input *)

Lemma low_box_search_fails (measureText : Font -> list N -> Q)
    (ctx : Context2D) (text : list N) (maxWidth maxHeight : Q) :
  maxHeight < minLineHeight ->
  exists ctx',
    searchLoop measureText text maxWidth maxHeight
               (Z.to_nat (Qfloor maxHeight)) ctx = (None, ctx').
Proof.
  intros Hlow.
  destruct (searchLoop measureText text maxWidth maxHeight
              (Z.to_nat (Qfloor maxHeight)) ctx) as [[result|] ctx'] eqn:E.
  - exfalso. apply searchLoop_some in E.
    destruct E as (k & (Hk & Hfit & _) & _).
    apply fits_line_height in Hfit; [|lia].
    assert (Hk1 : inject_Z 1 <= inject_Z (Z.of_nat k)) by (rewrite <- Zle_Qle; lia).
    rewrite minLineHeight_value in Hlow.
    set (q := inject_Z (Z.of_nat k)) in *.
    change (inject_Z 1) with 1 in Hk1. lra.
  - exists ctx'. reflexivity.
Qed.

Lemma degenerate_fit_is_empty (measureText : Font -> list N -> Q)
    (ctx : Context2D) (text : list N) (maxWidth maxHeight : Q) :
  maxWidth <= 0 \/ maxHeight <= 0
  \/ text = [] \/ forallb isWhiteSpace text = true
  \/ maxHeight < inject_Z minFontSize * 1.4 ->
  fst (getAdjustedFontAndLines measureText ctx text maxWidth maxHeight)
  = emptyResult.
Proof.
  intros H.
  assert (Hcases : (isBlank text = true \/ maxWidth <= 0 \/ maxHeight <= 0)
                   \/ (isBlank text = false /\ 0 < maxWidth /\ 0 < maxHeight
                       /\ maxHeight < minLineHeight)).
  { destruct (fit_cases text maxWidth maxHeight) as [Hg|(Hb & Hw & Hh)];
      [left; exact Hg|].
    destruct H as [H|[H|[H|[H|H]]]].
    - lra.
    - lra.
    - subst text. discriminate Hb.
    - apply isBlank_iff in H. congruence.
    - right. repeat split; assumption. }
  destruct Hcases as [Hg|(Hb & Hw & Hh & Hlow)].
  - rewrite fit_guard by exact Hg. reflexivity.
  - rewrite fit_search by assumption.
    destruct (low_box_search_fails measureText ctx text maxWidth maxHeight Hlow)
      as [ctx' ->].
    rewrite fallback_too_low by exact Hlow. reflexivity.
Qed.

(** ** The counter as a double *)

Section DoubleCounterFacts.

Variable measureText : Font -> list N -> Q.
Variables (text : list N) (maxWidth maxHeight : Q).

(** An integer of at most 53 bits is a double. *)
Lemma roundToDouble_exact (z : Z) :
  (0 <= z < 2 ^ 53)%Z -> DoubleCounter.roundToDouble z = z.
Proof.
  intros Hz. unfold DoubleCounter.roundToDouble. cbv zeta.
  rewrite Z.abs_eq by lia.
  assert (Hlog : (Z.log2 z + 1 - 53 <= 0)%Z).
  { destruct (Z.eq_dec z 0%Z) as [->|Hne]; [simpl; lia|].
    assert (Z.log2 z < 53)%Z by (apply Z.log2_lt_pow2; lia). lia. }
  rewrite Z.max_l by exact Hlog.
  change (2 ^ 0)%Z with 1%Z.
  rewrite Z.div_1_r, Z.mod_1_r. simpl.
  destruct (Z.eq_dec z 0%Z) as [->|Hne]; [reflexivity|].
  rewrite Z.sgn_pos by lia. lia.
Qed.

Lemma decrement_exact (k : nat) :
  (Z.of_nat k <= 2 ^ 53)%Z ->
  DoubleCounter.decrement (Z.of_nat (S k)) = Z.of_nat k.
Proof.
  intros Hk. unfold DoubleCounter.decrement.
  replace (Z.of_nat (S k) - 1)%Z with (Z.of_nat k) by lia.
  destruct (Z.eq_dec (Z.of_nat k) (2 ^ 53)%Z) as [->|Hne]; [reflexivity|].
  apply roundToDouble_exact. lia.
Qed.

Lemma doubleSearchLoop_S (rounds : nat) (fontSize : Z) (ctx : Context2D) :
  DoubleCounter.searchLoop measureText text maxWidth maxHeight (S rounds)
                           fontSize ctx
  = if (minFontSize <=? fontSize)%Z
    then
      let ctx := setFont (NotoSerifJP900 fontSize) ctx in
      let lineHeight := inject_Z fontSize * 1.4 in
      if Qgt_bool lineHeight maxHeight
      then DoubleCounter.searchLoop measureText text maxWidth maxHeight rounds
                                    (DoubleCounter.decrement fontSize) ctx
      else
        let lines := wrapText measureText ctx maxWidth text in
        if Qle_bool (ofNat (length lines) * lineHeight) maxHeight
        then Some (Some {| lines := lines; lineHeight := lineHeight |}, ctx)
        else DoubleCounter.searchLoop measureText text maxWidth maxHeight
                                      rounds (DoubleCounter.decrement fontSize)
                                      ctx
    else Some (None, ctx).
Proof. reflexivity. Qed.

(** Up to 2^53 + 1 the counter is decremented exactly, and the loop is the
    one that counts down the integers. *)
Lemma doubleSearchLoop_exact (n : nat) :
  (Z.of_nat n <= 2 ^ 53 + 1)%Z ->
  forall (rounds : nat) (ctx : Context2D),
    (n < rounds)%nat ->
    DoubleCounter.searchLoop measureText text maxWidth maxHeight rounds
                             (Z.of_nat n) ctx
    = Some (searchLoop measureText text maxWidth maxHeight n ctx).
Proof.
  induction n as [|k IH]; intros Hn rounds ctx Hr;
    (destruct rounds as [|rounds]; [lia|]); rewrite doubleSearchLoop_S.
  - reflexivity.
  - assert (Htest : (minFontSize <=? Z.of_nat (S k))%Z = true)
      by (apply Z.leb_le; unfold minFontSize; lia).
    rewrite Htest, searchLoop_S. cbv zeta.
    rewrite decrement_exact by lia.
    rewrite !IH by lia.
    destruct (Qgt_bool _ maxHeight); [reflexivity|].
    destruct (Qle_bool _ maxHeight); reflexivity.
Qed.

(** A candidate whose line height is above the box is passed over. *)
Lemma doubleSearchLoop_skip (rounds : nat) (fontSize : Z) (ctx : Context2D) :
  (1 <= fontSize)%Z -> maxHeight < inject_Z fontSize * 1.4 ->
  DoubleCounter.searchLoop measureText text maxWidth maxHeight (S rounds)
                           fontSize ctx
  = DoubleCounter.searchLoop measureText text maxWidth maxHeight rounds
      (DoubleCounter.decrement fontSize) (setFont (NotoSerifJP900 fontSize) ctx).
Proof.
  intros Hpos Hhigh. rewrite doubleSearchLoop_S.
  assert (Htest : (minFontSize <=? fontSize)%Z = true)
    by (apply Z.leb_le; exact Hpos).
  rewrite Htest. cbv zeta.
  assert (Hskip : Qgt_bool (inject_Z fontSize * 1.4) maxHeight = true)
    by (apply Qgt_bool_true; exact Hhigh).
  rewrite Hskip. reflexivity.
Qed.

Lemma searchLoop_skip (k : nat) (ctx : Context2D) :
  maxHeight < inject_Z (Z.of_nat (S k)) * 1.4 ->
  searchLoop measureText text maxWidth maxHeight (S k) ctx
  = searchLoop measureText text maxWidth maxHeight k
      (setFont (NotoSerifJP900 (Z.of_nat (S k))) ctx).
Proof.
  intros Hhigh. rewrite searchLoop_S. cbv zeta.
  assert (Hskip : Qgt_bool (inject_Z (Z.of_nat (S k)) * 1.4) maxHeight = true)
    by (apply Qgt_bool_true; exact Hhigh).
  rewrite Hskip. reflexivity.
Qed.

(** The font a round starts with is overwritten before it is read. *)
Lemma searchLoop_font (k : nat) (f : Font) (ctx : Context2D) :
  searchLoop measureText text maxWidth maxHeight (S k) (setFont f ctx)
  = searchLoop measureText text maxWidth maxHeight (S k) ctx.
Proof.
  rewrite !searchLoop_S. reflexivity.
Qed.

(** Below 2^53 + 4 every candidate from 2^53 on is too high for the box. *)
Lemma high_candidate_skipped (fontSize : Z) :
  maxHeight < inject_Z (2 ^ 53 + 4) -> (2 ^ 53 <= fontSize)%Z ->
  maxHeight < inject_Z fontSize * 1.4.
Proof.
  intros Hbound Hhigh. rewrite Zle_Qle in Hhigh.
  change (inject_Z (2 ^ 53 + 4)) with 9007199254740996 in Hbound.
  change (inject_Z (2 ^ 53)) with 9007199254740992 in Hhigh.
  lra.
Qed.

(** From 2^53 + 2 the counter goes to 2^53: the candidate 2^53 + 1 is not
    tried, and it would have been passed over. *)
Lemma doubleSearchLoop_gap (k : nat) :
  maxHeight < inject_Z (2 ^ 53 + 4) -> Z.of_nat k = (2 ^ 53)%Z ->
  forall (rounds : nat) (ctx : Context2D),
    (S (S k) < rounds)%nat ->
    DoubleCounter.searchLoop measureText text maxWidth maxHeight rounds
                             (Z.of_nat (S (S k))) ctx
    = Some (searchLoop measureText text maxWidth maxHeight (S (S k)) ctx).
Proof.
  intros Hbound Hk rounds ctx Hr.
  destruct rounds as [|rounds]; [lia|].
  assert (Hdec : DoubleCounter.decrement (Z.of_nat (S (S k))) = Z.of_nat k).
  { replace (Z.of_nat (S (S k))) with (2 ^ 53 + 2)%Z by lia.
    rewrite Hk. reflexivity. }
  rewrite doubleSearchLoop_skip, Hdec;
    [|lia|apply high_candidate_skipped; [exact Hbound|lia]].
  rewrite doubleSearchLoop_exact by lia.
  rewrite !searchLoop_skip
    by (apply high_candidate_skipped; [exact Hbound|lia]).
  destruct k as [|k']; [discriminate Hk|].
  rewrite searchLoop_font. reflexivity.
Qed.

(** Below 2^53 + 4 the loop with the double counter, given one round more
    than its first candidate, returns what the loop that counts down the
    integers returns. *)
Lemma doubleSearchLoop_agrees (n : nat) :
  maxHeight < inject_Z (2 ^ 53 + 4) -> (Z.of_nat n <= 2 ^ 53 + 3)%Z ->
  forall (rounds : nat) (ctx : Context2D),
    (n < rounds)%nat ->
    DoubleCounter.searchLoop measureText text maxWidth maxHeight rounds
                             (Z.of_nat n) ctx
    = Some (searchLoop measureText text maxWidth maxHeight n ctx).
Proof.
  intros Hbound Hn rounds ctx Hr.
  destruct (Z_le_gt_dec (Z.of_nat n) (2 ^ 53 + 1)) as [Hlow|Hhigh];
    [apply doubleSearchLoop_exact; assumption|].
  destruct n as [|[|k]]; [lia|lia|].
  destruct (Z.eq_dec (Z.of_nat k) (2 ^ 53)%Z) as [Hk|Hk];
    [apply doubleSearchLoop_gap; assumption|].
  destruct k as [|k]; [lia|].
  assert (Hk' : Z.of_nat k = (2 ^ 53)%Z) by lia.
  destruct rounds as [|rounds]; [lia|].
  assert (Hdec : DoubleCounter.decrement (Z.of_nat (S (S (S k))))
                 = Z.of_nat (S (S k))).
  { replace (Z.of_nat (S (S (S k)))) with (2 ^ 53 + 3)%Z by lia.
    replace (Z.of_nat (S (S k))) with (2 ^ 53 + 2)%Z by lia. reflexivity. }
  rewrite doubleSearchLoop_skip, Hdec;
    [|lia|apply high_candidate_skipped; [exact Hbound|lia]].
  rewrite doubleSearchLoop_gap by (try assumption; lia).
  rewrite (searchLoop_skip (S (S k)))
    by (apply high_candidate_skipped; [exact Hbound|lia]).
  reflexivity.
Qed.

End DoubleCounterFacts.

(** More rounds do not change what the loop returns. *)
Lemma doubleSearchLoop_more (measureText : Font -> list N -> Q)
    (text : list N) (maxWidth maxHeight : Q) (rounds : nat) :
  forall (fontSize : Z) (ctx : Context2D)
         (outcome : option FitResult * Context2D) (more : nat),
    DoubleCounter.searchLoop measureText text maxWidth maxHeight rounds
                             fontSize ctx = Some outcome ->
    DoubleCounter.searchLoop measureText text maxWidth maxHeight
                             (rounds + more) fontSize ctx = Some outcome.
Proof.
  induction rounds as [|rounds IH]; intros fontSize ctx outcome more H;
    [discriminate H|].
  change (S rounds + more)%nat with (S (rounds + more)).
  rewrite doubleSearchLoop_S in *.
  destruct (minFontSize <=? fontSize)%Z; [|exact H].
  cbv zeta in *.
  destruct (Qgt_bool _ maxHeight); [apply IH; exact H|].
  destruct (Qle_bool _ maxHeight); [exact H|apply IH; exact H].
Qed.

(** The fitter returns one outcome at most. *)
Lemma fitterReturns_unique (measureText : Font -> list N -> Q)
    (ctx : Context2D) (text : list N) (maxWidth maxHeight : Q)
    (outcome1 outcome2 : FitResult * Context2D) :
  fitterReturns measureText ctx text maxWidth maxHeight outcome1 ->
  fitterReturns measureText ctx text maxWidth maxHeight outcome2 ->
  outcome1 = outcome2.
Proof.
  intros [rounds1 H1] [rounds2 H2].
  unfold DoubleCounter.getAdjustedFontAndLines in H1, H2.
  destruct (isBlank text || Qle_bool maxWidth 0 || Qle_bool maxHeight 0);
    [congruence|].
  destruct (DoubleCounter.searchLoop measureText text maxWidth maxHeight
              rounds1 (Qfloor maxHeight) ctx) as [left1|] eqn:E1;
    [|discriminate H1].
  destruct (DoubleCounter.searchLoop measureText text maxWidth maxHeight
              rounds2 (Qfloor maxHeight) ctx) as [left2|] eqn:E2;
    [|discriminate H2].
  apply (doubleSearchLoop_more _ _ _ _ _ _ _ _ rounds2) in E1.
  apply (doubleSearchLoop_more _ _ _ _ _ _ _ _ rounds1) in E2.
  rewrite (Nat.add_comm rounds2 rounds1) in E2.
  assert (left1 = left2) by congruence. subst left2.
  destruct left1 as [[result|] ctx']; congruence.
Qed.

(** With a first candidate of 2^53 + 4 the counter stays where it is and
    the loop goes on. *)
Lemma doubleSearchLoop_stuck (rounds : nat) :
  forall ctx : Context2D,
    DoubleCounter.searchLoop (fixedWidth 1) (str "a") 1 (inject_Z (2 ^ 53 + 4))
                             rounds (2 ^ 53 + 4)%Z ctx
    = None.
Proof.
  induction rounds as [|rounds IH]; intros ctx; [reflexivity|].
  rewrite doubleSearchLoop_skip; [|discriminate|reflexivity].
  change (DoubleCounter.decrement (2 ^ 53 + 4)) with (2 ^ 53 + 4)%Z.
  apply IH.
Qed.

(** C5 (as amended). For every input whose [maxHeight] is below 2^53 + 4,
    the fitter returns, and what it returns is the outcome of the fitter
    whose search loop counts down the integers, whatever the text, the
    width and the measure.  When the box has a non-positive width or
    height, or the text is empty or all white space, or one line at the
    minimum font size is taller than the box, the fitter returns
    [{ lines: [], lineHeight: 0 }], whatever [maxHeight] is.  The fitter
    never returns two different outcomes.  The counter is rounded as a
    double is; the other arithmetic is carried out exactly. *)
Theorem fit_returns_and_degenerate_is_empty
    (measureText : Font -> list N -> Q)
    (ctx : Context2D) (text : list N) (maxWidth maxHeight : Q) :
  (maxHeight < inject_Z (2 ^ 53 + 4) ->
   fitterReturns measureText ctx text maxWidth maxHeight
     (getAdjustedFontAndLines measureText ctx text maxWidth maxHeight))
  /\ (maxWidth <= 0 \/ maxHeight <= 0
      \/ text = [] \/ forallb isWhiteSpace text = true
      \/ maxHeight < inject_Z minFontSize * 1.4 ->
      exists ctx' : Context2D,
        fitterReturns measureText ctx text maxWidth maxHeight
                      (emptyResult, ctx'))
  /\ (forall outcome1 outcome2 : FitResult * Context2D,
        fitterReturns measureText ctx text maxWidth maxHeight outcome1 ->
        fitterReturns measureText ctx text maxWidth maxHeight outcome2 ->
        outcome1 = outcome2).
Proof.
  assert (Hreturns :
            maxHeight < inject_Z (2 ^ 53 + 4) ->
            fitterReturns measureText ctx text maxWidth maxHeight
              (getAdjustedFontAndLines measureText ctx text maxWidth maxHeight)).
  { intros Hbound. exists (S (Z.to_nat (Qfloor maxHeight))).
    unfold DoubleCounter.getAdjustedFontAndLines, getAdjustedFontAndLines.
    destruct (isBlank text || Qle_bool maxWidth 0 || Qle_bool maxHeight 0)
      eqn:Eguard; [reflexivity|].
    apply orb_false_iff in Eguard. destruct Eguard as [_ Eh].
    assert (Hh : 0 < maxHeight).
    { destruct (Qlt_le_dec 0 maxHeight) as [Hpos|Hneg]; [exact Hpos|].
      apply Qle_bool_iff in Hneg. congruence. }
    assert (Hfloor : (0 <= Qfloor maxHeight <= 2 ^ 53 + 3)%Z).
    { split.
      - change 0%Z with (Qfloor 0). apply Qfloor_resp_le. lra.
      - pose proof (Qfloor_le maxHeight) as Hle.
        assert (Hlt : inject_Z (Qfloor maxHeight) < inject_Z (2 ^ 53 + 4))
          by lra.
        rewrite <- Zlt_Qlt in Hlt. lia. }
    assert (En : Qfloor maxHeight = Z.of_nat (Z.to_nat (Qfloor maxHeight)))
      by lia.
    set (n := Z.to_nat (Qfloor maxHeight)) in *. clearbody n. rewrite En.
    rewrite doubleSearchLoop_agrees; [|exact Hbound|lia|lia].
    destruct (searchLoop measureText text maxWidth maxHeight n ctx)
      as [[result|] ctx']; reflexivity. }
  split; [exact Hreturns|]. split; [|apply fitterReturns_unique].
  intros Hdegenerate.
  destruct (fit_cases text maxWidth maxHeight) as [Hg|(Hb & Hw & Hh)].
  - exists ctx, O. unfold DoubleCounter.getAdjustedFontAndLines.
    assert (Eguard : isBlank text || Qle_bool maxWidth 0 || Qle_bool maxHeight 0
                     = true).
    { rewrite !orb_true_iff. rewrite !Qle_bool_iff. tauto. }
    rewrite Eguard. reflexivity.
  - assert (Hlow : maxHeight < inject_Z minFontSize * 1.4).
    { destruct Hdegenerate as [H|[H|[H|[H|H]]]]; [lra|lra| | |exact H].
      - subst text. discriminate Hb.
      - apply isBlank_iff in H. congruence. }
    pose proof (degenerate_fit_is_empty measureText ctx text maxWidth maxHeight
                  Hdegenerate) as Hempty.
    assert (Hbound : maxHeight < inject_Z (2 ^ 53 + 4)).
    { change (inject_Z (2 ^ 53 + 4)) with 9007199254740996.
      change (inject_Z minFontSize) with 1 in Hlow. lra. }
    specialize (Hreturns Hbound).
    destruct (getAdjustedFontAndLines measureText ctx text maxWidth maxHeight)
      as [result ctx'].
    simpl in Hempty. subst result. exists ctx'. exact Hreturns.
Qed.

Lemma fit_returns_and_degenerate_is_empty_witness :
  fitterReturns (fixedWidth 1) ctx0 (str "hello world") 20 10
    ({| lines := [str "hello "; str "world"]; lineHeight := inject_Z 3 * 1.4 |},
     setFont (NotoSerifJP900 3) ctx0)
  /\ exists ctx' : Context2D,
       fitterReturns (fixedWidth 1) ctx0 (str "hello") 100 1.3
                     (emptyResult, ctx').
Proof.
  split.
  - exact (proj1 (fit_returns_and_degenerate_is_empty
                    (fixedWidth 1) ctx0 (str "hello world") 20 10) eq_refl).
  - apply (proj1 (proj2 (fit_returns_and_degenerate_is_empty
                           (fixedWidth 1) ctx0 (str "hello") 100 1.3))).
    right. right. right. right. reflexivity.
Defined.

(** C5 (as stated) fails: with [maxHeight] = 2^53 + 4 the counter starts at
    2^53 + 4, a line of that size is higher than the box, and [fontSize--]
    leaves the counter at 2^53 + 4, one less being no double and the tie
    going to the even significand.  The loop is never left, so the fitter
    returns nothing. *)
Lemma fit_huge_box_never_returns :
  DoubleCounter.decrement (2 ^ 53 + 4) = (2 ^ 53 + 4)%Z
  /\ ~ exists outcome : FitResult * Context2D,
         fitterReturns (fixedWidth 1) ctx0 (str "a") 1 (inject_Z (2 ^ 53 + 4))
                       outcome.
Proof.
  split; [reflexivity|]. intros (outcome & rounds & H).
  unfold DoubleCounter.getAdjustedFontAndLines in H.
  change (isBlank (str "a") || Qle_bool 1 0
          || Qle_bool (inject_Z (2 ^ 53 + 4)) 0) with false in H.
  change (Qfloor (inject_Z (2 ^ 53 + 4))) with (2 ^ 53 + 4)%Z in H.
  rewrite doubleSearchLoop_stuck in H. discriminate H.
Qed.

(** The same subtractions on binary64 values: one less than 2^53 + 4 is
    2^53 + 4, one less than 2^53 + 2 is 2^53, and one less than 2^53 is
    2^53 - 1. *)
Example decrement_on_binary64 :
  integerOf (Binary64.sub (Binary64.ofZ (2 ^ 53 + 4)) (Binary64.ofZ 1))
  = Some (2 ^ 53 + 4)%Z
  /\ integerOf (Binary64.sub (Binary64.ofZ (2 ^ 53 + 2)) (Binary64.ofZ 1))
     = Some (2 ^ 53)%Z
  /\ integerOf (Binary64.sub (Binary64.ofZ (2 ^ 53)) (Binary64.ofZ 1))
     = Some (2 ^ 53 - 1)%Z.
Proof. vm_compute. repeat split. Qed.

(** Around 2^53 and 2^54, [roundToDouble] is the rounding of an integer to
    binary64, and [decrement] on an integer that is a double is the
    subtraction of binary64. *)
Example decrement_agrees_with_binary64 :
  forallb (fun z =>
             bool_decide (integerOf (Binary64.ofZ z)
                          = Some (DoubleCounter.roundToDouble z))
             && (negb (DoubleCounter.roundToDouble z =? z)%Z
                 || bool_decide
                      (integerOf (Binary64.sub (Binary64.ofZ z)
                                               (Binary64.ofZ 1))
                       = Some (DoubleCounter.decrement z))))
          (integersFrom (2 ^ 53 - 50) 200 ++ integersFrom (2 ^ 54 - 50) 200)
  = true.
Proof. vm_compute. reflexivity. Qed.

(** ** Truncation *)

Lemma no_fit_means_dropped (measureText : Font -> list N -> Q)
    (ctx ctx1 : Context2D) (text : list N) (maxWidth maxHeight : Q) :
  minLineHeight <= maxHeight ->
  searchLoop measureText text maxWidth maxHeight
             (Z.to_nat (Qfloor maxHeight)) ctx = (None, ctx1) ->
  (wholeLines maxHeight
   < Z.of_nat (length (linesAt measureText text maxWidth minFontSize)))%Z.
Proof.
  intros Hok Hs.
  assert (Hfl : (1 <= Qfloor maxHeight)%Z).
  { change 1%Z with (Qfloor 1). apply Qfloor_resp_le.
    rewrite minLineHeight_value in Hok. lra. }
  pose proof (searchLoop_none measureText text maxWidth maxHeight _ ctx ctx1 Hs 1%nat)
    as Hno.
  assert (Hno1 : ~ fitsHeight measureText text maxWidth maxHeight minFontSize)
    by (apply Hno; lia).
  destruct (Z_lt_le_dec (wholeLines maxHeight)
              (Z.of_nat (length (linesAt measureText text maxWidth minFontSize))))
    as [Hmore|Hall]; [exact Hmore|].
  exfalso. apply Hno1. unfold fitsHeight. fold minLineHeight.
  apply Qle_trans with (2 := wholeLines_fit maxHeight).
  apply Qmult_le_compat_r; [|discriminate].
  unfold ofNat. rewrite <- Zle_Qle. exact Hall.
Qed.

(** C4 (as amended). When no searched size fits, for non-blank text, a
    positive width and a height of at least one minimum line: the fitter
    wraps at the minimum font size and returns lines of the minimum line
    height; it keeps [floor(maxHeight / 1.4)] lines, the largest number of
    whole lines that fit, which is fewer than the wrap produced; the kept
    lines are the first ones of the wrap, except that the last kept line is
    cut back to a prefix followed by the ellipsis; and that last line
    measures at most [maxWidth] unless the prefix is empty, in which case
    the line is the bare ellipsis whatever its width. *)
Theorem fallback_truncates (measureText : Font -> list N -> Q)
    (ctx ctx1 : Context2D) (text : list N) (maxWidth maxHeight : Q) :
  isBlank text = false -> 0 < maxWidth ->
  inject_Z minFontSize * 1.4 <= maxHeight ->
  searchLoop measureText text maxWidth maxHeight
             (Z.to_nat (Qfloor maxHeight)) ctx = (None, ctx1) ->
  let fit := getAdjustedFontAndLines measureText ctx text maxWidth maxHeight in
  let wrapped := linesAt measureText text maxWidth minFontSize in
  let kept := Z.to_nat (wholeLines maxHeight) in
  font (snd fit) = NotoSerifJP900 minFontSize
  /\ lineHeight (fst fit) = inject_Z minFontSize * 1.4
  /\ length (lines (fst fit)) = kept
  /\ (1 <= kept < length wrapped)%nat
  /\ ofNat kept * lineHeight (fst fit) <= maxHeight
  /\ maxHeight < ofNat (kept + 1) * lineHeight (fst fit)
  /\ exists lastLine prefix dropped,
       wrapped !! (kept - 1)%nat = Some lastLine
       /\ lastLine = prefix ++ dropped
       /\ lines (fst fit) = take (kept - 1) wrapped ++ [prefix ++ ellipsis]
       /\ (measureText (font (snd fit)) (prefix ++ ellipsis) <= maxWidth
           \/ prefix = []).
Proof.
  intros Hb Hw Hok Hs fit wrapped kept. fold minLineHeight in Hok.
  assert (Hh : 0 < maxHeight) by (rewrite minLineHeight_value in Hok; lra).
  pose proof (wholeLines_pos maxHeight Hok) as Hpos.
  pose proof (no_fit_means_dropped measureText ctx ctx1 text maxWidth maxHeight
                Hok Hs) as Hmore.
  destruct (fallback_truncated measureText text maxWidth maxHeight ctx1 Hok Hmore)
    as (lastLine & Hlast & Hfb).
  assert (Hfit : fit
                 = ({| lines := take (kept - 1) wrapped
                                ++ [trimToFit measureText (fallbackContext ctx1)
                                              maxWidth lastLine ++ ellipsis];
                       lineHeight := minLineHeight |}, fallbackContext ctx1)).
  { unfold fit. rewrite fit_search by assumption. rewrite Hs. exact Hfb. }
  rewrite Hfit. simpl fst. simpl snd. simpl lines. simpl lineHeight.
  assert (Hkept : ofNat kept = inject_Z (wholeLines maxHeight)).
  { unfold ofNat, kept. rewrite Z2Nat.id by lia. reflexivity. }
  assert (Hkept1 : ofNat (kept + 1) = inject_Z (wholeLines maxHeight + 1)).
  { unfold ofNat, kept. rewrite Nat2Z.inj_add, Z2Nat.id by lia. reflexivity. }
  repeat split.
  - rewrite length_app, length_take. simpl. unfold kept, wrapped. lia.
  - unfold kept. lia.
  - unfold kept, wrapped. lia.
  - rewrite Hkept. apply wholeLines_fit.
  - rewrite Hkept1. apply wholeLines_maximal.
  - destruct (trimToFit_spec measureText (fallbackContext ctx1) maxWidth lastLine)
      as [[dropped Hd] Hfits].
    exists lastLine, (trimToFit measureText (fallbackContext ctx1) maxWidth lastLine),
      dropped.
    repeat split; assumption.
Qed.

Lemma fallback_truncates_witness :
  let fit := getAdjustedFontAndLines (fixedWidth 1) ctx0 (str "abcdefghij") 3 3 in
  let wrapped := linesAt (fixedWidth 1) (str "abcdefghij") 3 minFontSize in
  let kept := Z.to_nat (wholeLines 3) in
  font (snd fit) = NotoSerifJP900 minFontSize
  /\ lineHeight (fst fit) = inject_Z minFontSize * 1.4
  /\ length (lines (fst fit)) = kept
  /\ (1 <= kept < length wrapped)%nat
  /\ ofNat kept * lineHeight (fst fit) <= 3
  /\ 3 < ofNat (kept + 1) * lineHeight (fst fit)
  /\ exists lastLine prefix dropped,
       wrapped !! (kept - 1)%nat = Some lastLine
       /\ lastLine = prefix ++ dropped
       /\ lines (fst fit) = take (kept - 1) wrapped ++ [prefix ++ ellipsis]
       /\ (fixedWidth 1 (font (snd fit)) (prefix ++ ellipsis) <= 3
           \/ prefix = []).
Proof.
  exact (fallback_truncates (fixedWidth 1) ctx0 (setFont (NotoSerifJP900 1) ctx0)
           (str "abcdefghij") 3 3 eq_refl eq_refl ltac:(discriminate) eq_refl).
Defined.

(** C4 (as stated) fails when the ellipsis alone is wider than the box.
    With 10 px per unit, ["abc"] in a box 5 wide and 1.4 high fits at no
    searched size; the wrap at size 1 has three lines of which one is kept;
    trimming empties it, and the returned last line is the bare ellipsis,
    which measures 10. *)
Lemma fallback_bare_ellipsis_overflows :
  isBlank (str "abc") = false
  /\ 0 < 5
  /\ inject_Z minFontSize * 1.4 <= 1.4
  /\ searchLoop (fixedWidth 10) (str "abc") 5 1.4 (Z.to_nat (Qfloor 1.4)) ctx0
     = (None, setFont (NotoSerifJP900 1) ctx0)
  /\ lines (fst (getAdjustedFontAndLines (fixedWidth 10) ctx0 (str "abc") 5 1.4))
     = [ellipsis]
  /\ ~ lastLineFits (fixedWidth 10) ctx0 (str "abc") 5 1.4.
Proof.
  repeat split; try reflexivity; try discriminate.
  unfold lastLineFits. vm_compute. intros H.
  apply (H [8230%N] eq_refl). reflexivity.
Qed.

(** ** Monotonicity *)

(** Two runs of the wrap loop over the same text, the second with the wider
    box: the second never has more closed lines, and when it has as many,
    its current line starts no earlier. *)
Lemma wrapLoop_wider (measureText : Font -> list N -> Q) (ctx : Context2D)
    (w1 w2 : Q) :
  (forall s t, measureText (font ctx) t <= measureText (font ctx) (s ++ t)) ->
  w1 <= w2 ->
  forall chars ls1 cur1 ls2 cur2 ls1' cur1' ls2' cur2',
    wrapLoop measureText ctx w1 chars ls1 cur1 = (ls1', cur1') ->
    wrapLoop measureText ctx w2 chars ls2 cur2 = (ls2', cur2') ->
    (length ls2 < length ls1)%nat
    \/ (length ls2 = length ls1 /\ exists p, cur1 = p ++ cur2) ->
    (length ls2' < length ls1')%nat
    \/ (length ls2' = length ls1' /\ exists p, cur1' = p ++ cur2').
Proof.
  intros Hmono Hw.
  induction chars as [|ch rest IH];
    intros ls1 cur1 ls2 cur2 ls1' cur1' ls2' cur2' H1 H2 Hinv; simpl in H1, H2.
  - inversion H1; inversion H2; subst. exact Hinv.
  - destruct (Qgt_bool (measureWidth measureText ctx (cur1 ++ [ch])) w1
              && (0 <? length cur1)%nat) eqn:E1;
    destruct (Qgt_bool (measureWidth measureText ctx (cur2 ++ [ch])) w2
              && (0 <? length cur2)%nat) eqn:E2.
    + apply (IH _ _ _ _ _ _ _ _ H1 H2).
      rewrite !length_app. simpl.
      destruct Hinv as [Hlt|[Heq _]]; [left; lia|right].
      split; [lia|]. exists []. reflexivity.
    + apply (IH _ _ _ _ _ _ _ _ H1 H2).
      rewrite !length_app. simpl.
      left. destruct Hinv as [Hlt|[Heq _]]; lia.
    + apply (IH _ _ _ _ _ _ _ _ H1 H2).
      rewrite !length_app. simpl.
      destruct Hinv as [Hlt|[Heq [p Hp]]].
      * destruct (Nat.eq_dec (length ls2 + 1)%nat (length ls1)) as [Heq|Hne];
          [right|left; lia].
        split; [exact Heq|]. exists cur1. reflexivity.
      * exfalso.
        apply andb_true_iff in E2 as [Hwide Hpos].
        apply Qgt_bool_true in Hwide. apply Nat.ltb_lt in Hpos.
        unfold measureWidth in Hwide.
        pose proof (Hmono p (cur2 ++ [ch])) as Hm.
        rewrite app_assoc, <- Hp in Hm.
        apply andb_false_iff in E1 as [Hfit|Hempty].
        -- apply Qgt_bool_false in Hfit. unfold measureWidth in Hfit. lra.
        -- apply Nat.ltb_ge in Hempty. subst cur1.
           rewrite length_app in Hempty. lia.
    + apply (IH _ _ _ _ _ _ _ _ H1 H2).
      destruct Hinv as [Hlt|[Heq [p Hp]]]; [left; exact Hlt|right].
      split; [exact Heq|]. exists p. rewrite Hp, app_assoc. reflexivity.
Qed.

Lemma wrapText_wider (measureText : Font -> list N -> Q) (ctx : Context2D)
    (w1 w2 : Q) (text : list N) :
  (forall s t, measureText (font ctx) t <= measureText (font ctx) (s ++ t)) ->
  w1 <= w2 ->
  (length (wrapText measureText ctx w2 text)
   <= length (wrapText measureText ctx w1 text))%nat.
Proof.
  intros Hmono Hw. unfold wrapText.
  destruct (wrapLoop measureText ctx w1 text [] []) as [ls1 cur1] eqn:E1.
  destruct (wrapLoop measureText ctx w2 text [] []) as [ls2 cur2] eqn:E2.
  pose proof (wrapLoop_wider measureText ctx w1 w2 Hmono Hw
                text [] [] [] [] ls1 cur1 ls2 cur2 E1 E2) as Hinv.
  rewrite !length_app. simpl.
  destruct Hinv as [Hlt|[Heq _]]; [|lia|lia].
  right. split; [reflexivity|]. exists []. reflexivity.
Qed.

Lemma fallback_lineHeight (measureText : Font -> list N -> Q)
    (ctx : Context2D) (text : list N) (maxWidth maxHeight : Q) :
  minLineHeight <= maxHeight ->
  lineHeight (fst (fallback measureText ctx text maxWidth maxHeight))
  = minLineHeight.
Proof.
  intros Hok.
  destruct (Z_lt_le_dec (wholeLines maxHeight)
              (Z.of_nat (length (linesAt measureText text maxWidth minFontSize))))
    as [Hmore|Hall].
  - destruct (fallback_truncated measureText text maxWidth maxHeight ctx Hok Hmore)
      as (lastLine & _ & ->). reflexivity.
  - rewrite (fallback_whole measureText text maxWidth maxHeight ctx Hok Hall).
    reflexivity.
Qed.

Lemma fit_lineHeight_nonneg (measureText : Font -> list N -> Q)
    (ctx : Context2D) (text : list N) (maxWidth maxHeight : Q) :
  0 <= lineHeight
         (fst (getAdjustedFontAndLines measureText ctx text maxWidth maxHeight)).
Proof.
  destruct (fit_cases text maxWidth maxHeight) as [Hg|(Hb & Hw & Hh)].
  - rewrite fit_guard by exact Hg. simpl. lra.
  - rewrite fit_search by assumption.
    destruct (searchLoop measureText text maxWidth maxHeight
                (Z.to_nat (Qfloor maxHeight)) ctx) as [[result|] ctx'] eqn:E.
    + apply searchLoop_some in E.
      destruct E as (k & (Hk & _) & _ & _ & Hlh). simpl fst. rewrite Hlh.
      assert (Hk0 : inject_Z 0 <= inject_Z (Z.of_nat k)) by (rewrite <- Zle_Qle; lia).
      set (q := inject_Z (Z.of_nat k)) in *. change (inject_Z 0) with 0 in Hk0.
      lra.
    + destruct (Qlt_le_dec maxHeight minLineHeight) as [Hlow|Hok].
      * rewrite fallback_too_low by exact Hlow. simpl. lra.
      * rewrite fallback_lineHeight by exact Hok. discriminate.
Qed.

(** If every candidate that fits the first box also fits the second, and
    the second box is no smaller, its line height is no smaller. *)
Lemma fit_dominates (measureText : Font -> list N -> Q)
    (ctx : Context2D) (text : list N) (w1 h1 w2 h2 : Q) :
  w1 <= w2 -> h1 <= h2 ->
  (forall c : Z, (1 <= c)%Z ->
     fitsHeight measureText text w1 h1 c -> fitsHeight measureText text w2 h2 c) ->
  lineHeight (fst (getAdjustedFontAndLines measureText ctx text w1 h1))
  <= lineHeight (fst (getAdjustedFontAndLines measureText ctx text w2 h2)).
Proof.
  intros Hw Hh Htransfer.
  destruct (fit_cases text w1 h1) as [Hg|(Hb & Hw1 & Hh1)].
  - rewrite (fit_guard measureText ctx text w1 h1 Hg). simpl lineHeight.
    apply fit_lineHeight_nonneg.
  - assert (Hw2 : 0 < w2) by lra. assert (Hh2 : 0 < h2) by lra.
    rewrite (fit_search measureText ctx text w1 h1) by assumption.
    rewrite (fit_search measureText ctx text w2 h2) by assumption.
    pose proof (Qfloor_resp_le h1 h2 Hh) as Hfloor.
    destruct (searchLoop measureText text w1 h1 (Z.to_nat (Qfloor h1)) ctx)
      as [[r1|] c1] eqn:E1.
    + apply searchLoop_some in E1.
      destruct E1 as (k1 & (Hk1 & Hfit1 & _) & _ & _ & Hlh1).
      apply Htransfer in Hfit1; [|lia].
      destruct (searchLoop_found measureText text w2 h2
                  (Z.to_nat (Qfloor h2)) k1 ctx ltac:(lia) Hfit1)
        as (r2 & c2 & E2).
      rewrite E2. apply searchLoop_some in E2.
      destruct E2 as (k2 & (Hk2 & _ & Hmax2) & _ & _ & Hlh2).
      simpl fst. rewrite Hlh1, Hlh2.
      assert (Hle : (k1 <= k2)%nat).
      { destruct (le_lt_dec k1 k2) as [Hle|Hgt]; [exact Hle|].
        exfalso. apply (Hmax2 k1); [lia|exact Hfit1]. }
      apply Qmult_le_compat_r; [|discriminate].
      rewrite <- Zle_Qle. lia.
    + destruct (Qlt_le_dec h1 minLineHeight) as [Hlow|Hok].
      * rewrite fallback_too_low by exact Hlow. simpl lineHeight.
        pose proof (fit_lineHeight_nonneg measureText ctx text w2 h2) as Hnn.
        rewrite (fit_search measureText ctx text w2 h2) in Hnn by assumption.
        exact Hnn.
      * rewrite fallback_lineHeight by exact Hok.
        destruct (searchLoop measureText text w2 h2 (Z.to_nat (Qfloor h2)) ctx)
          as [[r2|] c2] eqn:E2.
        -- apply searchLoop_some in E2.
           destruct E2 as (k2 & (Hk2 & _) & _ & _ & Hlh2).
           simpl fst. rewrite Hlh2. unfold minLineHeight, minFontSize.
           apply Qmult_le_compat_r; [|discriminate].
           rewrite <- Zle_Qle. lia.
        -- rewrite fallback_lineHeight by lra. apply Qle_refl.
Qed.

Lemma chosenFontSize_le (r1 r2 : FitResult) :
  lineHeight r1 <= lineHeight r2 -> chosenFontSize r1 <= chosenFontSize r2.
Proof.
  intros H. unfold chosenFontSize, Qdiv.
  apply Qmult_le_compat_r; [exact H|discriminate].
Qed.

(** C3 (as amended). For every text and every measure, a taller box of
    the same width never gets a smaller font size.  A wider box of the same
    height never gets a smaller font size provided the measure never makes
    a string narrower than one of its suffixes. *)
Theorem chosen_font_size_monotone (measureText : Font -> list N -> Q)
    (ctx : Context2D) (text : list N) :
  (forall maxWidth : Q, heightMonotone measureText ctx text maxWidth)
  /\ (suffixMonotone measureText ->
      forall maxHeight : Q, widthMonotone measureText ctx text maxHeight).
Proof.
  split.
  - intros maxWidth h1 h2 Hh. unfold fontSizeFor.
    apply chosenFontSize_le. apply fit_dominates; [apply Qle_refl|exact Hh|].
    intros c _ Hfit. unfold fitsHeight in *. lra.
  - intros Hmono maxHeight w1 w2 Hw. unfold fontSizeFor.
    apply chosenFontSize_le. apply fit_dominates; [exact Hw|apply Qle_refl|].
    intros c Hc Hfit. unfold fitsHeight in *.
    apply Qle_trans with (2 := Hfit).
    apply Qmult_le_compat_r.
    + apply ofNat_le. unfold linesAt. apply wrapText_wider; [|exact Hw].
      intros s t. simpl font. apply Hmono. unfold minFontSize. exact Hc.
    + assert (Hc0 : inject_Z 0 <= inject_Z c) by (rewrite <- Zle_Qle; lia).
      set (q := inject_Z c) in *. change (inject_Z 0) with 0 in Hc0. lra.
Qed.

Lemma fixedWidth_suffixMonotone (w : Q) : 0 <= w -> suffixMonotone (fixedWidth w).
Proof.
  intros Hw fontSize s t Hf. unfold fixedWidth, minFontSize in *.
  rewrite (Qmult_comm _ (ofNat (length t))).
  rewrite (Qmult_comm _ (ofNat (length (s ++ t)))).
  apply Qmult_le_compat_r.
  - apply ofNat_le. rewrite length_app. lia.
  - assert (Hc0 : inject_Z 0 <= inject_Z fontSize) by (rewrite <- Zle_Qle; lia).
    set (q := inject_Z fontSize) in *. change (inject_Z 0) with 0 in Hc0.
    apply Qmult_le_0_compat; assumption.
Qed.

Lemma chosen_font_size_monotone_witness :
  fontSizeFor (fixedWidth 1) ctx0 (str "hello world") 20 5
  <= fontSizeFor (fixedWidth 1) ctx0 (str "hello world") 20 10
  /\ fontSizeFor (fixedWidth 1) ctx0 (str "hello world") 10 10
     <= fontSizeFor (fixedWidth 1) ctx0 (str "hello world") 20 10.
Proof.
  split.
  - apply (proj1 (chosen_font_size_monotone (fixedWidth 1) ctx0 (str "hello world"))).
    discriminate.
  - apply (proj2 (chosen_font_size_monotone (fixedWidth 1) ctx0 (str "hello world"))).
    + apply fixedWidth_suffixMonotone. discriminate.
    + discriminate.
Defined.

(** C3 (as stated) fails for the width: under [crampedMeasure], ["abcd"]
    in a box 6 high wraps into 2 lines at width 2 and is given font size 2,
    but wraps into 3 lines at width 4 and is given font size 1. *)
Lemma wider_box_smaller_font :
  lines (fst (getAdjustedFontAndLines crampedMeasure ctx0 (str "abcd") 2 6))
  = [str "a"; str "bcd"]
  /\ fontSizeFor crampedMeasure ctx0 (str "abcd") 2 6 == 2
  /\ lines (fst (getAdjustedFontAndLines crampedMeasure ctx0 (str "abcd") 4 6))
     = [str "ab"; str "c"; str "d"]
  /\ fontSizeFor crampedMeasure ctx0 (str "abcd") 4 6 == 1
  /\ ~ widthMonotone crampedMeasure ctx0 (str "abcd") 6.
Proof.
  repeat split; try reflexivity.
  intros H. specialize (H 2 4 ltac:(discriminate)).
  vm_compute in H. apply H. reflexivity.
Qed.

(** ** The date cell and the caller's array *)





(** The copy is a new array; the original is left as it was. *)
Lemma prepareTexts_spec (h : gmap nat (list (list N))) (texts : nat)
    (arr : list (list N)) :
  h !! texts = Some arr ->
  exists textsToDraw,
    textsToDraw <> texts
    /\ h !! textsToDraw = None
    /\ prepareTexts h texts
       = (textsToDraw,
          <[textsToDraw :=
              match arr !! 7%nat with
              | Some s => if isIsoDate s then <[7%nat := localizeDate s]> arr else arr
              | None => arr
              end]> h).
Proof.
  intros Hin. exists (fresh (dom h)).
  assert (Hfresh : h !! fresh (dom h) = None).
  { apply not_elem_of_dom. apply is_fresh. }
  split; [|split; [exact Hfresh|]].
  - intros Heq. rewrite Heq in Hfresh. congruence.
  - unfold prepareTexts, allocArray, writeArray, readArray.
    rewrite Hin. simpl default. rewrite lookup_insert_eq. simpl default.
    destruct (arr !! 7%nat) as [s|] eqn:E7; [|reflexivity].
    destruct (isIsoDate s) eqn:Eiso.
    + assert (Hne : isEmptyString s = false) by (destruct s; [discriminate|reflexivity]).
      rewrite Hne. simpl. rewrite insert_insert_eq. reflexivity.
    + rewrite andb_false_r. reflexivity.
Qed.



(** The two cases named in the specification. *)
Example date_reformatting_iso :
  isIsoDate (str "2024-03-05") = true
  /\ localizeDate (str "2024-03-05")
     = str "2024" ++ nen ++ str "03" ++ gatsu ++ str "05" ++ nichi.
Proof. split; reflexivity. Qed.

Example date_reformatting_other :
  isIsoDate (str "not-a-date") = false.
Proof. reflexivity. Qed.

(** ** Grid geometry *)

Lemma grid_geometry_exact (boardWidth boardHeight : Q) :
  let g := geometry boardWidth boardHeight in
  gridWidth g == boardWidth - 2 * borderPadding g
  /\ gridHeight g == boardHeight - 2 * borderPadding g
  /\ length (colWidths g) = 2%nat
  /\ colWidth g 0 == 0.3 * gridWidth g
  /\ colWidth g 1 == 0.7 * gridWidth g
  /\ colWidth g 0 + colWidth g 1 == gridWidth g
  /\ 7 * colWidth g 0 == 3 * colWidth g 1
  /\ cellHeight g * 5 == gridHeight g.
Proof.
  cbv zeta. unfold colWidth. simpl.
  repeat split; try reflexivity; try ring.
  change (ofNat NUM_ROWS) with 5. field.
Qed.

(** C7 (as amended). With the arithmetic carried out exactly, for every
    board: the grid is the board less the border padding on each side; the
    two columns are 0.3 and 0.7 of the grid width, so they add up to it and
    stand in the ratio 3 : 7; and five cell heights make the grid height.
    On doubles the three derived equalities are exact for the board of
    1000 by 800. *)
Theorem grid_identities :
  (forall boardWidth boardHeight : Q,
     let g := geometry boardWidth boardHeight in
     gridWidth g == boardWidth - 2 * borderPadding g
     /\ gridHeight g == boardHeight - 2 * borderPadding g
     /\ length (colWidths g) = 2%nat
     /\ colWidth g 0 == 0.3 * gridWidth g
     /\ colWidth g 1 == 0.7 * gridWidth g
     /\ colWidth g 0 + colWidth g 1 == gridWidth g
     /\ 7 * colWidth g 0 == 3 * colWidth g 1
     /\ cellHeight g * 5 == gridHeight g)
  /\ Binary64.gridIdentities (Binary64.ofZ 1000) (Binary64.ofZ 800) = true.
Proof.
  split; [exact grid_geometry_exact|]. vm_compute. reflexivity.
Qed.

(** C7 (as stated) fails on doubles.  For a board of 333 by 250 the grid
    height is 233.35 and the cell height 46.67, and 46.67 * 5 is
    233.35000000000002, one unit in the last place above the grid height. *)
Lemma five_cells_round_off :
  Binary64.fiveCellsFillGrid
    (Binary64.geometry (Binary64.ofZ 333) (Binary64.ofZ 250)) = false.
Proof. vm_compute. reflexivity. Qed.

(** The ratio of the columns is not kept either, for a board 375 wide. *)
Example columns_round_off :
  Binary64.columnsThreeToSeven
    (Binary64.geometry (Binary64.ofZ 375) (Binary64.ofZ 667)) = false.
Proof. vm_compute. reflexivity. Qed.

(** The example of the specification, a board 1000 by 800. *)
Example grid_geometry_1000_800 :
  let g := geometry 1000 800 in
  gridWidth g == 950 /\ gridHeight g == 750
  /\ colWidth g 0 == 285 /\ colWidth g 1 == 665 /\ cellHeight g == 150.
Proof. repeat split. Qed.

(** ** Scaling *)

Lemma colWidth_scales (k boardWidth boardHeight : Q) (col : nat) :
  colWidth (geometry (k * boardWidth) (k * boardHeight)) col
  == k * colWidth (geometry boardWidth boardHeight) col.
Proof.
  unfold colWidth. destruct col as [|[|col]]; simpl; ring.
Qed.

(** Every length of the layout is the same multiple of the board size:
    scaling the board by [k] scales it by [k]. *)
Lemma geometry_scales (k boardWidth boardHeight : Q) :
  let g := geometry boardWidth boardHeight in
  let g' := geometry (k * boardWidth) (k * boardHeight) in
  borderPadding g' == k * borderPadding g
  /\ textPadding g' == k * textPadding g
  /\ gridWidth g' == k * gridWidth g
  /\ gridHeight g' == k * gridHeight g
  /\ cellHeight g' == k * cellHeight g
  /\ effectiveCellHeight g' == k * effectiveCellHeight g
  /\ (forall col, colWidth g' col == k * colWidth g col)
  /\ (forall col, effectiveCellWidth g' col == k * effectiveCellWidth g col)
  /\ (forall col, cellLeftX g' col == k * cellLeftX g col)
  /\ (forall row, cellTopY g' row == k * cellTopY g row).
Proof.
  cbv zeta.
  assert (Hcol := colWidth_scales k boardWidth boardHeight).
  repeat split; try (simpl; change (ofNat NUM_ROWS) with 5; field).
  - exact Hcol.
  - intros col. unfold effectiveCellWidth. rewrite Hcol. simpl. ring.
  - intros col. unfold cellLeftX.
    destruct (col =? 0)%nat; [|rewrite Hcol]; simpl; ring.
  - intros row. unfold cellTopY. simpl. change (ofNat NUM_ROWS) with 5. field.
Qed.

Lemma ratio_scales (k a b : Q) :
  ~ k == 0 -> ~ b == 0 -> (k * a) / (k * b) == a / b.
Proof. intros Hk Hb. field. split; assumption. Qed.

(** C8 (as amended). The paddings are the fractions 0.025 and 0.015 of
    the board width.  With the arithmetic carried out exactly, scaling the
    width and the height of a board by the same positive factor leaves every
    proportion of the layout as it was: the ratio of the two column widths,
    the ratios of the paddings to the board width, and the position and size
    of every cell box relative to the board. *)
Theorem layout_scale_invariant (k boardWidth boardHeight : Q) :
  0 < k -> 0 < boardWidth -> 0 < boardHeight ->
  let g := geometry boardWidth boardHeight in
  let g' := geometry (k * boardWidth) (k * boardHeight) in
  borderPadding g == boardWidth * 0.025
  /\ textPadding g == boardWidth * 0.015
  /\ colWidth g' 0 / colWidth g' 1 == colWidth g 0 / colWidth g 1
  /\ borderPadding g' / (k * boardWidth) == borderPadding g / boardWidth
  /\ textPadding g' / (k * boardWidth) == textPadding g / boardWidth
  /\ (forall col,
        cellLeftX g' col / (k * boardWidth) == cellLeftX g col / boardWidth
        /\ colWidth g' col / (k * boardWidth) == colWidth g col / boardWidth
        /\ effectiveCellWidth g' col / (k * boardWidth)
           == effectiveCellWidth g col / boardWidth)
  /\ (forall row,
        cellTopY g' row / (k * boardHeight) == cellTopY g row / boardHeight)
  /\ cellHeight g' / (k * boardHeight) == cellHeight g / boardHeight
  /\ effectiveCellHeight g' / (k * boardHeight)
     == effectiveCellHeight g / boardHeight.
Proof.
  intros Hk Hw Hh. cbv zeta.
  destruct (geometry_scales k boardWidth boardHeight)
    as (Hbp & Htp & _ & _ & Hch & Hech & Hcol & Hecw & Hclx & Hcty).
  assert (Hk0 : ~ k == 0) by lra.
  assert (Hw0 : ~ boardWidth == 0) by lra.
  assert (Hh0 : ~ boardHeight == 0) by lra.
  split; [reflexivity|]. split; [reflexivity|].
  split.
  { rewrite !Hcol. apply ratio_scales; [exact Hk0|].
    unfold colWidth. simpl. lra. }
  split; [rewrite Hbp; apply ratio_scales; assumption|].
  split; [rewrite Htp; apply ratio_scales; assumption|].
  split.
  { intros col. rewrite Hclx, Hcol, Hecw.
    repeat split; apply ratio_scales; assumption. }
  split; [intros row; rewrite Hcty; apply ratio_scales; assumption|].
  split; [rewrite Hch; apply ratio_scales; assumption|].
  rewrite Hech. apply ratio_scales; assumption.
Qed.

Lemma layout_scale_invariant_witness :
  let g := geometry 1000 800 in
  let g' := geometry (2 * 1000) (2 * 800) in
  borderPadding g == 1000 * 0.025
  /\ textPadding g == 1000 * 0.015
  /\ colWidth g' 0 / colWidth g' 1 == colWidth g 0 / colWidth g 1
  /\ borderPadding g' / (2 * 1000) == borderPadding g / 1000
  /\ textPadding g' / (2 * 1000) == textPadding g / 1000
  /\ (forall col,
        cellLeftX g' col / (2 * 1000) == cellLeftX g col / 1000
        /\ colWidth g' col / (2 * 1000) == colWidth g col / 1000
        /\ effectiveCellWidth g' col / (2 * 1000)
           == effectiveCellWidth g col / 1000)
  /\ (forall row,
        cellTopY g' row / (2 * 800) == cellTopY g row / 800)
  /\ cellHeight g' / (2 * 800) == cellHeight g / 800
  /\ effectiveCellHeight g' / (2 * 800)
     == effectiveCellHeight g / 800.
Proof.
  exact (layout_scale_invariant 2 1000 800 eq_refl eq_refl eq_refl).
Defined.

(** C8 (as stated) fails on doubles.  Tripling the board of 1000 by 800
    changes the ratio of the column widths in the last place: the second
    column of the tripled board is 1994.9999999999998 wide, not 1995. *)
Lemma tripled_board_proportions_differ :
  Binary64.sameProportions (Binary64.ofZ 1000) (Binary64.ofZ 800) (Binary64.ofZ 3)
  = false.
Proof. vm_compute. reflexivity. Qed.

(** Doubling, the case the specification tests, is exact on doubles for
    that board. *)
Example doubled_board_proportions_agree :
  Binary64.sameProportions (Binary64.ofZ 1000) (Binary64.ofZ 800) (Binary64.ofZ 2)
  = true.
Proof. vm_compute. reflexivity. Qed.

(** * Further properties of the fitter and the compositor *)

(** ** What the fitter does to the context *)

Lemma searchLoop_calls (measureText : Font -> list N -> Q) (text : list N)
    (maxWidth maxHeight : Q) (n : nat) :
  forall ctx,
    calls (snd (searchLoop measureText text maxWidth maxHeight n ctx)) = calls ctx.
Proof.
  induction n as [|k IH]; intros ctx; [reflexivity|].
  rewrite searchLoop_S. cbv zeta.
  destruct (Qgt_bool _ _); [rewrite IH; reflexivity|].
  destruct (Qle_bool _ _); [reflexivity|rewrite IH; reflexivity].
Qed.

Lemma fallback_context (measureText : Font -> list N -> Q) (ctx : Context2D)
    (text : list N) (maxWidth maxHeight : Q) :
  snd (fallback measureText ctx text maxWidth maxHeight) = fallbackContext ctx.
Proof.
  unfold fallback. cbv zeta.
  destruct (Qgt_bool _ _); [reflexivity|].
  destruct (_ && _); reflexivity.
Qed.

Lemma fit_context (measureText : Font -> list N -> Q) (ctx : Context2D)
    (text : list N) (maxWidth maxHeight : Q) :
  getAdjustedFontAndLines measureText ctx text maxWidth maxHeight
  = (emptyResult, ctx)
  \/ exists fontSize : Z,
       (minFontSize <= fontSize <= Z.max minFontSize (Qfloor maxHeight))%Z
       /\ snd (getAdjustedFontAndLines measureText ctx text maxWidth maxHeight)
          = setFont (NotoSerifJP900 fontSize) ctx
       /\ (lines (fst (getAdjustedFontAndLines measureText ctx text
                                               maxWidth maxHeight)) <> [] ->
           lineHeight (fst (getAdjustedFontAndLines measureText ctx text
                                                    maxWidth maxHeight))
           = inject_Z fontSize * 1.4).
Proof.
  destruct (fit_cases text maxWidth maxHeight) as [Hg|(Hb & Hw & Hh)].
  - left. apply fit_guard. exact Hg.
  - right. rewrite fit_search by assumption.
    pose proof (searchLoop_calls measureText text maxWidth maxHeight
                  (Z.to_nat (Qfloor maxHeight)) ctx) as Hcalls.
    destruct (searchLoop measureText text maxWidth maxHeight
                (Z.to_nat (Qfloor maxHeight)) ctx) as [[result|] ctx'] eqn:E.
    + apply searchLoop_some in E.
      destruct E as (k & (Hk & _) & -> & _ & Hlh).
      exists (Z.of_nat k). unfold minFontSize. simpl fst. simpl snd.
      split; [lia|]. split; [reflexivity|]. intros _. exact Hlh.
    + simpl in Hcalls. exists minFontSize. split; [unfold minFontSize; lia|].
      rewrite fallback_context. split.
      * unfold fallbackContext, setFont. rewrite Hcalls. reflexivity.
      * intros Hne.
        destruct (Qlt_le_dec maxHeight minLineHeight) as [Hlow|Hok].
        -- rewrite fallback_too_low in Hne by exact Hlow. contradiction.
        -- apply fallback_lineHeight. exact Hok.
Qed.

(** X1. The fitter never draws, and the only thing it changes in the
    context is the font.  Either it returns the empty result and leaves the
    font alone, or it leaves the 900-weight Noto Serif JP font at a size
    between the minimum and [floor(maxHeight)] (the minimum when that is
    smaller), and the line height of a result with lines is 1.4 times that
    size: the font the caller draws with is the font the result was
    measured at. *)
Theorem fit_only_sets_font (measureText : Font -> list N -> Q)
    (ctx : Context2D) (text : list N) (maxWidth maxHeight : Q) :
  let fit := getAdjustedFontAndLines measureText ctx text maxWidth maxHeight in
  calls (snd fit) = calls ctx
  /\ ((fst fit = emptyResult /\ font (snd fit) = font ctx)
      \/ exists fontSize : Z,
           (minFontSize <= fontSize <= Z.max minFontSize (Qfloor maxHeight))%Z
           /\ font (snd fit) = NotoSerifJP900 fontSize
           /\ (lines (fst fit) <> [] ->
               lineHeight (fst fit) = inject_Z fontSize * 1.4)).
Proof.
  cbv zeta.
  destruct (fit_context measureText ctx text maxWidth maxHeight)
    as [E|(fontSize & Hrange & Hctx & Hlh)].
  - rewrite E. split; [reflexivity|]. left. split; reflexivity.
  - split; [rewrite Hctx; reflexivity|]. right.
    exists fontSize. split; [exact Hrange|]. split; [rewrite Hctx; reflexivity|].
    exact Hlh.
Qed.

(** ** Where a cell's text is drawn *)

Lemma fit_block_height (measureText : Font -> list N -> Q)
    (ctx : Context2D) (text : list N) (maxWidth maxHeight : Q) :
  0 <= maxHeight ->
  ofNat (length (lines (fst (getAdjustedFontAndLines measureText ctx text
                                                     maxWidth maxHeight))))
  * lineHeight (fst (getAdjustedFontAndLines measureText ctx text
                                             maxWidth maxHeight))
  <= maxHeight.
Proof.
  intros Hnn.
  destruct (fit_cases text maxWidth maxHeight) as [Hg|(Hb & Hw & Hh)].
  - rewrite fit_guard by exact Hg. simpl. lra.
  - rewrite fit_search by assumption.
    destruct (searchLoop measureText text maxWidth maxHeight
                (Z.to_nat (Qfloor maxHeight)) ctx) as [[result|] ctx'] eqn:E.
    + apply searchLoop_some in E.
      destruct E as (k & (_ & Hfit & _) & _ & Hl & Hlh). simpl fst.
      rewrite Hl, Hlh. exact Hfit.
    + apply fallback_height. exact Hnn.
Qed.

Lemma fit_lines_need_height (measureText : Font -> list N -> Q)
    (ctx : Context2D) (text : list N) (maxWidth maxHeight : Q) :
  lines (fst (getAdjustedFontAndLines measureText ctx text maxWidth maxHeight))
  <> [] ->
  0 < maxHeight.
Proof.
  intros Hne.
  destruct (fit_cases text maxWidth maxHeight) as [Hg|(_ & _ & Hh)]; [|exact Hh].
  rewrite fit_guard in Hne by exact Hg. contradiction.
Qed.

Lemma drawLines_calls (ls : list (list N)) (textStartX lineHeight : Q) :
  forall (textStartY : Q) (context : Context2D),
    calls (drawLines ls textStartX textStartY lineHeight context)
    = calls context
      ++ lineCalls (font context) textStartX textStartY lineHeight ls.
Proof.
  induction ls as [|line rest IH]; intros textStartY context; simpl.
  - rewrite app_nil_r. reflexivity.
  - rewrite IH. simpl. rewrite <- app_assoc. reflexivity.
Qed.

Lemma drawnTexts_lineCalls (f : Font) (textStartX lineHeight : Q)
    (ls : list (list N)) :
  forall textStartY : Q,
    drawnTexts (lineCalls f textStartX textStartY lineHeight ls) = ls.
Proof.
  induction ls as [|line rest IH]; intros textStartY; [reflexivity|].
  unfold drawnTexts in *. simpl. rewrite IH. reflexivity.
Qed.

(** Lines stacked from a first baseline stay in a band when the first one
    starts in it and the last one ends in it. *)
Lemma lineCalls_in_band (g : Geometry) (row col : nat) (fontSize : Z)
    (textStartX : Q) (ls : list (list N)) :
  (minFontSize <= fontSize)%Z ->
  textStartX == cellLeftX g col + colWidth g col / 2 ->
  forall textStartY : Q,
    cellTopY g row + textPadding g <= textStartY - inject_Z fontSize * 1.4 / 2 ->
    textStartY + ofNat (length ls) * (inject_Z fontSize * 1.4)
    - inject_Z fontSize * 1.4 / 2
    <= cellTopY g row + cellHeight g - textPadding g ->
    Forall (lineInsideCell g row col)
           (lineCalls (NotoSerifJP900 fontSize) textStartX textStartY
                      (inject_Z fontSize * 1.4) ls).
Proof.
  intros Hmin Hx.
  assert (Hpos : 0 <= inject_Z fontSize * 1.4).
  { assert (H1 : inject_Z 1 <= inject_Z fontSize)
      by (rewrite <- Zle_Qle; unfold minFontSize in Hmin; lia).
    change (inject_Z 1) with 1 in H1. set (q := inject_Z fontSize) in *. lra. }
  remember (inject_Z fontSize * 1.4) as lh eqn:Elh.
  induction ls as [|line rest IH]; intros textStartY Hlo Hhi; simpl.
  - constructor.
  - assert (Hlen : ofNat (length (line :: rest)) == ofNat (length rest) + 1).
    { unfold ofNat. simpl length. rewrite Nat2Z.inj_succ, <- Z.add_1_r.
      rewrite inject_Z_plus. reflexivity. }
    rewrite Hlen in Hhi.
    assert (Hrest : 0 <= ofNat (length rest)).
    { unfold ofNat. change 0 with (inject_Z 0). rewrite <- Zle_Qle. lia. }
    assert (Hprod : 0 <= ofNat (length rest) * lh)
      by (apply Qmult_le_0_compat; assumption).
    assert (Hexp : (ofNat (length rest) + 1) * lh
                   == ofNat (length rest) * lh + lh) by ring.
    rewrite Hexp in Hhi.
    unfold Qdiv in *. change (/ 2) with (1 # 2) in *.
    set (p := ofNat (length rest) * lh) in *.
    constructor.
    + simpl. rewrite <- Elh. unfold Qdiv. change (/ 2) with (1 # 2).
      repeat split; [exact Hmin|exact Hx|exact Hlo|].
      lra.
    + apply IH; lra.
Qed.

Lemma fit_lines_withinWidth (measureText : Font -> list N -> Q)
    (ctx : Context2D) (text : list N) (maxWidth maxHeight : Q) :
  Forall (withinWidth measureText
            (font (snd (getAdjustedFontAndLines measureText ctx text
                                                maxWidth maxHeight)))
            maxWidth)
         (lines (fst (getAdjustedFontAndLines measureText ctx text
                                              maxWidth maxHeight))).
Proof.
  destruct (fit_cases text maxWidth maxHeight) as [Hg|(Hb & Hw & Hh)].
  - rewrite fit_guard by exact Hg. constructor.
  - rewrite fit_search by assumption.
    destruct (searchLoop measureText text maxWidth maxHeight
                (Z.to_nat (Qfloor maxHeight)) ctx) as [[result|] ctx'] eqn:E.
    + apply searchLoop_some in E.
      destruct E as (k & _ & -> & Hl & _). simpl fst. simpl snd.
      rewrite Hl. unfold linesAt.
      apply (wrapText_width measureText
               (setFont (NotoSerifJP900 (Z.of_nat k)) ctx0) maxWidth text).
    + apply fallback_lines_within_width.
Qed.

Lemma lineCalls_font (f : Font) (textStartX lineHeight : Q)
    (ls : list (list N)) :
  forall textStartY : Q,
    Forall (fun op => exists line x y, op = FillText f line x y)
           (lineCalls f textStartX textStartY lineHeight ls).
Proof.
  induction ls as [|line rest IH]; intros textStartY; simpl; constructor.
  - exists line, textStartX, textStartY. reflexivity.
  - apply IH.
Qed.

Lemma lineCalls_within_width (measureText : Font -> list N -> Q)
    (g : Geometry) (col : nat) (f : Font) (lineHeight : Q)
    (ls : list (list N)) :
  Forall (withinWidth measureText f (colWidth g col - textPadding g * 2)) ls ->
  forall textStartY : Q,
    Forall (lineWithinCellWidth measureText g col)
           (lineCalls f (cellLeftX g col + colWidth g col / 2) textStartY
                      lineHeight ls).
Proof.
  intros Hw. induction Hw as [|line rest Hline Hrest IH]; intros textStartY;
    simpl; constructor.
  - simpl. intros Hlen. specialize (Hline Hlen).
    unfold Qdiv. change (/ 2) with (1 # 2).
    set (m := measureText f line) in *. split; lra.
  - apply IH.
Qed.

(** X2. Whatever the board, the cell and the context, the cell loop's body
    only adds [fillText] calls: one for each line the fitter returned for
    the cell's text, in order, drawn in the font the fitter left.  With the
    arithmetic carried out exactly, every line is anchored at the middle of
    the cell's width, and the band of one line height around its baseline
    lies between the cell's top and bottom, each moved inwards by the text
    padding: text never crosses a row separator.  A line of two units or
    more, centred on its anchor, also lies between the cell's left and
    right edges moved inwards by the text padding. *)
Theorem cell_text_inside_cell (measureText : Font -> list N -> Q)
    (boardWidth boardHeight : Q) (textsToDraw : list (list N))
    (row col : nat) (context : Context2D) :
  let g := geometry boardWidth boardHeight in
  let fit :=
    getAdjustedFontAndLines measureText context
      (default [] (textsToDraw !! (row * NUM_COLS + col)%nat))
      (effectiveCellWidth g col) (effectiveCellHeight g) in
  exists added : list DrawOp,
    calls (drawCell measureText g textsToDraw row col context)
    = calls context ++ added
    /\ drawnTexts added = lines (fst fit)
    /\ Forall (fun op => exists line x y,
                 op = FillText (font (snd fit)) line x y) added
    /\ Forall (lineInsideCell g row col) added
    /\ Forall (lineWithinCellWidth measureText g col) added.
Proof.
  cbv zeta. set (g := geometry boardWidth boardHeight).
  set (text := default [] (textsToDraw !! (row * NUM_COLS + col)%nat)).
  unfold drawCell. fold text.
  pose proof (fit_context measureText context text
                (effectiveCellWidth g col) (effectiveCellHeight g)) as Hctx.
  pose proof (fit_block_height measureText context text
                (effectiveCellWidth g col) (effectiveCellHeight g)) as Hheight.
  pose proof (fit_lines_need_height measureText context text
                (effectiveCellWidth g col) (effectiveCellHeight g)) as Hneed.
  pose proof (fit_lines_withinWidth measureText context text
                (effectiveCellWidth g col) (effectiveCellHeight g)) as Hwidth.
  destruct (getAdjustedFontAndLines measureText context text
              (effectiveCellWidth g col) (effectiveCellHeight g))
    as [result context'] eqn:Efit.
  simpl fst in *. simpl snd in *.
  destruct (0 <? length (lines result))%nat eqn:Elen.
  - apply Nat.ltb_lt in Elen.
    assert (Hne : lines result <> [])
      by (intros E0; rewrite E0 in Elen; simpl in Elen; lia).
    destruct Hctx as [E0|(fontSize & Hrange & Hc & Hlh)].
    { inversion E0; subst. simpl in Elen. lia. }
    specialize (Hlh Hne). specialize (Hneed Hne).
    specialize (Hheight ltac:(lra)).
    rewrite drawLines_calls.
    exists (lineCalls (font context')
              (cellLeftX g col + colWidth g col / 2)
              (cellTopY g row + cellHeight g / 2
               - ofNat (length (lines result)) * lineHeight result / 2
               + lineHeight result / 2)
              (lineHeight result) (lines result)).
    split; [rewrite Hc at 1; reflexivity|].
    split; [apply drawnTexts_lineCalls|].
    split; [apply lineCalls_font|]. split.
    + rewrite Hc. simpl font. rewrite Hlh. rewrite Hlh in Hheight.
      change (effectiveCellHeight g) with (cellHeight g - textPadding g * 2)
        in Hheight.
      apply lineCalls_in_band; [lia|reflexivity| |];
        unfold Qdiv; change (/ 2) with (1 # 2);
        set (n := ofNat (length (lines result))) in *;
        set (lh := inject_Z fontSize * 1.4) in *;
        set (p := n * lh) in *; lra.
    + apply lineCalls_within_width. exact Hwidth.
  - exists []. rewrite app_nil_r. split.
    + destruct Hctx as [E0|(fontSize & _ & -> & _)]; [|reflexivity].
      inversion E0; reflexivity.
    + apply Nat.ltb_ge in Elen.
      destruct (lines result); [|simpl in Elen; lia].
      split; [reflexivity|]. repeat split; constructor.
Qed.

(** ** What the result depends on *)

Lemma searchLoop_any_context (measureText : Font -> list N -> Q)
    (text : list N) (maxWidth maxHeight : Q) (n : nat) :
  forall ctx1 ctx2,
    fst (searchLoop measureText text maxWidth maxHeight n ctx1)
    = fst (searchLoop measureText text maxWidth maxHeight n ctx2).
Proof.
  induction n as [|k IH]; intros ctx1 ctx2; [reflexivity|].
  rewrite !searchLoop_S. cbv zeta.
  destruct (Qgt_bool _ _); [apply IH|].
  rewrite (wrapText_font measureText
             (setFont (NotoSerifJP900 (Z.of_nat (S k))) ctx1)
             (setFont (NotoSerifJP900 (Z.of_nat (S k))) ctx2))
    by reflexivity.
  destruct (Qle_bool _ _); [reflexivity|apply IH].
Qed.

Lemma fallback_any_context (measureText : Font -> list N -> Q)
    (text : list N) (maxWidth maxHeight : Q) (ctx1 ctx2 : Context2D) :
  fst (fallback measureText ctx1 text maxWidth maxHeight)
  = fst (fallback measureText ctx2 text maxWidth maxHeight).
Proof.
  unfold fallback. cbv zeta.
  destruct (Qgt_bool _ _); [reflexivity|].
  rewrite (wrapText_font measureText
             (setFont (NotoSerifJP900 minFontSize) ctx1)
             (setFont (NotoSerifJP900 minFontSize) ctx2)) by reflexivity.
  destruct (_ && _); [|reflexivity]. simpl fst.
  unfold trimToFit.
  set (lastLine := default [] _).
  assert (Htrim : forall rounds s,
            trimLoop measureText (setFont (NotoSerifJP900 minFontSize) ctx1)
                     maxWidth rounds s
            = trimLoop measureText (setFont (NotoSerifJP900 minFontSize) ctx2)
                       maxWidth rounds s).
  { induction rounds as [|k IH]; intros s; [reflexivity|]. simpl.
    unfold measureWidth. simpl font. destruct (_ && _); [apply IH|reflexivity]. }
  rewrite Htrim. reflexivity.
Qed.

(** X3. The result of the fitter does not depend on the context it is
    given: whatever font the context holds and whatever has been drawn,
    the lines and the line height returned for a text and a box are the
    same.  Every candidate font is set before anything is measured, so a
    cell is fitted the same way whatever was fitted before it. *)
Theorem fit_result_ignores_context (measureText : Font -> list N -> Q)
    (ctx1 ctx2 : Context2D) (text : list N) (maxWidth maxHeight : Q) :
  fst (getAdjustedFontAndLines measureText ctx1 text maxWidth maxHeight)
  = fst (getAdjustedFontAndLines measureText ctx2 text maxWidth maxHeight).
Proof.
  destruct (fit_cases text maxWidth maxHeight) as [Hg|(Hb & Hw & Hh)].
  - rewrite !fit_guard by exact Hg. reflexivity.
  - rewrite !fit_search by assumption.
    pose proof (searchLoop_any_context measureText text maxWidth maxHeight
                  (Z.to_nat (Qfloor maxHeight)) ctx1 ctx2) as Hs.
    destruct (searchLoop measureText text maxWidth maxHeight
                (Z.to_nat (Qfloor maxHeight)) ctx1) as [[r1|] c1];
      destruct (searchLoop measureText text maxWidth maxHeight
                  (Z.to_nat (Qfloor maxHeight)) ctx2) as [[r2|] c2];
      simpl in Hs; try discriminate.
    + inversion Hs. reflexivity.
    + apply fallback_any_context.
Qed.

(** ** What the returned lines spell *)

(** X4. On every return path the returned lines, joined in order, spell
    nothing at all, or the text itself, or a part of the text from its
    start followed by the ellipsis, the rest of the text being left out and
    not empty.  No unit of the text is reordered or repeated, and the
    ellipsis is the only unit that is ever added. *)
Theorem fit_lines_spell_text (measureText : Font -> list N -> Q)
    (ctx : Context2D) (text : list N) (maxWidth maxHeight : Q) :
  let result :=
    fst (getAdjustedFontAndLines measureText ctx text maxWidth maxHeight) in
  lines result = []
  \/ concat (lines result) = text
  \/ exists kept dropped : list N,
       dropped <> []
       /\ text = kept ++ dropped
       /\ concat (lines result) = kept ++ ellipsis.
Proof.
  cbv zeta.
  destruct (fit_cases text maxWidth maxHeight) as [Hg|(Hb & Hw & Hh)].
  { left. rewrite fit_guard by exact Hg. reflexivity. }
  rewrite fit_search by assumption.
  destruct (searchLoop measureText text maxWidth maxHeight
              (Z.to_nat (Qfloor maxHeight)) ctx) as [[result|] ctx'] eqn:E.
  { right. left. apply searchLoop_some in E.
    destruct E as (k & _ & _ & Hl & _). simpl fst. rewrite Hl.
    apply wrapText_concat. }
  destruct (Qlt_le_dec maxHeight minLineHeight) as [Hlow|Hok].
  { left. rewrite fallback_too_low by exact Hlow. reflexivity. }
  set (wrapped := linesAt measureText text maxWidth minFontSize).
  assert (Hconcat : concat wrapped = text) by apply wrapText_concat.
  assert (Hnonempty : Forall (fun l => l <> []) wrapped).
  { apply wrapText_nonempty. apply isBlank_false_nonempty. exact Hb. }
  destruct (Z_lt_le_dec (wholeLines maxHeight) (Z.of_nat (length wrapped)))
    as [Hmore|Hall].
  - right. right.
    pose proof (wholeLines_pos maxHeight Hok) as Hpos.
    destruct (fallback_truncated measureText text maxWidth maxHeight ctx' Hok Hmore)
      as (lastLine & Hlast & ->).
    fold wrapped in Hlast |- *. simpl fst. simpl lines.
    destruct (trimToFit_spec measureText (fallbackContext ctx') maxWidth lastLine)
      as [(cut & Hcut) _].
    set (kept := trimToFit measureText (fallbackContext ctx') maxWidth lastLine)
      in *.
    set (i := (Z.to_nat (wholeLines maxHeight) - 1)%nat) in *.
    pose proof (take_drop_middle wrapped i lastLine Hlast) as Hsplit.
    assert (Hrest : drop (S i) wrapped <> []).
    { intros E0. apply (f_equal length) in E0. rewrite length_drop in E0.
      simpl in E0. unfold i in E0. lia. }
    exists (concat (take i wrapped) ++ kept), (cut ++ concat (drop (S i) wrapped)).
    split; [|split].
    + destruct (drop (S i) wrapped) as [|next more] eqn:Edrop; [contradiction|].
      assert (Hnext : next <> []).
      { pose proof (Forall_drop _ (S i) _ Hnonempty) as Hd.
        rewrite Edrop in Hd. inversion Hd; assumption. }
      destruct next as [|c next]; [contradiction|].
      simpl. destruct cut; discriminate.
    + rewrite <- Hconcat, <- Hsplit at 1.
      rewrite concat_app. simpl. rewrite Hcut at 1.
      rewrite <- !app_assoc. reflexivity.
    + rewrite concat_app. simpl. rewrite app_nil_r, <- app_assoc. reflexivity.
  - right. left.
    rewrite (fallback_whole measureText text maxWidth maxHeight ctx' Hok Hall).
    exact Hconcat.
Qed.

(** ** When text is shown *)

Lemma fallback_lines_nonempty (measureText : Font -> list N -> Q)
    (ctx : Context2D) (text : list N) (maxWidth maxHeight : Q) :
  text <> [] ->
  Forall (fun line => line <> [])
         (lines (fst (fallback measureText ctx text maxWidth maxHeight)))
  /\ (minLineHeight <= maxHeight ->
      lines (fst (fallback measureText ctx text maxWidth maxHeight)) <> []).
Proof.
  intros Htext.
  destruct (Qlt_le_dec maxHeight minLineHeight) as [Hlow|Hok].
  { rewrite fallback_too_low by exact Hlow. split; [constructor|].
    intros H. lra. }
  assert (Hwrap : Forall (fun l => l <> [])
                         (linesAt measureText text maxWidth minFontSize))
    by (apply wrapText_nonempty; exact Htext).
  assert (Hlen : (1 <= length (linesAt measureText text maxWidth minFontSize))%nat)
    by apply wrapText_length_pos.
  destruct (Z_lt_le_dec (wholeLines maxHeight)
              (Z.of_nat (length (linesAt measureText text maxWidth minFontSize))))
    as [Hmore|Hall].
  - destruct (fallback_truncated measureText text maxWidth maxHeight ctx Hok Hmore)
      as (lastLine & _ & ->).
    simpl fst. simpl lines. split.
    + apply Forall_app. split; [apply Forall_take; exact Hwrap|].
      constructor; [|constructor].
      intros E. apply app_eq_nil in E. destruct E as [_ E]. discriminate.
    + intros _ E. apply app_eq_nil in E. destruct E as [_ E]. discriminate.
  - rewrite (fallback_whole measureText text maxWidth maxHeight ctx Hok Hall).
    simpl fst. simpl lines. split; [exact Hwrap|].
    intros _ E. rewrite E in Hlen. simpl in Hlen. lia.
Qed.

(** X5. No returned line is empty, on any return path: a line of the
    search loop or of the fallback holds at least one unit of the text,
    and a truncated last line holds at least the ellipsis. *)
Theorem fit_lines_are_not_empty (measureText : Font -> list N -> Q)
    (ctx : Context2D) (text : list N) (maxWidth maxHeight : Q) :
  Forall (fun line => line <> [])
         (lines (fst (getAdjustedFontAndLines measureText ctx text
                                              maxWidth maxHeight))).
Proof.
  destruct (fit_cases text maxWidth maxHeight) as [Hg|(Hb & Hw & Hh)].
  - rewrite fit_guard by exact Hg. constructor.
  - pose proof (isBlank_false_nonempty text Hb) as Htext.
    rewrite fit_search by assumption.
    destruct (searchLoop measureText text maxWidth maxHeight
                (Z.to_nat (Qfloor maxHeight)) ctx) as [[result|] ctx'] eqn:E.
    + apply searchLoop_some in E. destruct E as (k & _ & _ & Hl & _).
      simpl fst. rewrite Hl. apply wrapText_nonempty. exact Htext.
    + apply fallback_lines_nonempty. exact Htext.
Qed.

(** X6. Text is shown whenever one line of the minimum size fits.  With
    the arithmetic carried out exactly, for a text that is not blank and a
    box of positive width whose height is at least the line height of the
    minimum font size, the fitter returns at least one line; together with
    the degenerate cases this makes the empty result the mark of a blank
    text or a box that can hold no line. *)
Theorem fit_shows_text_when_a_line_fits (measureText : Font -> list N -> Q)
    (ctx : Context2D) (text : list N) (maxWidth maxHeight : Q) :
  isBlank text = false -> 0 < maxWidth ->
  inject_Z minFontSize * 1.4 <= maxHeight ->
  lines (fst (getAdjustedFontAndLines measureText ctx text maxWidth maxHeight))
  <> [].
Proof.
  intros Hb Hw Hh.
  pose proof (isBlank_false_nonempty text Hb) as Htext.
  assert (Hpos : 0 < maxHeight).
  { change (inject_Z minFontSize * 1.4) with minLineHeight in Hh.
    rewrite minLineHeight_value in Hh. lra. }
  rewrite fit_search by assumption.
  destruct (searchLoop measureText text maxWidth maxHeight
              (Z.to_nat (Qfloor maxHeight)) ctx) as [[result|] ctx'] eqn:E.
  - apply searchLoop_some in E. destruct E as (k & _ & _ & Hl & _).
    simpl fst. rewrite Hl. unfold linesAt. intros E0.
    pose proof (wrapText_length_pos measureText
                  (setFont (NotoSerifJP900 (Z.of_nat k)) ctx0) maxWidth text)
      as Hlen.
    rewrite E0 in Hlen. simpl in Hlen. lia.
  - apply fallback_lines_nonempty; [exact Htext|exact Hh].
Qed.

Lemma fit_shows_text_when_a_line_fits_witness :
  lines (fst (getAdjustedFontAndLines (fixedWidth 10) ctx0 (str "abc") 5 1.4))
  <> [].
Proof.
  apply (fit_shows_text_when_a_line_fits (fixedWidth 10) ctx0 (str "abc") 5 1.4);
    vm_compute; first [reflexivity | discriminate].
Defined.

(** ** The cells the board reads *)

Lemma fold_left_ext_in {A B : Type} (f g : A -> B -> A) (l : list B) :
  (forall a x, In x l -> f a x = g a x) ->
  forall a, fold_left f l a = fold_left g l a.
Proof.
  induction l as [|x l IH]; intros H a; [reflexivity|]. simpl.
  rewrite (H a x) by (left; reflexivity).
  apply IH. intros a' x' Hin. apply H. right. exact Hin.
Qed.

Lemma drawBoard_agree (measureText : Font -> list N -> Q)
    (context : Context2D) (boardWidth boardHeight : Q)
    (texts1 texts2 : list (list N)) :
  (forall i : nat, (i < NUM_ROWS * NUM_COLS)%nat ->
     default [] (texts1 !! i) = default [] (texts2 !! i)) ->
  drawBoard measureText context boardWidth boardHeight texts1
  = drawBoard measureText context boardWidth boardHeight texts2.
Proof.
  intros Hagree. unfold drawBoard. cbv zeta.
  apply fold_left_ext_in. intros ctx1 row Hrow.
  apply fold_left_ext_in. intros ctx2 col Hcol.
  apply in_seq in Hrow. apply in_seq in Hcol.
  unfold drawCell.
  rewrite (Hagree (row * NUM_COLS + col)%nat)
    by (unfold NUM_ROWS, NUM_COLS in *; lia).
  reflexivity.
Qed.

Lemma displayedTexts_of_array (h : gmap nat (list (list N))) (texts : nat)
    (arr : list (list N)) :
  h !! texts = Some arr ->
  displayedTexts h texts
  = match arr !! 7%nat with
    | Some s => if isIsoDate s then <[7%nat := localizeDate s]> arr else arr
    | None => arr
    end.
Proof.
  intros Hin.
  destruct (prepareTexts_spec h texts arr Hin) as (td & _ & _ & Hprep).
  unfold displayedTexts. rewrite Hprep. unfold readArray.
  rewrite lookup_insert_eq. reflexivity.
Qed.

Lemma drawWhiteboard_draws_displayed (measureText : Font -> list N -> Q)
    (context : Context2D) (boardWidth boardHeight : Q)
    (h : gmap nat (list (list N))) (texts : nat) (arr : list (list N)) :
  h !! texts = Some arr ->
  fst (drawWhiteboard measureText context boardWidth boardHeight texts h)
  = drawBoard measureText context boardWidth boardHeight
              (displayedTexts h texts).
Proof.
  intros Hin.
  destruct (prepareTexts_spec h texts arr Hin) as (td & _ & _ & Hprep).
  unfold drawWhiteboard, displayedTexts. rewrite Hprep. reflexivity.
Qed.

Lemma displayed_agree (arr1 arr2 : list (list N)) (i : nat) :
  default [] (arr1 !! 7%nat) = default [] (arr2 !! 7%nat) ->
  default [] (arr1 !! i) = default [] (arr2 !! i) ->
  default []
    (match arr1 !! 7%nat with
     | Some s => if isIsoDate s then <[7%nat := localizeDate s]> arr1 else arr1
     | None => arr1
     end !! i)
  = default []
      (match arr2 !! 7%nat with
       | Some s => if isIsoDate s then <[7%nat := localizeDate s]> arr2 else arr2
       | None => arr2
       end !! i).
Proof.
  intros H7 Hi.
  destruct (arr1 !! 7%nat) as [s1|] eqn:E1;
    destruct (arr2 !! 7%nat) as [s2|] eqn:E2; simpl in H7; subst;
    try exact Hi.
  destruct (isIsoDate s2); [|exact Hi].
  destruct (Nat.eq_dec i 7%nat) as [->|Hne].
  - rewrite !list_lookup_insert_eq
      by (eapply lookup_lt_Some; eassumption). reflexivity.
  - rewrite !list_lookup_insert_ne by congruence. exact Hi.
Qed.

(** X7. The board is drawn from the first [NUM_ROWS * NUM_COLS] elements
    of the array only, a missing element counting as the empty string: two
    arrays that agree there give the same sequence of calls, whatever
    follows the tenth element and whether an array is shorter than ten. *)
Theorem board_reads_ten_cells (measureText : Font -> list N -> Q)
    (context : Context2D) (boardWidth boardHeight : Q)
    (h1 h2 : gmap nat (list (list N))) (texts1 texts2 : nat)
    (arr1 arr2 : list (list N)) :
  h1 !! texts1 = Some arr1 ->
  h2 !! texts2 = Some arr2 ->
  (forall i : nat, (i < NUM_ROWS * NUM_COLS)%nat ->
     default [] (arr1 !! i) = default [] (arr2 !! i)) ->
  fst (drawWhiteboard measureText context boardWidth boardHeight texts1 h1)
  = fst (drawWhiteboard measureText context boardWidth boardHeight texts2 h2).
Proof.
  intros Hin1 Hin2 Hagree.
  rewrite (drawWhiteboard_draws_displayed _ _ _ _ _ _ _ Hin1),
          (drawWhiteboard_draws_displayed _ _ _ _ _ _ _ Hin2).
  apply drawBoard_agree. intros i Hi.
  rewrite (displayedTexts_of_array _ _ _ Hin1),
          (displayedTexts_of_array _ _ _ Hin2).
  apply displayed_agree; [|apply Hagree; exact Hi].
  apply Hagree. unfold NUM_ROWS, NUM_COLS. simpl. lia.
Qed.

Lemma board_reads_ten_cells_witness :
  fst (drawWhiteboard (fixedWidth (1 # 2)) ctx0 1000 800 3 sampleHeap)
  = fst (drawWhiteboard (fixedWidth (1 # 2)) ctx0 1000 800 0 longHeap).
Proof.
  apply (board_reads_ten_cells (fixedWidth (1 # 2)) ctx0 1000 800
           sampleHeap longHeap 3 0
           sampleTexts (sampleTexts ++ [str "ignored"]) eq_refl eq_refl).
  intros i Hi.
  do 10 (destruct i as [|i]; [reflexivity|]).
  unfold NUM_ROWS, NUM_COLS in Hi. simpl in Hi. lia.
Defined.

(** ** The greedy wrap against other line breakings *)

Lemma wrapLoop_app (measureText : Font -> list N -> Q) (ctx : Context2D)
    (W : Q) (chars1 chars2 : list N) :
  forall ls cur,
    wrapLoop measureText ctx W (chars1 ++ chars2) ls cur
    = wrapLoop measureText ctx W chars2
        (fst (wrapLoop measureText ctx W chars1 ls cur))
        (snd (wrapLoop measureText ctx W chars1 ls cur)).
Proof.
  induction chars1 as [|c rest IH]; intros ls cur; simpl; [reflexivity|].
  destruct (_ && _); apply IH.
Qed.

(** Inside a line of the other breaking: the greedy wrap has closed fewer
    lines than the other breaking, or as many, and then its current line
    is the end of the other's. *)
Lemma wrapLoop_ahead (measureText : Font -> list N -> Q) (ctx : Context2D)
    (W : Q) (breaks : nat) :
  (forall s t u, measureText (font ctx) t <= measureText (font ctx) (s ++ t ++ u)) ->
  forall (chars read cur : list N) (ls0 : list (list N)),
    withinWidth measureText (font ctx) W (read ++ chars) ->
    (length ls0 < breaks)%nat
    \/ (length ls0 = breaks /\ exists s, read = s ++ cur) ->
    (length (fst (wrapLoop measureText ctx W chars ls0 cur)) <= breaks)%nat.
Proof.
  intros Hmono.
  induction chars as [|c rest IH]; intros read cur ls0 Hline Hinv; simpl.
  - destruct Hinv as [H|[H _]]; lia.
  - replace (read ++ c :: rest) with ((read ++ [c]) ++ rest) in Hline
      by (rewrite <- app_assoc; reflexivity).
    destruct (Qgt_bool (measureWidth measureText ctx (cur ++ [c])) W
              && (0 <? length cur)%nat) eqn:E.
    + apply (IH (read ++ [c])); [exact Hline|].
      rewrite length_app. simpl.
      destruct Hinv as [Hlt|[Heq [s Hs]]].
      * destruct (Nat.eq_dec (length ls0 + 1)%nat breaks) as [Heq|Hne];
          [right|left; lia].
        split; [exact Heq|]. exists read. reflexivity.
      * exfalso. apply andb_true_iff in E as [Hwide Hpos].
        apply Qgt_bool_true in Hwide. apply Nat.ltb_lt in Hpos.
        unfold measureWidth in Hwide.
        assert (Hlen : (2 <= length ((read ++ [c]) ++ rest))%nat).
        { rewrite Hs, !length_app. simpl. lia. }
        specialize (Hline Hlen).
        pose proof (Hmono s (cur ++ [c]) rest) as Hm.
        rewrite Hs in Hline. rewrite <- !app_assoc in Hline.
        rewrite <- app_assoc in Hm. lra.
    + apply (IH (read ++ [c])); [exact Hline|].
      destruct Hinv as [Hlt|[Heq [s Hs]]]; [left; exact Hlt|right].
      split; [exact Heq|]. exists s. rewrite Hs, app_assoc. reflexivity.
Qed.

Lemma wrapLoop_lines (measureText : Font -> list N -> Q) (ctx : Context2D)
    (W : Q) :
  (forall s t u, measureText (font ctx) t <= measureText (font ctx) (s ++ t ++ u)) ->
  forall (broken : list (list N)) (ls0 : list (list N)) (cur : list N)
         (breaks : nat),
    Forall (fun line => line <> []) broken ->
    Forall (withinWidth measureText (font ctx) W) broken ->
    (length ls0 <= breaks)%nat ->
    (length (fst (wrapLoop measureText ctx W (concat broken) ls0 cur))
     <= breaks + length broken)%nat.
Proof.
  intros Hmono.
  induction broken as [|line rest IH]; intros ls0 cur breaks Hne Hw Hlen; simpl.
  - lia.
  - inversion Hne as [|? ? Hline Hne']; subst.
    inversion Hw as [|? ? Hwline Hw']; subst.
    rewrite wrapLoop_app.
    replace (breaks + S (length rest))%nat with (S breaks + length rest)%nat
      by lia.
    apply IH; [exact Hne'|exact Hw'|].
    destruct line as [|c chars]; [contradiction|]. simpl.
    destruct (Qgt_bool (measureWidth measureText ctx (cur ++ [c])) W
              && (0 <? length cur)%nat).
    + apply (wrapLoop_ahead measureText ctx W (S breaks) Hmono chars [c]);
        [exact Hwline|].
      rewrite length_app. simpl.
      destruct (Nat.eq_dec (length ls0 + 1)%nat (S breaks)) as [Heq|Hneq];
        [right|left; lia].
      split; [exact Heq|]. exists []. reflexivity.
    + apply (wrapLoop_ahead measureText ctx W (S breaks) Hmono chars [c]);
        [exact Hwline|]. left. lia.
Qed.

Lemma wrapText_shortest (measureText : Font -> list N -> Q) (ctx : Context2D)
    (W : Q) (broken : list (list N)) :
  (forall s t u, measureText (font ctx) t <= measureText (font ctx) (s ++ t ++ u)) ->
  broken <> [] ->
  Forall (fun line => line <> []) broken ->
  Forall (withinWidth measureText (font ctx) W) broken ->
  (length (wrapText measureText ctx W (concat broken)) <= length broken)%nat.
Proof.
  intros Hmono Hsome Hne Hw.
  destruct broken as [|line rest]; [contradiction|].
  inversion Hne as [|? ? Hline Hne']; subst.
  inversion Hw as [|? ? Hwline Hw']; subst.
  unfold wrapText. simpl concat.
  pose proof (wrapLoop_app measureText ctx W line (concat rest) [] []) as Happ.
  pose proof (wrapLoop_ahead measureText ctx W 0 Hmono line [] [] []
                Hwline
                (or_intror (conj eq_refl (ex_intro _ [] eq_refl)))) as H1.
  pose proof (wrapLoop_lines measureText ctx W Hmono rest
                (fst (wrapLoop measureText ctx W line [] []))
                (snd (wrapLoop measureText ctx W line [] []))
                0%nat Hne' Hw' H1) as H2.
  rewrite <- Happ in H2.
  destruct (wrapLoop measureText ctx W (line ++ concat rest) [] [])
    as [ls cur]. simpl in H2. rewrite length_app. simpl. lia.
Qed.

Lemma lineBreaking_shortest (measureText : Font -> list N -> Q)
    (text : list N) (maxWidth : Q) (fontSize : Z) (broken : list (list N)) :
  substringMonotone measureText ->
  (minFontSize <= fontSize)%Z ->
  text <> [] ->
  lineBreaking measureText text maxWidth fontSize broken ->
  (length (linesAt measureText text maxWidth fontSize) <= length broken)%nat.
Proof.
  intros Hmono Hsize Htext (Hconcat & Hne & Hw).
  unfold linesAt. rewrite <- Hconcat.
  apply wrapText_shortest; try assumption.
  - intros s t u. apply Hmono. exact Hsize.
  - intros E. subst broken. simpl in Hconcat. congruence.
Qed.

(** X8. The greedy wrap uses as few lines as any line breaking.  Under a
    measure for which a string is never narrower than a part of it, at any
    font size the fitter tries and for a text that is not empty, the
    number of lines of the greedy wrap is at most the number of lines of
    any other way of breaking the text into non-empty lines that are
    within the width (a line of a single unit counting as within it, as
    for the greedy wrap itself). *)
Theorem greedy_wrap_is_shortest (measureText : Font -> list N -> Q)
    (text : list N) (maxWidth : Q) (fontSize : Z) (broken : list (list N)) :
  substringMonotone measureText ->
  (minFontSize <= fontSize)%Z ->
  text <> [] ->
  lineBreaking measureText text maxWidth fontSize broken ->
  lineBreaking measureText text maxWidth fontSize
               (linesAt measureText text maxWidth fontSize)
  /\ (length (linesAt measureText text maxWidth fontSize) <= length broken)%nat.
Proof.
  intros Hmono Hsize Htext Hbroken. split.
  - unfold lineBreaking, linesAt. split; [apply wrapText_concat|].
    split; [apply wrapText_nonempty; exact Htext|].
    apply (wrapText_width measureText
             (setFont (NotoSerifJP900 fontSize) ctx0) maxWidth text).
  - apply lineBreaking_shortest; assumption.
Qed.

Lemma fixedWidth_substringMonotone (w : Q) :
  0 <= w -> substringMonotone (fixedWidth w).
Proof.
  intros Hw fontSize s t u Hsize. unfold fixedWidth.
  assert (Hf : 0 <= inject_Z fontSize * w).
  { apply Qmult_le_0_compat; [|exact Hw].
    change 0 with (inject_Z 0). rewrite <- Zle_Qle.
    unfold minFontSize in Hsize. lia. }
  rewrite (Qmult_comm _ (ofNat (length t))),
          (Qmult_comm _ (ofNat (length (s ++ t ++ u)))).
  apply Qmult_le_compat_r; [|exact Hf].
  apply ofNat_le. rewrite !length_app. lia.
Qed.

Lemma greedy_wrap_is_shortest_witness :
  lineBreaking (fixedWidth 1) (str "hello world") 20 3
               (linesAt (fixedWidth 1) (str "hello world") 20 3)
  /\ (length (linesAt (fixedWidth 1) (str "hello world") 20 3)
      <= length [str "hell"; str "o wo"; str "rld"])%nat.
Proof.
  apply (greedy_wrap_is_shortest (fixedWidth 1) (str "hello world") 20 3
           [str "hell"; str "o wo"; str "rld"]).
  - apply fixedWidth_substringMonotone. discriminate.
  - unfold minFontSize. lia.
  - discriminate.
  - split; [reflexivity|]. split.
    + repeat constructor; discriminate.
    + repeat constructor; intros _; vm_compute; discriminate.
Defined.

(** X9. No line breaking would allow a larger font.  With the arithmetic
    carried out exactly and under a measure for which a string is never
    narrower than a part of it, for a text that is not blank and a box of
    positive width: if at some font size between
    the minimum and [floor(maxHeight)] the text can be broken, in any way,
    into non-empty lines within the width whose block is no taller than
    the box, then the fitter returns lines at a font size at least that
    large. *)
Theorem fit_font_is_optimal (measureText : Font -> list N -> Q)
    (ctx : Context2D) (text : list N) (maxWidth maxHeight : Q)
    (fontSize : Z) (broken : list (list N)) :
  substringMonotone measureText ->
  isBlank text = false -> 0 < maxWidth ->
  (minFontSize <= fontSize <= Qfloor maxHeight)%Z ->
  lineBreaking measureText text maxWidth fontSize broken ->
  ofNat (length broken) * (inject_Z fontSize * 1.4) <= maxHeight ->
  let result :=
    fst (getAdjustedFontAndLines measureText ctx text maxWidth maxHeight) in
  lines result <> []
  /\ inject_Z fontSize * 1.4 <= lineHeight result.
Proof.
  intros Hmono Hb Hw Hsize Hbroken Hfits. cbv zeta.
  pose proof (isBlank_false_nonempty text Hb) as Htext.
  unfold minFontSize in Hsize.
  assert (Hpos : 0 <= inject_Z fontSize * 1.4).
  { assert (H1 : inject_Z 1 <= inject_Z fontSize) by (rewrite <- Zle_Qle; lia).
    change (inject_Z 1) with 1 in H1. set (q := inject_Z fontSize) in *. lra. }
  assert (Hfit : fitsHeight measureText text maxWidth maxHeight fontSize).
  { unfold fitsHeight. apply Qle_trans with (2 := Hfits).
    apply Qmult_le_compat_r; [|exact Hpos]. apply ofNat_le.
    apply lineBreaking_shortest; try assumption. unfold minFontSize. lia. }
  assert (Hh : 0 < maxHeight).
  { apply Qlt_le_trans with (inject_Z 1); [reflexivity|].
    apply Qle_trans with (inject_Z (Qfloor maxHeight));
      [rewrite <- Zle_Qle; lia|apply Qfloor_le]. }
  rewrite fit_search by assumption.
  replace fontSize with (Z.of_nat (Z.to_nat fontSize)) in Hfit by lia.
  destruct (searchLoop_found measureText text maxWidth maxHeight
              (Z.to_nat (Qfloor maxHeight)) (Z.to_nat fontSize) ctx
              ltac:(lia) Hfit) as (result & ctx' & E).
  rewrite E. simpl fst.
  apply searchLoop_some in E.
  destruct E as (k & (Hk & _ & Hmax) & _ & Hl & Hlh).
  split.
  - rewrite Hl. unfold linesAt.
    pose proof (wrapText_length_pos measureText
                  (setFont (NotoSerifJP900 (Z.of_nat k)) ctx0) maxWidth text) as Hlen.
    intros E0. rewrite E0 in Hlen. simpl in Hlen. lia.
  - rewrite Hlh.
    assert (Hge : (Z.to_nat fontSize <= k)%nat).
    { destruct (Nat.le_gt_cases (Z.to_nat fontSize) k) as [H|H]; [exact H|].
      exfalso. apply (Hmax (Z.to_nat fontSize)); [lia|exact Hfit]. }
    assert (HZ : inject_Z fontSize <= inject_Z (Z.of_nat k))
      by (rewrite <- Zle_Qle; lia).
    set (a := inject_Z fontSize) in *. set (b := inject_Z (Z.of_nat k)) in *.
    lra.
Qed.

Lemma fit_font_is_optimal_witness :
  let result :=
    fst (getAdjustedFontAndLines (fixedWidth 1) ctx0 (str "hello world") 20 10) in
  lines result <> [] /\ inject_Z 2 * 1.4 <= lineHeight result.
Proof.
  apply (fit_font_is_optimal (fixedWidth 1) ctx0 (str "hello world") 20 10 2
           [str "hell"; str "o wo"; str "rld"]).
  - apply fixedWidth_substringMonotone. discriminate.
  - reflexivity.
  - reflexivity.
  - split; vm_compute; discriminate.
  - split; [reflexivity|]. split.
    + repeat constructor; discriminate.
    + repeat constructor; intros _; vm_compute; discriminate.
  - vm_compute. discriminate.
Defined.

(** * The application component *)

(** ** Decimal strings *)




(** ** The date on a board that was just started *)



(** ** Dragging the board *)

Lemma clamp_spec (v limit : Q) :
  0 <= Qmax 0 (Qmin v limit)
  /\ (0 <= limit -> Qmax 0 (Qmin v limit) <= limit)
  /\ (limit <= 0 -> Qmax 0 (Qmin v limit) == 0)
  /\ (0 <= v -> v <= limit -> Qmax 0 (Qmin v limit) == v).
Proof.
  destruct (Q.min_spec_le v limit) as [[Hle Emin]|[Hle Emin]];
    destruct (Q.max_spec_le 0 (Qmin v limit)) as [[Hle' Emax]|[Hle' Emax]];
    rewrite Emax; rewrite ?Emin in *; repeat split; intros; lra.
Qed.

(** X11. While a drag is under way, whatever the pointer does, the board's
    new position is not negative in either direction.  With the arithmetic
    carried out exactly: when the overlay is no wider (no higher) than the
    main element, the overlay placed there ends within the main element's
    width (height); when it is wider (higher), the position is 0 in that
    direction. *)
Theorem dragged_board_stays_inside (drag : App.DragState)
    (movePoint : App.Pointer) (mainRect : App.DOMRect)
    (overlayWidth overlayHeight : Q) (whiteboardPosition : App.Position) :
  App.isDragging drag = true ->
  let position :=
    App.handleDragMove drag movePoint mainRect overlayWidth overlayHeight
                       whiteboardPosition in
  0 <= App.x position
  /\ 0 <= App.y position
  /\ (overlayWidth <= App.width mainRect ->
      App.x position + overlayWidth <= App.width mainRect)
  /\ (overlayHeight <= App.height mainRect ->
      App.y position + overlayHeight <= App.height mainRect)
  /\ (App.width mainRect <= overlayWidth -> App.x position == 0)
  /\ (App.height mainRect <= overlayHeight -> App.y position == 0).
Proof.
  intros Hdrag. cbv zeta. unfold App.handleDragMove. rewrite Hdrag. simpl.
  set (newX := App.clientX movePoint - App.left mainRect
               - App.x (App.dragOffset drag)).
  set (newY := App.clientY movePoint - App.top mainRect
               - App.y (App.dragOffset drag)).
  destruct (clamp_spec newX (App.width mainRect - overlayWidth))
    as (Hx0 & Hx1 & Hx2 & _).
  destruct (clamp_spec newY (App.height mainRect - overlayHeight))
    as (Hy0 & Hy1 & Hy2 & _).
  split; [exact Hx0|]. split; [exact Hy0|].
  split; [intros H; specialize (Hx1 ltac:(lra)); lra|].
  split; [intros H; specialize (Hy1 ltac:(lra)); lra|].
  split; [intros H; apply Hx2; lra|intros H; apply Hy2; lra].
Qed.

Lemma dragged_board_stays_inside_witness :
  let position :=
    App.handleDragMove
      {| App.isDragging := true; App.dragOffset := {| App.x := 5; App.y := 5 |} |}
      {| App.clientX := 1000; App.clientY := -20 |}
      {| App.left := 10; App.top := 10; App.width := 400; App.height := 300 |}
      120 75 {| App.x := 0; App.y := 225 |} in
  0 <= App.x position /\ 0 <= App.y position.
Proof.
  pose proof (dragged_board_stays_inside
                {| App.isDragging := true;
                   App.dragOffset := {| App.x := 5; App.y := 5 |} |}
                {| App.clientX := 1000; App.clientY := -20 |}
                {| App.left := 10; App.top := 10;
                   App.width := 400; App.height := 300 |}
                120 75 {| App.x := 0; App.y := 225 |} eq_refl) as H.
  exact (conj (proj1 H) (proj1 (proj2 H))).
Defined.

(** X12. A drag moves the board by what the pointer moved.  If the overlay
    sat at the board's position inside the main element when the drag
    began, and the main element has not moved since, then as long as the
    position so displaced keeps the overlay inside the main element, it is
    the new position, with the arithmetic carried out exactly: the point
    that was grabbed stays under the pointer. *)
Theorem dragged_board_follows_pointer (startPoint movePoint : App.Pointer)
    (overlayRect mainRect : App.DOMRect) (overlayWidth overlayHeight : Q)
    (whiteboardPosition : App.Position) :
  App.left overlayRect == App.left mainRect + App.x whiteboardPosition ->
  App.top overlayRect == App.top mainRect + App.y whiteboardPosition ->
  let movedX :=
    App.x whiteboardPosition
    + (App.clientX movePoint - App.clientX startPoint) in
  let movedY :=
    App.y whiteboardPosition
    + (App.clientY movePoint - App.clientY startPoint) in
  0 <= movedX -> movedX <= App.width mainRect - overlayWidth ->
  0 <= movedY -> movedY <= App.height mainRect - overlayHeight ->
  let position :=
    App.handleDragMove (App.handleDragStart startPoint overlayRect) movePoint
                       mainRect overlayWidth overlayHeight whiteboardPosition in
  App.x position == movedX /\ App.y position == movedY.
Proof.
  intros Hleft Htop movedX movedY Hx0 Hx1 Hy0 Hy1. cbv zeta.
  unfold App.handleDragMove, App.handleDragStart. simpl.
  set (newX := App.clientX movePoint - App.left mainRect
               - (App.clientX startPoint - App.left overlayRect)).
  set (newY := App.clientY movePoint - App.top mainRect
               - (App.clientY startPoint - App.top overlayRect)).
  assert (Ex : newX == movedX) by (unfold newX, movedX; lra).
  assert (Ey : newY == movedY) by (unfold newY, movedY; lra).
  destruct (clamp_spec newX (App.width mainRect - overlayWidth))
    as (_ & _ & _ & Hx).
  destruct (clamp_spec newY (App.height mainRect - overlayHeight))
    as (_ & _ & _ & Hy).
  split.
  - rewrite Hx; [exact Ex| |]; lra.
  - rewrite Hy; [exact Ey| |]; lra.
Qed.

Lemma dragged_board_follows_pointer_witness :
  let position :=
    App.handleDragMove
      (App.handleDragStart {| App.clientX := 50; App.clientY := 260 |}
         {| App.left := 10; App.top := 235; App.width := 120; App.height := 75 |})
      {| App.clientX := 150; App.clientY := 200 |}
      {| App.left := 10; App.top := 10; App.width := 400; App.height := 300 |}
      120 75 {| App.x := 0; App.y := 225 |} in
  App.x position == 0 + (150 - 50) /\ App.y position == 225 + (200 - 260).
Proof.
  apply (dragged_board_follows_pointer
           {| App.clientX := 50; App.clientY := 260 |}
           {| App.clientX := 150; App.clientY := 200 |}
           {| App.left := 10; App.top := 235; App.width := 120; App.height := 75 |}
           {| App.left := 10; App.top := 10; App.width := 400; App.height := 300 |}
           120 75 {| App.x := 0; App.y := 225 |});
    vm_compute; first [reflexivity | discriminate].
Defined.

(** ** Taking the photo *)

Lemma ratio_above (w h : Q) :
  0 < h -> (4 # 3 < w / h <-> h * (4 # 3) < w).
Proof.
  intros Hh.
  assert (E : w == (w / h) * h) by (field; lra).
  split; intros H.
  - rewrite E at 1. rewrite (Qmult_comm h).
    apply Qmult_lt_compat_r; assumption.
  - apply Qlt_shift_div_l; [exact Hh|]. rewrite Qmult_comm. exact H.
Qed.

(** X13. For a video frame of positive width and height, and with the
    arithmetic carried out exactly, the rectangle cut out of the frame is
    4 wide for 3 high, is not empty, starts at non-negative offsets and is
    centred in the frame, so it lies inside the frame; and it spans the
    whole frame in one direction, so no larger 4:3 rectangle would fit. *)
Theorem crop_is_centred_four_by_three (videoWidth videoHeight : Z) :
  (0 < videoWidth)%Z -> (0 < videoHeight)%Z ->
  let c := App.cropRegion videoWidth videoHeight in
  3 * App.sWidth c == 4 * App.sHeight c
  /\ 0 < App.sWidth c /\ 0 < App.sHeight c
  /\ 0 <= App.sx c /\ 0 <= App.sy c
  /\ App.sx c + App.sWidth c + App.sx c == inject_Z videoWidth
  /\ App.sy c + App.sHeight c + App.sy c == inject_Z videoHeight
  /\ ((App.sWidth c == inject_Z videoWidth /\ App.sx c == 0)
      \/ (App.sHeight c == inject_Z videoHeight /\ App.sy c == 0)).
Proof.
  intros Hw Hh. cbv zeta. unfold App.cropRegion. cbv zeta.
  assert (Hw' : 0 < inject_Z videoWidth)
    by (change 0 with (inject_Z 0); rewrite <- Zlt_Qlt; exact Hw).
  assert (Hh' : 0 < inject_Z videoHeight)
    by (change 0 with (inject_Z 0); rewrite <- Zlt_Qlt; exact Hh).
  set (w := inject_Z videoWidth) in *. set (h := inject_Z videoHeight) in *.
  change App.targetAspectRatio with (4 # 3).
  destruct (Qgt_bool (w / h) (4 # 3)) eqn:E; simpl.
  - apply Qgt_bool_true in E. apply ratio_above in E; [|exact Hh'].
    unfold Qdiv. change (/ 2) with (1 # 2).
    repeat split; try lra; right; split; lra.
  - apply Qgt_bool_false in E.
    assert (E' : w <= h * (4 # 3)).
    { destruct (Qlt_le_dec (h * (4 # 3)) w) as [Hlt|Hle]; [|exact Hle].
      apply ratio_above in Hlt; [lra|exact Hh']. }
    unfold Qdiv. change (/ (4 # 3)) with (3 # 4). change (/ 2) with (1 # 2).
    repeat split; try lra; left; split; lra.
Qed.

Lemma crop_is_centred_four_by_three_witness :
  let c := App.cropRegion 1920 1080 in
  3 * App.sWidth c == 4 * App.sHeight c
  /\ 0 < App.sWidth c /\ 0 < App.sHeight c
  /\ 0 <= App.sx c /\ 0 <= App.sy c
  /\ App.sx c + App.sWidth c + App.sx c == inject_Z 1920
  /\ App.sy c + App.sHeight c + App.sy c == inject_Z 1080
  /\ ((App.sWidth c == inject_Z 1920 /\ App.sx c == 0)
      \/ (App.sHeight c == inject_Z 1080 /\ App.sy c == 0)).
Proof.
  exact (crop_is_centred_four_by_three 1920 1080 eq_refl eq_refl).
Defined.

Lemma toUnsignedLong_nonneg (v : Q) : 0 <= App.toUnsignedLong v.
Proof.
  unfold App.toUnsignedLong. change 0 with (inject_Z 0). rewrite <- Zle_Qle.
  apply Z.mod_pos_bound. reflexivity.
Qed.

Lemma canvasDimension_nonneg (defaultValue v : Q) :
  0 <= defaultValue -> 0 <= App.canvasDimension defaultValue v.
Proof.
  intros Hd. unfold App.canvasDimension. cbv zeta.
  destruct (Qle_bool (App.toUnsignedLong v) 2147483647);
    [apply toUnsignedLong_nonneg|exact Hd].
Qed.

(** The board scaled from the preview to the canvas stays on the canvas, in
    one direction: [extent] is the main element's extent, [size] the
    canvas's, [share] the board's share of the canvas. *)
Lemma scaled_board_on_canvas (position overlay extent size share : Q) :
  0 < extent -> 0 <= size ->
  0 <= position -> position + overlay <= extent ->
  extent * share <= overlay ->
  0 <= position * (size / extent)
  /\ position * (size / extent) + size * share <= size.
Proof.
  intros Hextent Hsize Hpos Hfit Hshare.
  assert (Hr : 0 <= size / extent).
  { apply Qle_shift_div_l; [exact Hextent|]. lra. }
  assert (Er : (size / extent) * extent == size) by (field; lra).
  set (r := size / extent) in *.
  split; [apply Qmult_le_0_compat; assumption|].
  assert (H1 : position * r <= (extent - extent * share) * r).
  { apply Qmult_le_compat_r; [lra|exact Hr]. }
  assert (H2 : (extent - extent * share) * r == r * extent - (r * extent) * share)
    by ring.
  rewrite H2, Er in H1. lra.
Qed.

(** X14. A board that was placed is inside the photo.  Let the main
    element have a positive size, and let the overlay, no larger than the
    main element, be laid out at least as large as its styled share of it
    (30 and 25 per cent of the width and height, times the scale).  Then
    for the position set when the preview is laid out and for the position
    any move of a drag leaves, a capture made once the video has data, with
    the arithmetic carried out exactly, draws the board at non-negative
    coordinates of the canvas and within its width and height, whatever
    the video frame, the texts and the scale. *)
Theorem captured_board_inside_photo (measureText : Font -> list N -> Q)
    (context : Context2D) (readyState videoWidth videoHeight : Z)
    (mainRect : App.DOMRect) (overlayWidth overlayHeight whiteboardScale : Q)
    (position : App.Position) (whiteboardTexts : nat)
    (h : gmap nat (list (list N))) :
  0 < App.width mainRect -> 0 < App.height mainRect ->
  overlayWidth <= App.width mainRect ->
  overlayHeight <= App.height mainRect ->
  App.width mainRect * (0.3 * whiteboardScale) <= overlayWidth ->
  App.height mainRect * (0.25 * whiteboardScale) <= overlayHeight ->
  placed mainRect overlayWidth overlayHeight position ->
  (2 <= readyState)%Z ->
  exists (layout : App.Layout) (board : Context2D),
    fst (App.capturePhoto measureText context readyState videoWidth videoHeight
                          mainRect whiteboardScale position whiteboardTexts h)
    = Some (layout, board)
    /\ 0 <= App.boardLeftX layout
    /\ App.boardLeftX layout + App.boardWidth layout <= App.canvasWidth layout
    /\ 0 <= App.boardTopY layout
    /\ App.boardTopY layout + App.boardHeight layout <= App.canvasHeight layout.
Proof.
  intros HW HH HoW HoH HsW HsH Hplaced Hready.
  assert (Hpos : 0 <= App.x position
                 /\ App.x position + overlayWidth <= App.width mainRect
                 /\ 0 <= App.y position
                 /\ App.y position + overlayHeight <= App.height mainRect).
  { destruct Hplaced as [->|(drag & movePoint & previous & Hdrag & ->)].
    - simpl. repeat split; lra.
    - unfold App.handleDragMove. rewrite Hdrag. simpl.
      set (newX := App.clientX movePoint - App.left mainRect
                   - App.x (App.dragOffset drag)).
      set (newY := App.clientY movePoint - App.top mainRect
                   - App.y (App.dragOffset drag)).
      destruct (clamp_spec newX (App.width mainRect - overlayWidth))
        as (Hx0 & Hx1 & _).
      destruct (clamp_spec newY (App.height mainRect - overlayHeight))
        as (Hy0 & Hy1 & _).
      specialize (Hx1 ltac:(lra)). specialize (Hy1 ltac:(lra)).
      repeat split; lra. }
  destruct Hpos as (Hx0 & Hx1 & Hy0 & Hy1).
  unfold App.capturePhoto.
  assert (Er : (2 <=? readyState)%Z = true) by (apply Z.leb_le; exact Hready).
  rewrite Er. cbv zeta.
  destruct (drawWhiteboard measureText context _ _ whiteboardTexts h)
    as [board h'] eqn:Edraw.
  eexists. exists board. split; [reflexivity|].
  unfold App.captureLayout. cbv zeta. simpl.
  set (cw := App.canvasDimension 300
               (App.sWidth (App.cropRegion videoWidth videoHeight))).
  set (ch := App.canvasDimension 150
               (App.sHeight (App.cropRegion videoWidth videoHeight))).
  assert (Hcw : 0 <= cw) by (apply canvasDimension_nonneg; lra).
  assert (Hch : 0 <= ch) by (apply canvasDimension_nonneg; lra).
  destruct (scaled_board_on_canvas (App.x position) overlayWidth
              (App.width mainRect) cw (0.3 * whiteboardScale)
              HW Hcw Hx0 Hx1 HsW) as [Hl Hr].
  destruct (scaled_board_on_canvas (App.y position) overlayHeight
              (App.height mainRect) ch (0.25 * whiteboardScale)
              HH Hch Hy0 Hy1 HsH) as [Ht Hb].
  split; [exact Hl|]. split; [|split; [exact Ht|]].
  - rewrite <- Qmult_assoc. exact Hr.
  - rewrite <- Qmult_assoc. exact Hb.
Qed.

Lemma captured_board_inside_photo_witness :
  exists (layout : App.Layout) (board : Context2D),
    fst (App.capturePhoto (fixedWidth (1 # 2)) ctx0 4 1920 1080 sampleMain 1
           (App.handleDragMove
              {| App.isDragging := true;
                 App.dragOffset := {| App.x := 5; App.y := 5 |} |}
              {| App.clientX := 1000; App.clientY := 1000 |}
              sampleMain 120 75 {| App.x := 0; App.y := 225 |})
           3 sampleHeap)
    = Some (layout, board)
    /\ 0 <= App.boardLeftX layout
    /\ App.boardLeftX layout + App.boardWidth layout <= App.canvasWidth layout
    /\ 0 <= App.boardTopY layout
    /\ App.boardTopY layout + App.boardHeight layout <= App.canvasHeight layout.
Proof.
  apply (captured_board_inside_photo (fixedWidth (1 # 2)) ctx0 4 1920 1080
           sampleMain 120 75 1
           (App.handleDragMove
              {| App.isDragging := true;
                 App.dragOffset := {| App.x := 5; App.y := 5 |} |}
              {| App.clientX := 1000; App.clientY := 1000 |}
              sampleMain 120 75 {| App.x := 0; App.y := 225 |})
           3 sampleHeap);
    try (vm_compute; first [reflexivity | discriminate]).
  right.
  exists {| App.isDragging := true;
            App.dragOffset := {| App.x := 5; App.y := 5 |} |},
         {| App.clientX := 1000; App.clientY := 1000 |},
         {| App.x := 0; App.y := 225 |}.
  split; reflexivity.
Defined.

(** ** Downloading *)

Lemma downloads_numbered (clicks : list DownloadClick) :
  forall (counters : gmap (list N) nat) (seen : list (list N)),
    (forall base, default 0%nat (counters !! base) = timesSeen base seen) ->
    downloads clicks counters = numberedNames seen (downloadBases clicks).
Proof.
  induction clicks as [|click rest IH]; intros counters seen Hinv; [reflexivity|].
  simpl. unfold App.downloadPhoto.
  destruct (clickImage click) as [src|]; [|apply IH; exact Hinv].
  destruct (isEmptyString src); [apply IH; exact Hinv|].
  cbv zeta. simpl. rewrite Hinv. f_equal.
  apply IH. intros base. simpl.
  destruct (decide (App.baseFilename (clickToday click)
                                     (clickTexts click) = base)) as [->|Hne].
  - rewrite lookup_insert_eq. simpl. rewrite bool_decide_eq_true_2 by reflexivity.
    rewrite <- Hinv. lia.
  - rewrite lookup_insert_ne by exact Hne.
    rewrite bool_decide_eq_false_2 by exact Hne. rewrite Hinv. reflexivity.
Qed.

(** X15. The counters of [downloadPhoto] number the downloads of a
    session by name.  Starting from the empty counter object, the files
    downloaded by any sequence of clicks are named, in order, by the base
    name of the click (the date as [MM.DD] and the texts of cells 1 and 3)
    followed by one more than the number of earlier downloads under that
    same base name, padded to three digits, and [.jpg]; a click that finds
    no photo downloads nothing and counts for nothing. *)
Theorem download_names_are_numbered (clicks : list DownloadClick) :
  downloads clicks ∅ = numberedNames [] (downloadBases clicks).
Proof.
  apply downloads_numbered. intros base. rewrite lookup_empty. reflexivity.
Qed.

Lemma three_digits (n : nat) :
  (n < 1000)%nat ->
  length (App.padStart 3 App.zero (App.numberToString n)) = 3%nat
  /\ digitsValue (App.padStart 3 App.zero (App.numberToString n)) = n.
Proof.
  intros Hn.
  assert (Hall :
    forallb (fun n =>
               (length (App.padStart 3 App.zero (App.numberToString n)) =? 3)%nat
               && (digitsValue (App.padStart 3 App.zero (App.numberToString n))
                   =? n)%nat)
            (seq 0 (Z.to_nat 1000)) = true) by (vm_compute; reflexivity).
  rewrite forallb_forall in Hall.
  specialize (Hall n ltac:(apply in_seq; lia)).
  apply andb_true_iff in Hall. destruct Hall as [H1 H2].
  apply Nat.eqb_eq in H1. apply Nat.eqb_eq in H2. split; assumption.
Qed.

Lemma numbered_name_inj (base1 base2 : list N) (n m : nat) :
  (n < 1000)%nat -> (m < 1000)%nat ->
  base1 ++ App.padStart 3 App.zero (App.numberToString n) ++ str ".jpg"
  = base2 ++ App.padStart 3 App.zero (App.numberToString m) ++ str ".jpg" ->
  base1 = base2 /\ n = m.
Proof.
  intros Hn Hm E.
  destruct (three_digits n Hn) as [Ln Vn].
  destruct (three_digits m Hm) as [Lm Vm].
  assert (Hlen : length base1 = length base2).
  { apply (f_equal length) in E. rewrite !length_app, Ln, Lm in E. lia. }
  apply app_inj_1 in E; [|exact Hlen]. destruct E as [E1 E2].
  split; [exact E1|].
  apply app_inv_tail in E2. rewrite <- Vn, <- Vm, E2. reflexivity.
Qed.

Lemma timesSeen_le (base : list N) (seen : list (list N)) :
  (timesSeen base seen <= length seen)%nat.
Proof.
  induction seen as [|s rest IH]; simpl; [lia|].
  destruct (bool_decide (s = base)); lia.
Qed.

Lemma numberedNames_elem (bases : list (list N)) :
  forall (seen : list (list N)) (name : list N),
    name ∈ numberedNames seen bases ->
    exists (base : list N) (n : nat),
      name = base ++ App.padStart 3 App.zero (App.numberToString n) ++ str ".jpg"
      /\ (timesSeen base seen < n <= timesSeen base seen + length bases)%nat.
Proof.
  induction bases as [|b rest IH]; intros seen name Hin; simpl in Hin.
  - apply elem_of_nil in Hin. contradiction.
  - apply elem_of_cons in Hin. destruct Hin as [->|Hin].
    + exists b, (timesSeen b seen + 1)%nat. split; [reflexivity|]. simpl. lia.
    + destruct (IH _ _ Hin) as (base & n & -> & Hn).
      exists base, n. split; [reflexivity|]. simpl in Hn |- *.
      destruct (bool_decide (b = base)); lia.
Qed.

Lemma numberedNames_NoDup (bases : list (list N)) :
  forall seen : list (list N),
    (length seen + length bases < 1000)%nat ->
    NoDup (numberedNames seen bases).
Proof.
  induction bases as [|b rest IH]; intros seen Hlen; simpl.
  - apply NoDup_nil. exact I.
  - simpl in Hlen. apply NoDup_cons. split.
    + intros Hin. apply numberedNames_elem in Hin.
      destruct Hin as (base & n & E & Hn).
      pose proof (timesSeen_le b seen) as Hb.
      pose proof (timesSeen_le base (b :: seen)) as Hbase.
      simpl length in Hbase.
      apply numbered_name_inj in E; [|lia|lia].
      destruct E as [<- <-]. simpl in Hn.
      rewrite bool_decide_eq_true_2 in Hn by reflexivity. lia.
    + apply IH. simpl. lia.
Qed.

Lemma downloadBases_length (clicks : list DownloadClick) :
  (length (downloadBases clicks) <= length clicks)%nat.
Proof.
  induction clicks as [|click rest IH]; [reflexivity|]. simpl.
  destruct (clickImage click) as [src|]; simpl; [|lia].
  destruct (isEmptyString src); simpl; lia.
Qed.

(** X16. In a session of fewer than a thousand clicks on the download
    button, starting from the empty counter object, no two downloads get
    the same file name, whatever the dates and the texts of the clicks. *)
Theorem download_names_are_distinct (clicks : list DownloadClick) :
  (length clicks < 1000)%nat ->
  NoDup (downloads clicks ∅).
Proof.
  intros Hlen.
  rewrite (downloads_numbered clicks ∅ [])
    by (intros base; rewrite lookup_empty; reflexivity).
  apply numberedNames_NoDup.
  pose proof (downloadBases_length clicks). simpl. lia.
Qed.

Lemma download_names_are_distinct_witness :
  NoDup (downloads
           [sampleClick (str "pump") []; sampleClick (str "pump") [];
            sampleClick (str "valve") (str "b")] ∅).
Proof.
  apply (download_names_are_distinct
           [sampleClick (str "pump") []; sampleClick (str "pump") [];
            sampleClick (str "valve") (str "b")]).
  simpl. lia.
Defined.

(** The names of three downloads: two under one base name, one under
    another. *)
Example download_names_sample :
  downloads
    [sampleClick (str "pump") []; sampleClick (str "pump") [];
     sampleClick (str "valve") (str "b")] ∅
  = [str "03.05pump001.jpg"; str "03.05pump002.jpg"; str "03.05valveb001.jpg"].
Proof. vm_compute. reflexivity. Qed.

(** The bound cannot be dropped.  Once a base name has been used a
    thousand times its counter has four digits: after the thousandth
    download under [03.05a] the next one is [03.05a1001.jpg], and so is the
    first download under the base name [03.05a1]. *)
Example download_names_collide :
  downloads [sampleClick (str "a") []; sampleClick (str "a1") []]
            {[ str "03.05a" := Z.to_nat 1000 ]}
  = [str "03.05a1001.jpg"; str "03.05a1001.jpg"].
Proof. vm_compute. reflexivity. Qed.

(** * The grid of inputs *)

(** ** Lines of an imported file *)

Lemma splitLinesLoop_cons (c d : N) (rest current : list N) :
  ChalkboardInput.splitLinesLoop (c :: d :: rest) current
  = if (c =? ChalkboardInput.carriageReturn)%N
       && (d =? ChalkboardInput.lineFeed)%N
    then current :: ChalkboardInput.splitLinesLoop rest []
    else if (c =? ChalkboardInput.lineFeed)%N
         then current :: ChalkboardInput.splitLinesLoop (d :: rest) []
         else ChalkboardInput.splitLinesLoop (d :: rest) (current ++ [c]).
Proof. reflexivity. Qed.

Lemma splitLinesLoop_line (a : list N) :
  ChalkboardInput.lineFeed ∉ a ->
  forall current : list N,
    ChalkboardInput.splitLinesLoop a current = [current ++ a].
Proof.
  induction a as [|c a IH]; intros Hlf current; simpl.
  - rewrite app_nil_r. reflexivity.
  - apply not_elem_of_cons in Hlf. destruct Hlf as [Hc Ha].
    assert (Ec : (c =? ChalkboardInput.lineFeed)%N = false)
      by (apply N.eqb_neq; congruence).
    destruct a as [|d a'].
    + rewrite Ec. reflexivity.
    + assert (Ed : (d =? ChalkboardInput.lineFeed)%N = false).
      { apply N.eqb_neq. apply not_elem_of_cons in Ha. intuition congruence. }
      rewrite Ed, andb_false_r, Ec. rewrite IH by exact Ha.
      rewrite <- app_assoc. reflexivity.
Qed.

Lemma splitLinesLoop_line_feed (a b : list N) :
  ChalkboardInput.lineFeed ∉ a ->
  List.last a 0%N <> ChalkboardInput.carriageReturn ->
  forall current : list N,
    ChalkboardInput.splitLinesLoop (a ++ ChalkboardInput.lineFeed :: b) current
    = (current ++ a) :: ChalkboardInput.splitLinesLoop b [].
Proof.
  induction a as [|c a IH]; intros Hlf Hlast current.
  - rewrite app_nil_r. simpl. destruct b; reflexivity.
  - apply not_elem_of_cons in Hlf. destruct Hlf as [Hc Ha].
    assert (Ec : (c =? ChalkboardInput.lineFeed)%N = false)
      by (apply N.eqb_neq; congruence).
    destruct a as [|d a'].
    + simpl in Hlast.
      assert (Ecr : (c =? ChalkboardInput.carriageReturn)%N = false)
        by (apply N.eqb_neq; exact Hlast).
      change (ChalkboardInput.splitLinesLoop
                (c :: ChalkboardInput.lineFeed :: b) current
              = (current ++ [c]) :: ChalkboardInput.splitLinesLoop b []).
      rewrite splitLinesLoop_cons.
      change (ChalkboardInput.lineFeed =? ChalkboardInput.lineFeed)%N with true.
      rewrite Ecr, Ec. simpl. destruct b; reflexivity.
    + assert (Ed : (d =? ChalkboardInput.lineFeed)%N = false).
      { apply N.eqb_neq. apply not_elem_of_cons in Ha. intuition congruence. }
      change (ChalkboardInput.splitLinesLoop
                (c :: d :: (a' ++ ChalkboardInput.lineFeed :: b)) current
              = (current ++ c :: d :: a')
                :: ChalkboardInput.splitLinesLoop b []).
      rewrite splitLinesLoop_cons. rewrite Ed, andb_false_r, Ec.
      change (d :: a' ++ ChalkboardInput.lineFeed :: b)
        with ((d :: a') ++ ChalkboardInput.lineFeed :: b).
      rewrite IH; [|exact Ha|exact Hlast].
      rewrite <- app_assoc. reflexivity.
Qed.

Lemma splitLinesLoop_crlf (a b : list N) :
  ChalkboardInput.lineFeed ∉ a ->
  forall current : list N,
    ChalkboardInput.splitLinesLoop
      (a ++ ChalkboardInput.carriageReturn :: ChalkboardInput.lineFeed :: b)
      current
    = (current ++ a) :: ChalkboardInput.splitLinesLoop b [].
Proof.
  induction a as [|c a IH]; intros Hlf current.
  - rewrite app_nil_r. reflexivity.
  - apply not_elem_of_cons in Hlf. destruct Hlf as [Hc Ha].
    assert (Ec : (c =? ChalkboardInput.lineFeed)%N = false)
      by (apply N.eqb_neq; congruence).
    destruct a as [|d a'].
    + change (ChalkboardInput.splitLinesLoop
                (c :: ChalkboardInput.carriageReturn
                   :: ChalkboardInput.lineFeed :: b) current
              = (current ++ [c]) :: ChalkboardInput.splitLinesLoop b []).
      rewrite splitLinesLoop_cons.
      change (ChalkboardInput.carriageReturn =? ChalkboardInput.lineFeed)%N
        with false.
      rewrite andb_false_r, Ec. rewrite splitLinesLoop_cons. reflexivity.
    + assert (Ed : (d =? ChalkboardInput.lineFeed)%N = false).
      { apply N.eqb_neq. apply not_elem_of_cons in Ha. intuition congruence. }
      change (ChalkboardInput.splitLinesLoop
                (c :: d :: (a' ++ ChalkboardInput.carriageReturn
                               :: ChalkboardInput.lineFeed :: b)) current
              = (current ++ c :: d :: a')
                :: ChalkboardInput.splitLinesLoop b []).
      rewrite splitLinesLoop_cons. rewrite Ed, andb_false_r, Ec.
      change (d :: a' ++ ChalkboardInput.carriageReturn
                   :: ChalkboardInput.lineFeed :: b)
        with ((d :: a') ++ ChalkboardInput.carriageReturn
                :: ChalkboardInput.lineFeed :: b).
      rewrite IH by exact Ha.
      rewrite <- app_assoc. reflexivity.
Qed.

(** X17. How a file is cut into lines.  A text without a line feed is one
    line, the text itself; and a text that continues after a stretch [a]
    without line feed is cut after [a]: the first line is [a] and the
    lines of what follows the line end come after it, the line end being
    a line feed, or a carriage return and a line feed.  A carriage return
    at the end of [a] before a bare line feed is part of the line end, not
    of the line. *)
Theorem lines_end_at_line_feeds (a b : list N) :
  ChalkboardInput.lineFeed ∉ a ->
  ChalkboardInput.splitLines a = [a]
  /\ ChalkboardInput.splitLines
       (a ++ [ChalkboardInput.carriageReturn; ChalkboardInput.lineFeed] ++ b)
     = a :: ChalkboardInput.splitLines b
  /\ (List.last a 0%N <> ChalkboardInput.carriageReturn ->
      ChalkboardInput.splitLines (a ++ [ChalkboardInput.lineFeed] ++ b)
      = a :: ChalkboardInput.splitLines b).
Proof.
  intros Hlf. unfold ChalkboardInput.splitLines. split; [|split].
  - apply (splitLinesLoop_line a Hlf []).
  - apply (splitLinesLoop_crlf a b Hlf []).
  - intros Hlast. apply (splitLinesLoop_line_feed a b Hlf Hlast []).
Qed.

Lemma lines_end_at_line_feeds_witness :
  ChalkboardInput.splitLines
    (str "pump" ++ [ChalkboardInput.carriageReturn; ChalkboardInput.lineFeed]
     ++ str "valve")
  = str "pump" :: ChalkboardInput.splitLines (str "valve").
Proof.
  refine (proj1 (proj2 (lines_end_at_line_feeds (str "pump") (str "valve") _))).
  vm_compute. intros H.
  repeat (apply elem_of_cons in H; destruct H as [H|H]; [discriminate|]).
  apply elem_of_nil in H. exact H.
Defined.

(** ** Importing a list *)

Lemma list_ind_two {A : Type} (P : list A -> Prop) :
  P [] -> (forall c, P [c]) ->
  (forall c d l, P l -> P (d :: l) -> P (c :: d :: l)) ->
  forall l, P l.
Proof.
  intros H0 H1 H2.
  assert (H : forall l, P l /\ forall c, P (c :: l)).
  { induction l as [|d l [IH1 IH2]]; [split; [exact H0|exact H1]|].
    split; [apply IH2|]. intros c. apply H2; [exact IH1|apply IH2]. }
  intros l. apply H.
Qed.

Lemma splitLinesLoop_units (s : list N) :
  forall current : list N,
    Forall (fun line =>
              (ChalkboardInput.lineFeed ∉ line)
              /\ (forall c, c ∈ line -> c ∈ current \/ c ∈ s))
           (ChalkboardInput.splitLinesLoop s current)
    \/ ChalkboardInput.lineFeed ∈ current.
Proof.
  induction s as [| c | c d rest IH1 IH2] using list_ind_two; intros current.
  - destruct (decide (ChalkboardInput.lineFeed ∈ current)) as [Hin|Hout];
      [right; exact Hin|left].
    simpl. constructor; [|constructor].
    split; [exact Hout|]. intros u Hu. left. exact Hu.
  - destruct (decide (ChalkboardInput.lineFeed ∈ current)) as [Hin|Hout];
      [right; exact Hin|left].
    simpl. destruct (c =? ChalkboardInput.lineFeed)%N eqn:Ec.
    + constructor; [|constructor; [|constructor]].
      * split; [exact Hout|]. intros u Hu. left. exact Hu.
      * split; [intros H; apply elem_of_nil in H; exact H|].
        intros u Hu. apply elem_of_nil in Hu. contradiction.
    + apply N.eqb_neq in Ec. constructor; [|constructor]. split.
      * intros H. apply elem_of_app in H. destruct H as [H|H]; [auto|].
        apply list_elem_of_singleton in H. congruence.
      * intros u H. apply elem_of_app in H. destruct H as [H|H]; [left; exact H|].
        right. exact H.
  - destruct (decide (ChalkboardInput.lineFeed ∈ current)) as [Hin|Hout];
      [right; exact Hin|left].
    rewrite splitLinesLoop_cons.
    assert (Hnil : ChalkboardInput.lineFeed ∉ @nil N)
      by (intros H; apply elem_of_nil in H; exact H).
    destruct ((c =? ChalkboardInput.carriageReturn)%N
              && (d =? ChalkboardInput.lineFeed)%N) eqn:Ecr.
    + constructor.
      * split; [exact Hout|]. intros u H. left. exact H.
      * destruct (IH1 []) as [H|H]; [|contradiction].
        eapply Forall_impl; [exact H|]. simpl. intros line [Hl Hu].
        split; [exact Hl|]. intros u Hin. right.
        destruct (Hu u Hin) as [H'|H'].
        -- apply elem_of_nil in H'. contradiction.
        -- do 2 apply list_elem_of_further. exact H'.
    + destruct (c =? ChalkboardInput.lineFeed)%N eqn:Ec.
      * constructor.
        -- split; [exact Hout|]. intros u H. left. exact H.
        -- destruct (IH2 []) as [H|H]; [|contradiction].
           eapply Forall_impl; [exact H|]. simpl. intros line [Hl Hu].
           split; [exact Hl|]. intros u Hin. right.
           destruct (Hu u Hin) as [H'|H'].
           ++ apply elem_of_nil in H'. contradiction.
           ++ apply list_elem_of_further. exact H'.
      * apply N.eqb_neq in Ec.
        destruct (IH2 (current ++ [c])) as [H|H].
        -- eapply Forall_impl; [exact H|]. simpl. intros line [Hl Hu].
           split; [exact Hl|]. intros u Hin.
           destruct (Hu u Hin) as [H'|H'].
           ++ apply elem_of_app in H'. destruct H' as [H'|H']; [left; exact H'|].
              apply list_elem_of_singleton in H'. subst u. right.
              apply list_elem_of_here.
           ++ right. apply list_elem_of_further. exact H'.
        -- apply elem_of_app in H. destruct H as [H|H]; [contradiction|].
           apply list_elem_of_singleton in H. congruence.
Qed.

Lemma splitLines_units (text : list N) :
  Forall (fun line =>
            (ChalkboardInput.lineFeed ∉ line)
            /\ (forall c, c ∈ line -> c ∈ text))
         (ChalkboardInput.splitLines text).
Proof.
  destruct (splitLinesLoop_units text []) as [H|H].
  - eapply Forall_impl; [exact H|]. simpl. intros line [Hl Hu].
    split; [exact Hl|]. intros c Hc. destruct (Hu c Hc) as [H'|H']; [|exact H'].
    apply elem_of_nil in H'. contradiction.
  - apply elem_of_nil in H. contradiction.
Qed.

Lemma uniqueLoop_spec (ls : list (list N)) :
  forall seen : list (list N),
    NoDup (ChalkboardInput.uniqueLoop seen ls)
    /\ (forall line, line ∈ ChalkboardInput.uniqueLoop seen ls
                     <-> line ∈ ls /\ line ∉ seen)
    /\ sublist (ChalkboardInput.uniqueLoop seen ls) ls.
Proof.
  induction ls as [|l rest IH]; intros seen; simpl.
  - split; [apply NoDup_nil; exact I|]. split; [|constructor].
    intros line. split; [intros H|intros [H _]]; apply elem_of_nil in H;
      contradiction.
  - destruct (bool_decide (l ∈ seen)) eqn:E.
    + apply bool_decide_eq_true in E.
      destruct (IH seen) as (Hnd & Hin & Hsub).
      split; [exact Hnd|]. split; [|apply sublist_cons; exact Hsub].
      intros line. rewrite Hin, elem_of_cons. split; [tauto|].
      intros [[->|H] Hout]; [contradiction|tauto].
    + apply bool_decide_eq_false in E.
      destruct (IH (l :: seen)) as (Hnd & Hin & Hsub).
      split; [|split; [|apply sublist_skip; exact Hsub]].
      * apply NoDup_cons. split; [|exact Hnd].
        rewrite Hin. rewrite elem_of_cons. tauto.
      * intros line. rewrite !elem_of_cons, Hin, elem_of_cons.
        destruct (decide (line = l)) as [->|Hne]; tauto.
Qed.

Lemma filter_sublist {A : Type} (keep : A -> bool) (l : list A) :
  sublist (List.filter keep l) l.
Proof.
  induction l as [|x l IH]; simpl; [constructor|].
  destruct (keep x); [apply sublist_skip|apply sublist_cons]; exact IH.
Qed.

Lemma uniqueLoop_order (ls : list (list N)) :
  forall (seen before : list (list N)) (line : list N) (after : list (list N)),
    ChalkboardInput.uniqueLoop seen ls = before ++ line :: after ->
    exists l1 l2 : list (list N),
      ls = l1 ++ line :: l2
      /\ (line ∉ l1)
      /\ (forall later, later ∈ after -> later ∉ l1).
Proof.
  induction ls as [|l rest IH]; intros seen before line after E; simpl in E.
  - destruct before; discriminate E.
  - assert (Hout : forall u seen' pre,
               ChalkboardInput.uniqueLoop seen' rest = pre ++ line :: after ->
               u = line \/ u ∈ after -> u ∉ seen').
    { intros u seen' pre Eout Hu.
      destruct (uniqueLoop_spec rest seen') as (_ & Hin & _).
      apply (Hin u). rewrite Eout. apply elem_of_app. right.
      destruct Hu as [->|Hu];
        [apply list_elem_of_here|apply list_elem_of_further; exact Hu]. }
    destruct (bool_decide (l ∈ seen)) eqn:El.
    + apply bool_decide_eq_true in El.
      destruct (IH seen before line after E) as (l1 & l2 & Els & Hline & Hlater).
      exists (l :: l1), l2. split; [rewrite Els; reflexivity|].
      split; [|intros later Hl]; rewrite not_elem_of_cons; split;
        try (apply Hlater; exact Hl); try exact Hline; intros Heq;
        subst l.
      * apply (Hout line seen before E); [left; reflexivity|exact El].
      * apply (Hout later seen before E); [right; exact Hl|exact El].
    + destruct before as [|first before].
      * injection E as -> E. exists [], rest. split; [reflexivity|].
        split; [|intros later _]; apply not_elem_of_nil.
      * injection E as -> E.
        destruct (IH (first :: seen) before line after E)
          as (l1 & l2 & Els & Hline & Hlater).
        exists (first :: l1), l2. split; [rewrite Els; reflexivity|].
        split; [|intros later Hl]; rewrite not_elem_of_cons; split;
          try (apply Hlater; exact Hl); try exact Hline; intros Heq;
          subst first.
        -- apply (Hout line (line :: seen) before E);
             [left; reflexivity|apply list_elem_of_here].
        -- apply (Hout later (later :: seen) before E);
             [right; exact Hl|apply list_elem_of_here].
Qed.

Lemma filter_split {A : Type} (keep : A -> bool) (l : list A) :
  forall (k1 : list A) (a : A) (k2 : list A),
    List.filter keep l = k1 ++ a :: k2 ->
    exists l1 l2 : list A,
      l = l1 ++ a :: l2 /\ List.filter keep l1 = k1.
Proof.
  induction l as [|x l IH]; intros k1 a k2 E; simpl in E.
  - destruct k1; discriminate E.
  - destruct (keep x) eqn:Ex.
    + destruct k1 as [|y k1].
      * injection E as -> E. exists [], l. split; reflexivity.
      * injection E as -> E. destruct (IH k1 a k2 E) as (l1 & l2 & -> & Hk).
        exists (y :: l1), l2. split; [reflexivity|].
        simpl. rewrite Ex, Hk. reflexivity.
    + destruct (IH k1 a k2 E) as (l1 & l2 & -> & Hk).
      exists (x :: l1), l2. split; [reflexivity|].
      simpl. rewrite Ex. exact Hk.
Qed.

(** X18. What an import puts in a list.  Whatever the file holds, the
    list is replaced by lines of the file: exactly those that are not
    blank, each once, in the order of their first occurrence in the file,
    none of them containing a line feed.  The order is stated for every
    option of the list: the file has a line equal to it before which
    neither it nor any option that follows it in the list occurs.  The
    message tells how many were saved, or that the list was not updated
    when there is none. *)
Theorem imported_options_are_distinct_lines
    (setOptions : (list (list N) -> list (list N)) ->
                  ChalkboardInput.SavedOptions -> ChalkboardInput.SavedOptions)
    (listName text : list N) (saved : ChalkboardInput.SavedOptions) :
  exists options : list (list N),
    ChalkboardInput.onload setOptions listName text saved
    = (setOptions (fun _ => options) saved,
       if (0 <? length options)%nat
       then ChalkboardInput.ListUpdated listName (length options)
       else ChalkboardInput.ListNotUpdated)
    /\ NoDup options
    /\ (forall line, line ∈ options
                     <-> line ∈ ChalkboardInput.splitLines text
                         /\ trim line <> [])
    /\ sublist options (ChalkboardInput.splitLines text)
    /\ (forall (before : list (list N)) (line : list N)
               (after : list (list N)),
          options = before ++ line :: after ->
          exists l1 l2 : list (list N),
            ChalkboardInput.splitLines text = l1 ++ line :: l2
            /\ (line ∉ l1)
            /\ (forall later, later ∈ after -> later ∉ l1))
    /\ Forall (fun line => ChalkboardInput.lineFeed ∉ line) options.
Proof.
  set (keep := fun line : list N => negb (isEmptyString (trim line))).
  set (kept := List.filter keep (ChalkboardInput.splitLines text)).
  exists (ChalkboardInput.unique kept).
  destruct (uniqueLoop_spec kept []) as (Hnd & Hin & Hsub).
  fold (ChalkboardInput.unique kept) in Hnd, Hin, Hsub.
  assert (Hkeep : forall line, keep line = true <-> trim line <> []).
  { intros line. unfold keep. destruct (trim line); simpl; split;
      congruence. }
  assert (Hmem : forall line, line ∈ ChalkboardInput.unique kept
                 <-> line ∈ ChalkboardInput.splitLines text /\ trim line <> []).
  { intros line. rewrite Hin. unfold kept.
    rewrite !list_elem_of_In, filter_In, <- !list_elem_of_In, Hkeep.
    split; [intros [H _]; exact H|intros H; split; [exact H|]].
    apply not_elem_of_nil. }
  split; [|split; [exact Hnd|split; [exact Hmem|split; [|split]]]].
  - unfold ChalkboardInput.onload. cbv zeta. fold keep. fold kept.
    destruct (0 <? length (ChalkboardInput.unique kept))%nat; reflexivity.
  - transitivity kept; [exact Hsub|apply filter_sublist].
  - intros before line after E.
    assert (Hkept : forall u, u = line \/ u ∈ after -> keep u = true).
    { intros u Hu. apply Hkeep.
      apply (proj2 (proj1 (Hmem u)
                      ltac:(rewrite E; apply elem_of_app; right;
                            destruct Hu as [->|Hu];
                            [apply list_elem_of_here
                            |apply list_elem_of_further; exact Hu]))). }
    destruct (uniqueLoop_order kept [] before line after E)
      as (k1 & k2 & Ek & Hline & Hlater).
    destruct (filter_split keep _ k1 line k2 Ek) as (l1 & l2 & El & Hk1).
    exists l1, l2. split; [exact El|].
    assert (Hback : forall u, keep u = true -> u ∉ k1 -> u ∉ l1).
    { intros u Hu Hout Hl. apply Hout. rewrite <- Hk1.
      apply list_elem_of_In, filter_In. split; [|exact Hu].
      apply list_elem_of_In. exact Hl. }
    split.
    + apply Hback; [apply Hkept; left; reflexivity|exact Hline].
    + intros later Hl.
      apply Hback; [apply Hkept; right; exact Hl|apply Hlater; exact Hl].
  - apply Forall_forall. intros line Hline. apply Hmem in Hline.
    destruct Hline as [Hline _].
    pose proof (splitLines_units text) as Hunits.
    rewrite Forall_forall in Hunits. apply (Hunits line Hline).
Qed.

(** X19. A file with no usable line empties the list.  When the file is
    empty or holds white space only, the setter of the list imported into
    is called with the empty array, while the message shown is the one
    saying that the list was not updated.  For either of the two lists
    that have an import button, the list is then empty, whatever it held,
    and the other lists are as they were. *)
Theorem blank_file_empties_list
    (setOptions : (list (list N) -> list (list N)) ->
                  ChalkboardInput.SavedOptions -> ChalkboardInput.SavedOptions)
    (listName text : list N) (saved : ChalkboardInput.SavedOptions) :
  forallb isWhiteSpace text = true ->
  ChalkboardInput.onload setOptions listName text saved
  = (setOptions (fun _ => []) saved, ChalkboardInput.ListNotUpdated)
  /\ ChalkboardInput.onload ChalkboardInput.setSavedOptionsForField1
                            listName text saved
     = ({| ChalkboardInput.savedOptionsForField1 := [];
           ChalkboardInput.savedOptionsForField2 :=
             ChalkboardInput.savedOptionsForField2 saved;
           ChalkboardInput.savedOptionsForField3 :=
             ChalkboardInput.savedOptionsForField3 saved |},
        ChalkboardInput.ListNotUpdated)
  /\ ChalkboardInput.onload ChalkboardInput.setSavedOptionsForField2
                            listName text saved
     = ({| ChalkboardInput.savedOptionsForField1 :=
             ChalkboardInput.savedOptionsForField1 saved;
           ChalkboardInput.savedOptionsForField2 := [];
           ChalkboardInput.savedOptionsForField3 :=
             ChalkboardInput.savedOptionsForField3 saved |},
        ChalkboardInput.ListNotUpdated).
Proof.
  intros Hblank.
  assert (Hkept : List.filter (fun line => negb (isEmptyString (trim line)))
                              (ChalkboardInput.splitLines text) = []).
  { pose proof (splitLines_units text) as Hunits.
    induction Hunits as [|line rest [_ Hline] _ IH]; [reflexivity|].
    simpl. rewrite IH.
    assert (E : trim line = []).
    { apply trim_nil_iff. apply forallb_forall. intros c Hc.
      rewrite forallb_forall in Hblank. apply Hblank.
      apply list_elem_of_In. apply Hline. apply list_elem_of_In. exact Hc. }
    rewrite E. reflexivity. }
  unfold ChalkboardInput.onload. cbv zeta. rewrite Hkept.
  repeat split.
Qed.

Lemma blank_file_empties_list_witness :
  ChalkboardInput.onload ChalkboardInput.setSavedOptionsForField2
    (str "Equipment") [32; 13; 10; 9; 10]%N
    {| ChalkboardInput.savedOptionsForField1 := [str "Pump 3"; str "Valve"];
       ChalkboardInput.savedOptionsForField2 := [str "Inlet"];
       ChalkboardInput.savedOptionsForField3 := [] |}
  = ({| ChalkboardInput.savedOptionsForField1 := [str "Pump 3"; str "Valve"];
        ChalkboardInput.savedOptionsForField2 := [];
        ChalkboardInput.savedOptionsForField3 := [] |},
     ChalkboardInput.ListNotUpdated).
Proof.
  exact (proj2 (proj2
           (blank_file_empties_list ChalkboardInput.setSavedOptionsForField2
              (str "Equipment") [32; 13; 10; 9; 10]%N
              {| ChalkboardInput.savedOptionsForField1 :=
                   [str "Pump 3"; str "Valve"];
                 ChalkboardInput.savedOptionsForField2 := [str "Inlet"];
                 ChalkboardInput.savedOptionsForField3 := [] |}
              eq_refl))).
Defined.

(** An import, run: a file with a repeated line, a blank line and both
    kinds of line end. *)
Example import_sample :
  fst (ChalkboardInput.onload ChalkboardInput.setSavedOptionsForField1
         (str "Equipment")
         (str "pump" ++ [13; 10]%N ++ str "valve" ++ [10]%N ++ str "  "
          ++ [10]%N ++ str "pump" ++ [10]%N)
         {| ChalkboardInput.savedOptionsForField1 := [str "old"];
            ChalkboardInput.savedOptionsForField2 := [];
            ChalkboardInput.savedOptionsForField3 := [] |})
  = {| ChalkboardInput.savedOptionsForField1 := [str "pump"; str "valve"];
       ChalkboardInput.savedOptionsForField2 := [];
       ChalkboardInput.savedOptionsForField3 := [] |}.
Proof. vm_compute. reflexivity. Qed.

(** ** Saving and deleting options *)

Lemma caseDistinct_cons (toLowerCase : list N -> list N) (textToAdd : list N)
    (options : list (list N)) :
  existsb (fun opt => bool_decide (toLowerCase opt = toLowerCase textToAdd))
          options = false ->
  caseDistinct toLowerCase options ->
  caseDistinct toLowerCase (textToAdd :: options).
Proof.
  intros Hnew Hd. unfold caseDistinct in *. simpl. apply NoDup_cons.
  split; [|exact Hd].
  intros Hin. apply list_elem_of_In, in_map_iff in Hin.
  destruct Hin as (opt & Heq & Hopt).
  assert (Hex : existsb (fun opt => bool_decide (toLowerCase opt
                                                 = toLowerCase textToAdd))
                        options = true).
  { apply existsb_exists. exists opt. split; [exact Hopt|].
    apply bool_decide_eq_true. exact Heq. }
  congruence.
Qed.

Lemma caseDistinct_filter (toLowerCase : list N -> list N)
    (keep : list N -> bool) (options : list (list N)) :
  caseDistinct toLowerCase options ->
  caseDistinct toLowerCase (List.filter keep options).
Proof.
  unfold caseDistinct. induction options as [|opt rest IH]; intros Hd; simpl.
  - exact Hd.
  - simpl in Hd. apply NoDup_cons in Hd. destruct Hd as [Hout Hd].
    destruct (keep opt); [|apply IH; exact Hd].
    simpl. apply NoDup_cons. split; [|apply IH; exact Hd].
    intros Hin. apply Hout.
    apply list_elem_of_In, in_map_iff in Hin. destruct Hin as (o & Heq & Ho).
    apply filter_In in Ho. destruct Ho as [Ho _].
    apply list_elem_of_In, in_map_iff. exists o. split; assumption.
Qed.

Lemma applyEdit_caseDistinct (toLowerCase : list N -> list N)
    (saved : ChalkboardInput.SavedOptions) (edit : ListEdit) :
  allCaseDistinct toLowerCase saved ->
  allCaseDistinct toLowerCase (applyEdit toLowerCase saved edit).
Proof.
  intros (H1 & H2 & H3). destruct edit as [texts index value|target option].
  - simpl. unfold ChalkboardInput.handleAddItemToList. cbv zeta.
    destruct (isEmptyString (trim value)); [repeat split; assumption|].
    destruct (index =? 1)%nat;
      [|destruct (index =? 3)%nat; [|destruct (index =? 5)%nat]];
      simpl;
      try (repeat split; assumption);
      match goal with
      | |- context [existsb ?f ?l] => destruct (existsb f l) eqn:E
      end; simpl; unfold allCaseDistinct; simpl;
      repeat split; try assumption; apply caseDistinct_cons; assumption.
  - simpl. unfold ChalkboardInput.onDelete.
    destruct target as [[|[|[|[|[|[|n]]]]]]|]; simpl;
      unfold allCaseDistinct; simpl; repeat split; try assumption;
      apply caseDistinct_filter; assumption.
Qed.

(** X20. Saving with SET and deleting in the modal never produce two
    options that differ only by case.  If in each of the three lists no
    two options have the same lower-case form, then this is still so after
    any sequence of such edits, whatever their cells, texts and targets,
    and whatever lower-casing is. *)
Theorem saved_lists_stay_case_distinct (toLowerCase : list N -> list N)
    (edits : list ListEdit) (saved : ChalkboardInput.SavedOptions) :
  allCaseDistinct toLowerCase saved ->
  allCaseDistinct toLowerCase (fold_left (applyEdit toLowerCase) edits saved).
Proof.
  revert saved. induction edits as [|edit rest IH]; intros saved Hd; simpl.
  - exact Hd.
  - apply IH. apply applyEdit_caseDistinct. exact Hd.
Qed.

Lemma saved_lists_stay_case_distinct_witness :
  allCaseDistinct asciiLowerCase
    (fold_left (applyEdit asciiLowerCase)
       [AddItem sampleTexts 1 (str " Pump 3 "); AddItem sampleTexts 1 (str "PUMP 3");
        DeleteOption (Some 1%nat) (str "Valve")]
       {| ChalkboardInput.savedOptionsForField1 := [str "Valve"];
          ChalkboardInput.savedOptionsForField2 := [];
          ChalkboardInput.savedOptionsForField3 := [] |}).
Proof.
  apply (saved_lists_stay_case_distinct asciiLowerCase
           [AddItem sampleTexts 1 (str " Pump 3 ");
            AddItem sampleTexts 1 (str "PUMP 3");
            DeleteOption (Some 1%nat) (str "Valve")]
           {| ChalkboardInput.savedOptionsForField1 := [str "Valve"];
              ChalkboardInput.savedOptionsForField2 := [];
              ChalkboardInput.savedOptionsForField3 := [] |}).
  unfold allCaseDistinct, caseDistinct. simpl.
  repeat split; repeat constructor; intros H; inversion H.
Defined.

(** The edits of that run: the text is saved trimmed, the same text in
    other case is refused, and the deleted option is gone. *)
Example saved_lists_sample :
  fold_left (applyEdit asciiLowerCase)
    [AddItem sampleTexts 1 (str " Pump 3 "); AddItem sampleTexts 1 (str "PUMP 3");
     DeleteOption (Some 1%nat) (str "Valve")]
    {| ChalkboardInput.savedOptionsForField1 := [str "Valve"];
       ChalkboardInput.savedOptionsForField2 := [];
       ChalkboardInput.savedOptionsForField3 := [] |}
  = {| ChalkboardInput.savedOptionsForField1 := [str "Pump 3"];
       ChalkboardInput.savedOptionsForField2 := [];
       ChalkboardInput.savedOptionsForField3 := [] |}.
Proof. vm_compute. reflexivity. Qed.

(** X21. After SET, the text is in the list.  For a text that is not
    blank in a cell that has a list (cell 1, 3 or 5), the list of that
    cell afterwards holds an option whose lower-case form is that of the
    trimmed text.  When the list held such an option already, nothing is
    changed; when it held none, the list is the trimmed text followed by
    what the list held.  The other lists are as they were. *)
Theorem saved_text_is_listed (toLowerCase : list N -> list N)
    (texts : list (list N)) (index : nat) (value : list N)
    (saved : ChalkboardInput.SavedOptions) :
  trim value <> [] ->
  index = 1%nat \/ index = 3%nat \/ index = 5%nat ->
  let listOf :=
    fun s : ChalkboardInput.SavedOptions =>
      if (index =? 1)%nat then ChalkboardInput.savedOptionsForField1 s
      else if (index =? 3)%nat then ChalkboardInput.savedOptionsForField2 s
      else ChalkboardInput.savedOptionsForField3 s in
  let saved' :=
    fst (ChalkboardInput.handleAddItemToList toLowerCase texts index value
                                             saved) in
  (exists option,
     In option (listOf saved')
     /\ toLowerCase option = toLowerCase (trim value))
  /\ ((exists option,
         In option (listOf saved)
         /\ toLowerCase option = toLowerCase (trim value)) ->
      saved' = saved)
  /\ ((forall option,
         In option (listOf saved) ->
         toLowerCase option <> toLowerCase (trim value)) ->
      listOf saved' = trim value :: listOf saved)
  /\ (index <> 1%nat ->
      ChalkboardInput.savedOptionsForField1 saved'
      = ChalkboardInput.savedOptionsForField1 saved)
  /\ (index <> 3%nat ->
      ChalkboardInput.savedOptionsForField2 saved'
      = ChalkboardInput.savedOptionsForField2 saved)
  /\ (index <> 5%nat ->
      ChalkboardInput.savedOptionsForField3 saved'
      = ChalkboardInput.savedOptionsForField3 saved).
Proof.
  intros Htext Hindex. cbv zeta.
  unfold ChalkboardInput.handleAddItemToList. cbv zeta.
  destruct (trim value) as [|c rest] eqn:Etrim; [contradiction|].
  simpl isEmptyString. cbv iota.
  destruct Hindex as [-> | [-> | ->]]; simpl;
    match goal with
    | |- context [existsb ?f ?l] => destruct (existsb f l) eqn:E
    end; simpl.
  all: split;
    [ first
        [ apply existsb_exists in E; destruct E as (option & Hin & Heq);
          apply bool_decide_eq_true in Heq; exists option; split; assumption
        | exists (c :: rest); split; [left; reflexivity|reflexivity] ]
    | ].
  all: split;
    [ first
        [ reflexivity
        | intros (option & Hin & Heq); exfalso;
          assert (Hex : existsb
                          (fun opt =>
                             bool_decide (toLowerCase opt
                                          = toLowerCase (c :: rest))) _ = true)
            by (apply existsb_exists; exists option;
                split; [exact Hin|apply bool_decide_eq_true; exact Heq]);
          rewrite E in Hex; discriminate Hex ]
    | ].
  all: split;
    [ first
        [ reflexivity
        | intros Hnone; exfalso;
          apply existsb_exists in E; destruct E as (option & Hin & Heq);
          apply bool_decide_eq_true in Heq; exact (Hnone option Hin Heq) ]
    | ].
  all: repeat split; intros; first [reflexivity | congruence].
Qed.

Lemma saved_text_is_listed_witness :
  fst (ChalkboardInput.handleAddItemToList asciiLowerCase sampleTexts 1
         (str " PUMP 3 ")
         {| ChalkboardInput.savedOptionsForField1 := [str "Pump 3"];
            ChalkboardInput.savedOptionsForField2 := [];
            ChalkboardInput.savedOptionsForField3 := [] |})
  = {| ChalkboardInput.savedOptionsForField1 := [str "Pump 3"];
       ChalkboardInput.savedOptionsForField2 := [];
       ChalkboardInput.savedOptionsForField3 := [] |}.
Proof.
  apply (proj1 (proj2 (saved_text_is_listed asciiLowerCase sampleTexts 1
                         (str " PUMP 3 ")
                         {| ChalkboardInput.savedOptionsForField1 := [str "Pump 3"];
                            ChalkboardInput.savedOptionsForField2 := [];
                            ChalkboardInput.savedOptionsForField3 := [] |}
                         ltac:(vm_compute; discriminate) (or_introl eq_refl)))).
  exists (str "Pump 3"). split; [left; reflexivity|vm_compute; reflexivity].
Defined.

(** ** Editing a cell *)




(** ** Loading saved options *)

(** X23. Corrupt saved options do not survive a load.  Whatever
    [JSON.parse] does, [getSavedOptions] touches no other key; under its
    key it leaves nothing, or the empty string, or a text that parses to
    an array of strings; and it returns that array in the last case and
    the default options in the others.  A text that does not parse, or
    parses to something else, is removed. *)
Theorem corrupt_saved_options_are_reset
    (parse : list N -> option ChalkboardInput.JSONValue)
    (key : list N) (defaultOptions : list (list N))
    (localStorage : gmap (list N) (list N)) :
  let options :=
    fst (ChalkboardInput.getSavedOptions parse key defaultOptions localStorage) in
  let storage :=
    snd (ChalkboardInput.getSavedOptions parse key defaultOptions localStorage) in
  (forall other, other <> key -> storage !! other = localStorage !! other)
  /\ (storage !! key = localStorage !! key \/ storage !! key = None)
  /\ match storage !! key with
     | Some items =>
         (items = [] /\ options = defaultOptions)
         \/ exists parsed,
              parse items = Some parsed
              /\ ChalkboardInput.stringArray parsed = Some options
     | None => options = defaultOptions
     end.
Proof.
  cbv zeta. unfold ChalkboardInput.getSavedOptions.
  destruct (localStorage !! key) as [items|] eqn:Ekey.
  - destruct items as [|c items]; simpl isEmptyString; cbv iota.
    + simpl. rewrite Ekey. repeat split; auto.
    + destruct (parse (c :: items)) as [parsed|] eqn:Eparse.
      * destruct (ChalkboardInput.stringArray parsed) as [options|] eqn:Earr;
          simpl.
        -- rewrite Ekey. repeat split; auto. right. exists parsed. auto.
        -- rewrite lookup_delete_eq. repeat split; auto.
           intros other Hne. apply lookup_delete_ne. congruence.
      * simpl. rewrite lookup_delete_eq. repeat split; auto.
        intros other Hne. apply lookup_delete_ne. congruence.
  - simpl. rewrite Ekey. repeat split; auto.
Qed.

(** * The service worker *)

(** ** Caches *)

Lemma cacheMatch_app (c1 c2 : list (string * ServiceWorker.Response))
    (url : string) :
  ServiceWorker.cacheMatch (c1 ++ c2) url
  = match ServiceWorker.cacheMatch c1 url with
    | Some response => Some response
    | None => ServiceWorker.cacheMatch c2 url
    end.
Proof.
  induction c1 as [|[key response] rest IH]; simpl; [reflexivity|].
  destruct (String.eqb key url); [reflexivity|exact IH].
Qed.

Lemma cacheMatch_without (cache : list (string * ServiceWorker.Response))
    (url url' : string) :
  ServiceWorker.cacheMatch
    (List.filter (fun entry => negb (String.eqb (fst entry) url)) cache) url'
  = if String.eqb url url' then None else ServiceWorker.cacheMatch cache url'.
Proof.
  induction cache as [|[key response] rest IH]; simpl.
  - destruct (String.eqb url url'); reflexivity.
  - destruct (String.eqb key url) eqn:E; simpl.
    + apply String.eqb_eq in E. subst key. rewrite IH.
      destruct (String.eqb url url'); reflexivity.
    + rewrite IH. destruct (String.eqb key url') eqn:E'; [|reflexivity].
      apply String.eqb_eq in E'. subst url'. rewrite String.eqb_sym, E.
      reflexivity.
Qed.

Lemma cacheMatch_put (cache : list (string * ServiceWorker.Response))
    (url url' : string) (response : ServiceWorker.Response) :
  ServiceWorker.cacheMatch (ServiceWorker.cachePut cache url response) url'
  = if String.eqb url url' then Some response
    else ServiceWorker.cacheMatch cache url'.
Proof.
  unfold ServiceWorker.cachePut. rewrite cacheMatch_app, cacheMatch_without.
  simpl. destruct (String.eqb url url'); [reflexivity|].
  destruct (ServiceWorker.cacheMatch cache url'); reflexivity.
Qed.

Lemma storageGet_open (caches : list (string * list (string * ServiceWorker.Response)))
    (cacheName : string) :
  ServiceWorker.storageGet (ServiceWorker.storageOpen caches cacheName) cacheName
  = Some (default [] (ServiceWorker.storageGet caches cacheName)).
Proof.
  unfold ServiceWorker.storageOpen.
  destruct (ServiceWorker.storageGet caches cacheName) as [cache|] eqn:E;
    [exact E|].
  induction caches as [|[name cache] rest IH]; simpl in *.
  - rewrite String.eqb_refl. reflexivity.
  - destruct (String.eqb name cacheName); [discriminate|]. apply IH. exact E.
Qed.

Lemma storageOpen_again (caches : list (string * list (string * ServiceWorker.Response)))
    (cacheName : string) (cache : list (string * ServiceWorker.Response)) :
  ServiceWorker.storageGet caches cacheName = Some cache ->
  ServiceWorker.storageOpen caches cacheName = caches.
Proof. intros E. unfold ServiceWorker.storageOpen. rewrite E. reflexivity. Qed.

Lemma storageMatch_app (s1 s2 : list (string * list (string * ServiceWorker.Response)))
    (url : string) :
  ServiceWorker.storageMatch (s1 ++ s2) url
  = match ServiceWorker.storageMatch s1 url with
    | Some response => Some response
    | None => ServiceWorker.storageMatch s2 url
    end.
Proof.
  induction s1 as [|[name cache] rest IH]; simpl; [reflexivity|].
  destruct (ServiceWorker.cacheMatch cache url); [reflexivity|exact IH].
Qed.

Lemma storageMatch_open (caches : list (string * list (string * ServiceWorker.Response)))
    (cacheName url : string) :
  ServiceWorker.storageMatch (ServiceWorker.storageOpen caches cacheName) url
  = ServiceWorker.storageMatch caches url.
Proof.
  unfold ServiceWorker.storageOpen.
  destruct (ServiceWorker.storageGet caches cacheName); [reflexivity|].
  rewrite storageMatch_app. simpl.
  destruct (ServiceWorker.storageMatch caches url); reflexivity.
Qed.

Lemma storageGet_update (caches : list (string * list (string * ServiceWorker.Response)))
    (cacheName : string)
    (change : list (string * ServiceWorker.Response)
              -> list (string * ServiceWorker.Response)) :
  ServiceWorker.storageGet
    (ServiceWorker.storageUpdate caches cacheName change) cacheName
  = option_map change (ServiceWorker.storageGet caches cacheName).
Proof.
  induction caches as [|[name cache] rest IH]; simpl; [reflexivity|].
  destruct (String.eqb name cacheName) eqn:E; simpl; rewrite E;
    [reflexivity|exact IH].
Qed.

(** ** Requests that are fetched once *)

(** X24. A response fetched once is served from the cache afterwards.
    When a GET request that is not a navigation finds nothing under its
    URL in the application's cache, and the network answers it with status
    200 and type [basic] or [cors], the worker answers with that response;
    and from then on it answers the same request with the same response,
    leaving the storage as it is, whatever the network does, even when it
    is down. *)
Theorem fetched_once_served_from_cache
    (fetch : ServiceWorker.Request -> option ServiceWorker.Response)
    (request : ServiceWorker.Request)
    (caches : list (string * list (string * ServiceWorker.Response)))
    (networkResponse : ServiceWorker.Response) :
  ServiceWorker.method request = "GET"%string ->
  ServiceWorker.mode request <> "navigate"%string ->
  ServiceWorker.cacheMatch
    (default [] (ServiceWorker.storageGet caches ServiceWorker.CACHE_NAME))
    (ServiceWorker.url request) = None ->
  fetch request = Some networkResponse ->
  ServiceWorker.status networkResponse = 200%Z ->
  ServiceWorker.type networkResponse = "basic"%string
  \/ ServiceWorker.type networkResponse = "cors"%string ->
  let caches' := snd (ServiceWorker.onFetch fetch request caches) in
  fst (ServiceWorker.onFetch fetch request caches)
  = ServiceWorker.Responded networkResponse
  /\ forall network : ServiceWorker.Request -> option ServiceWorker.Response,
       ServiceWorker.onFetch network request caches'
       = (ServiceWorker.Responded networkResponse, caches').
Proof.
  intros Hmethod Hmode Hmiss Hfetch Hstatus Htype. cbv zeta.
  assert (Enav : String.eqb (ServiceWorker.mode request) "navigate" = false)
    by (apply String.eqb_neq; exact Hmode).
  assert (Etype : String.eqb (ServiceWorker.type networkResponse) "basic"
                  || String.eqb (ServiceWorker.type networkResponse) "cors"
                  = true).
  { destruct Htype as [-> | ->]; reflexivity. }
  assert (Eonce :
    ServiceWorker.onFetch fetch request caches
    = (ServiceWorker.Responded networkResponse,
       ServiceWorker.storageUpdate
         (ServiceWorker.storageOpen caches ServiceWorker.CACHE_NAME)
         ServiceWorker.CACHE_NAME
         (fun cache => ServiceWorker.cachePut cache (ServiceWorker.url request)
                                              networkResponse))).
  { unfold ServiceWorker.onFetch. rewrite Hmethod, Enav. simpl negb. cbv iota.
    cbv zeta. rewrite storageGet_open. simpl default. rewrite Hmiss, Hfetch.
    rewrite Hstatus, Etype. reflexivity. }
  rewrite Eonce. simpl fst. simpl snd. split; [reflexivity|].
  intros network.
  set (caches' := ServiceWorker.storageUpdate _ _ _).
  assert (Eget : ServiceWorker.storageGet caches' ServiceWorker.CACHE_NAME
                 = Some (ServiceWorker.cachePut
                           (default [] (ServiceWorker.storageGet
                                          caches ServiceWorker.CACHE_NAME))
                           (ServiceWorker.url request) networkResponse)).
  { unfold caches'. rewrite storageGet_update, storageGet_open. reflexivity. }
  unfold ServiceWorker.onFetch. rewrite Hmethod, Enav. simpl negb. cbv iota.
  cbv zeta. rewrite (storageOpen_again _ _ _ Eget), Eget. simpl default.
  rewrite cacheMatch_put, String.eqb_refl. reflexivity.
Qed.

Lemma fetched_once_served_from_cache_witness :
  let request :=
    {| ServiceWorker.method := "GET"; ServiceWorker.mode := "no-cors";
       ServiceWorker.url := "./assets/style.css" |} in
  let response :=
    {| ServiceWorker.status := 200; ServiceWorker.type := "basic";
       ServiceWorker.body := "./assets/style.css" |} in
  let caches' := snd (ServiceWorker.onFetch online request []) in
  fst (ServiceWorker.onFetch online request [])
  = ServiceWorker.Responded response
  /\ forall network : ServiceWorker.Request -> option ServiceWorker.Response,
       ServiceWorker.onFetch network request caches'
       = (ServiceWorker.Responded response, caches').
Proof.
  apply (fetched_once_served_from_cache online
           {| ServiceWorker.method := "GET"; ServiceWorker.mode := "no-cors";
              ServiceWorker.url := "./assets/style.css" |}
           []
           {| ServiceWorker.status := 200; ServiceWorker.type := "basic";
              ServiceWorker.body := "./assets/style.css" |});
    first [reflexivity | discriminate | left; reflexivity].
Defined.

(** ** Installing and activating *)

Lemma storageOpen_exists (caches : list (string * list (string * ServiceWorker.Response)))
    (cacheName : string) :
  Exists (fun entry => String.eqb (fst entry) cacheName = true)
         (ServiceWorker.storageOpen caches cacheName).
Proof.
  unfold ServiceWorker.storageOpen.
  destruct (ServiceWorker.storageGet caches cacheName) as [cache|] eqn:E.
  - induction caches as [|[name c] rest IH]; simpl in E; [discriminate|].
    destruct (String.eqb name cacheName) eqn:En.
    + apply Exists_cons_hd. exact En.
    + apply Exists_cons_tl. apply IH. exact E.
  - apply Exists_app. right. apply Exists_cons_hd. simpl.
    apply String.eqb_refl.
Qed.

Lemma storageUpdate_exists (caches : list (string * list (string * ServiceWorker.Response)))
    (cacheName : string)
    (change : list (string * ServiceWorker.Response)
              -> list (string * ServiceWorker.Response)) :
  Exists (fun entry => String.eqb (fst entry) cacheName = true) caches ->
  Exists (fun entry => String.eqb (fst entry) cacheName = true)
         (ServiceWorker.storageUpdate caches cacheName change).
Proof.
  intros H. induction H as [[name c] rest H|[name c] rest H IH]; simpl in *.
  - apply Exists_cons_hd. rewrite H. exact H.
  - apply Exists_cons_tl. exact IH.
Qed.

Lemma storageUpdate_establishes (url : string) (response : ServiceWorker.Response)
    (caches : list (string * list (string * ServiceWorker.Response)))
    (change : list (string * ServiceWorker.Response)
              -> list (string * ServiceWorker.Response)) :
  (forall cache, ServiceWorker.cacheMatch (change cache) url = Some response) ->
  Exists (fun entry => String.eqb (fst entry) ServiceWorker.CACHE_NAME = true)
         caches ->
  cachedInApp url response
    (ServiceWorker.storageUpdate caches ServiceWorker.CACHE_NAME change).
Proof.
  intros Hchange Hex. split; [apply storageUpdate_exists; exact Hex|].
  clear Hex. induction caches as [|[name c] rest IH]; simpl; constructor.
  - destruct (String.eqb name ServiceWorker.CACHE_NAME) eqn:E; simpl.
    + intros _. apply Hchange.
    + intros H. congruence.
  - exact IH.
Qed.

Lemma storageUpdate_preserves (url : string) (response : ServiceWorker.Response)
    (caches : list (string * list (string * ServiceWorker.Response)))
    (change : list (string * ServiceWorker.Response)
              -> list (string * ServiceWorker.Response)) :
  (forall cache, ServiceWorker.cacheMatch cache url = Some response ->
                 ServiceWorker.cacheMatch (change cache) url = Some response) ->
  cachedInApp url response caches ->
  cachedInApp url response
    (ServiceWorker.storageUpdate caches ServiceWorker.CACHE_NAME change).
Proof.
  intros Hchange [Hex Hall]. split; [apply storageUpdate_exists; exact Hex|].
  clear Hex. induction Hall as [|[name c] rest H Hall IH]; simpl; constructor.
  - destruct (String.eqb name ServiceWorker.CACHE_NAME) eqn:E; simpl.
    + intros _. apply Hchange. apply H. exact E.
    + intros H'. simpl in H'. congruence.
  - exact IH.
Qed.

Lemma tryAdd_preserves
    (fetch : ServiceWorker.Request -> option ServiceWorker.Response)
    (url other : string) (response : ServiceWorker.Response)
    (caches : list (string * list (string * ServiceWorker.Response))) :
  String.eqb other url = false ->
  cachedInApp url response caches ->
  cachedInApp url response (ServiceWorker.tryAdd fetch caches other).
Proof.
  intros Hne H. unfold ServiceWorker.tryAdd.
  destruct (fetch (ServiceWorker.requestFor other)) as [r|]; [|exact H].
  destruct (ServiceWorker.ok r); [|exact H].
  apply storageUpdate_preserves; [|exact H].
  intros cache Hc. rewrite cacheMatch_put, Hne. exact Hc.
Qed.

Lemma install_caches_index
    (fetch : ServiceWorker.Request -> option ServiceWorker.Response)
    (caches caches1 : list (string * list (string * ServiceWorker.Response))) :
  ServiceWorker.onInstall fetch caches = (true, caches1) ->
  exists index : ServiceWorker.Response,
    fetch (ServiceWorker.requestFor "./index.html") = Some index
    /\ ServiceWorker.ok index = true
    /\ cachedInApp "./index.html" index caches1.
Proof.
  unfold ServiceWorker.onInstall. cbv zeta.
  destruct (ServiceWorker.fetchAll fetch ServiceWorker.urlsToCache)
    as [entries|] eqn:Eall; [|discriminate].
  intros E. inversion E as [E1]. clear E E1.
  unfold ServiceWorker.urlsToCache in Eall. simpl in Eall.
  destruct (fetch (ServiceWorker.requestFor "./")) as [r0|]; [|discriminate].
  destruct (ServiceWorker.ok r0); [|discriminate].
  destruct (fetch (ServiceWorker.requestFor "./index.html")) as [index|] eqn:Ei;
    [|discriminate].
  destruct (ServiceWorker.ok index) eqn:Eok; [|discriminate].
  destruct (fetch (ServiceWorker.requestFor "./assets/index-rQ6P09Eo"))
    as [r2|]; [|discriminate].
  destruct (ServiceWorker.ok r2); [|discriminate].
  destruct (fetch (ServiceWorker.requestFor "./assets/style.css"))
    as [r3|]; [|discriminate].
  destruct (ServiceWorker.ok r3); [|discriminate].
  inversion Eall. subst entries. clear Eall.
  exists index. split; [reflexivity|]. split; [exact Eok|].
  unfold ServiceWorker.externalResources. simpl fold_left.
  apply tryAdd_preserves; [reflexivity|].
  apply tryAdd_preserves; [reflexivity|].
  apply storageUpdate_establishes; [|apply storageOpen_exists].
  intros cache. rewrite !cacheMatch_put. reflexivity.
Qed.

Lemma activate_filter (caches : list (string * list (string * ServiceWorker.Response))) :
  ServiceWorker.onActivate caches
  = List.filter (fun entry => String.eqb (fst entry) ServiceWorker.CACHE_NAME)
                caches.
Proof.
  unfold ServiceWorker.onActivate. cbv zeta.
  assert (Hfold : forall (names : list string)
                         (cs : list (string * list (string * ServiceWorker.Response))),
    fold_left (fun caches cacheName =>
                 if negb (existsb (String.eqb cacheName) [ServiceWorker.CACHE_NAME])
                 then ServiceWorker.storageDelete caches cacheName
                 else caches) names cs
    = List.filter (fun entry =>
                     forallb (fun cacheName =>
                                String.eqb cacheName ServiceWorker.CACHE_NAME
                                || negb (String.eqb (fst entry) cacheName))
                             names) cs).
  { induction names as [|name rest IH]; intros cs; simpl.
    - induction cs as [|e cs IHcs]; simpl; [reflexivity|]. rewrite <- IHcs.
      reflexivity.
    - rewrite IH. rewrite orb_false_r.
      destruct (String.eqb name ServiceWorker.CACHE_NAME) eqn:E; simpl.
      + reflexivity.
      + unfold ServiceWorker.storageDelete.
        induction cs as [|e cs IHcs]; simpl; [reflexivity|].
        destruct (String.eqb (fst e) name); simpl; rewrite IHcs; reflexivity. }
  rewrite Hfold. apply filter_ext_in. intros [name cache] Hin. simpl.
  destruct (String.eqb name ServiceWorker.CACHE_NAME) eqn:E.
  - apply String.eqb_eq in E. subst name. apply forallb_forall.
    intros k _. destruct (String.eqb k ServiceWorker.CACHE_NAME) eqn:Ek;
      [reflexivity|]. rewrite orb_false_l, String.eqb_sym, Ek. reflexivity.
  - apply not_true_iff_false. intros H. rewrite forallb_forall in H.
    specialize (H name). rewrite E, String.eqb_refl in H. simpl in H.
    assert (Hk : In name (ServiceWorker.keys caches)).
    { unfold ServiceWorker.keys. apply in_map_iff.
      exists (name, cache). split; [reflexivity|exact Hin]. }
    specialize (H Hk). discriminate.
Qed.

Lemma activate_matches (url : string) (response : ServiceWorker.Response)
    (caches : list (string * list (string * ServiceWorker.Response))) :
  cachedInApp url response caches ->
  ServiceWorker.storageMatch (ServiceWorker.onActivate caches) url
  = Some response.
Proof.
  intros [Hex Hall]. rewrite activate_filter.
  induction Hall as [|[name cache] rest H Hall IH]; [inversion Hex|].
  simpl in *. destruct (String.eqb name ServiceWorker.CACHE_NAME) eqn:E; simpl.
  - rewrite (H eq_refl). reflexivity.
  - apply IH. inversion Hex as [? ? H'|? ? H']; subst; [|exact H'].
    simpl in H'. congruence.
Qed.

(** X25. An installed application opens without the network.  When the
    [install] handler succeeds, the page [./index.html] was fetched with
    an ok response; and once the [activate] handler has run, the worker
    answers every navigation request with that response and leaves the
    storage as it is, whatever caches were there before the installation
    and whatever the network does then. *)
Theorem installed_app_opens_offline
    (fetch : ServiceWorker.Request -> option ServiceWorker.Response)
    (caches caches1 : list (string * list (string * ServiceWorker.Response))) :
  ServiceWorker.onInstall fetch caches = (true, caches1) ->
  exists index : ServiceWorker.Response,
    fetch (ServiceWorker.requestFor "./index.html") = Some index
    /\ ServiceWorker.ok index = true
    /\ forall (network : ServiceWorker.Request -> option ServiceWorker.Response)
              (request : ServiceWorker.Request),
         ServiceWorker.method request = "GET"%string ->
         ServiceWorker.mode request = "navigate"%string ->
         ServiceWorker.onFetch network request (ServiceWorker.onActivate caches1)
         = (ServiceWorker.Responded index, ServiceWorker.onActivate caches1).
Proof.
  intros Hinstall.
  destruct (install_caches_index fetch caches caches1 Hinstall)
    as (index & Hfetch & Hok & Hcached).
  exists index. split; [exact Hfetch|]. split; [exact Hok|].
  intros network request Hmethod Hmode.
  unfold ServiceWorker.onFetch. rewrite Hmethod, Hmode. simpl.
  rewrite (activate_matches _ _ _ Hcached). reflexivity.
Qed.

Lemma installed_app_opens_offline_witness :
  exists index : ServiceWorker.Response,
    online (ServiceWorker.requestFor "./index.html") = Some index
    /\ ServiceWorker.ok index = true
    /\ forall (network : ServiceWorker.Request -> option ServiceWorker.Response)
              (request : ServiceWorker.Request),
         ServiceWorker.method request = "GET"%string ->
         ServiceWorker.mode request = "navigate"%string ->
         ServiceWorker.onFetch network request
           (ServiceWorker.onActivate
              (snd (ServiceWorker.onInstall online staleStorage)))
         = (ServiceWorker.Responded index,
            ServiceWorker.onActivate
              (snd (ServiceWorker.onInstall online staleStorage))).
Proof.
  exact (installed_app_opens_offline online staleStorage
           (snd (ServiceWorker.onInstall online staleStorage)) eq_refl).
Defined.

(** Without the activation the stale page of the older cache is served:
    it is the first match. *)
Example stale_page_before_activation :
  fst (ServiceWorker.onFetch offline
         {| ServiceWorker.method := "GET"; ServiceWorker.mode := "navigate";
            ServiceWorker.url := "./" |}
         (snd (ServiceWorker.onInstall online staleStorage)))
  = ServiceWorker.Responded
      {| ServiceWorker.status := 200; ServiceWorker.type := "basic";
         ServiceWorker.body := "stale" |}
  /\ fst (ServiceWorker.onFetch offline
            {| ServiceWorker.method := "GET"; ServiceWorker.mode := "navigate";
               ServiceWorker.url := "./" |}
            (ServiceWorker.onActivate
               (snd (ServiceWorker.onInstall online staleStorage))))
     = ServiceWorker.Responded
         {| ServiceWorker.status := 200; ServiceWorker.type := "basic";
            ServiceWorker.body := "./index.html" |}.
Proof. split; vm_compute; reflexivity. Qed.

(** X26. Activation keeps the application's cache and nothing else.
    After the [activate] handler every cache left has the application's
    cache name; the caches left are caches that were there, in the same
    order and with the same content; and the application's cache is the
    one that was there, if there was one. *)
Theorem activation_keeps_only_app_cache
    (caches : list (string * list (string * ServiceWorker.Response))) :
  Forall (fun name => name = ServiceWorker.CACHE_NAME)
         (ServiceWorker.keys (ServiceWorker.onActivate caches))
  /\ sublist (ServiceWorker.onActivate caches) caches
  /\ ServiceWorker.storageGet (ServiceWorker.onActivate caches)
                              ServiceWorker.CACHE_NAME
     = ServiceWorker.storageGet caches ServiceWorker.CACHE_NAME.
Proof.
  rewrite activate_filter. split; [|split].
  - unfold ServiceWorker.keys. apply Forall_forall. intros name Hin.
    apply list_elem_of_In, in_map_iff in Hin. destruct Hin as ([n c] & <- & Hin).
    apply filter_In in Hin. destruct Hin as [_ Hn]. simpl in *.
    apply String.eqb_eq. exact Hn.
  - apply filter_sublist.
  - induction caches as [|[name cache] rest IH]; simpl; [reflexivity|].
    destruct (String.eqb name ServiceWorker.CACHE_NAME) eqn:E; simpl.
    + rewrite E. reflexivity.
    + exact IH.
Qed.

(** ** What the fetch handler answers and stores *)



Lemma storageMatch_update_put
    (caches : list (string * list (string * ServiceWorker.Response)))
    (url url' : string) (response response' : ServiceWorker.Response) :
  ServiceWorker.storageMatch
    (ServiceWorker.storageUpdate caches ServiceWorker.CACHE_NAME
       (fun cache => ServiceWorker.cachePut cache url response)) url'
  = Some response' ->
  ServiceWorker.storageMatch caches url' = Some response'
  \/ (url' = url /\ response' = response).
Proof.
  induction caches as [|[name cache] rest IH]; simpl; [discriminate|].
  destruct (String.eqb name ServiceWorker.CACHE_NAME); simpl.
  - rewrite cacheMatch_put. destruct (String.eqb url url') eqn:E.
    + intros H. inversion H. right. apply String.eqb_eq in E. auto.
    + destruct (ServiceWorker.cacheMatch cache url'); [left; assumption|].
      exact IH.
  - destruct (ServiceWorker.cacheMatch cache url'); [left; assumption|].
    exact IH.
Qed.

(** X28. What the fetch handler never stores.  Whatever the request, the
    storage and the network, a response that can be matched in the storage
    after the handler has run could be matched before, or it is the
    network's response to this very request, stored under its URL; and
    then the request is a GET request that is not a navigation, and the
    response has status 200 and type [basic] or [cors].  Nothing is stored
    for another method, for a navigation, for a failed fetch, for an
    opaque response or for another status. *)
Theorem fetch_stores_only_good_responses
    (fetch : ServiceWorker.Request -> option ServiceWorker.Response)
    (request : ServiceWorker.Request)
    (caches : list (string * list (string * ServiceWorker.Response)))
    (url' : string) (response' : ServiceWorker.Response) :
  ServiceWorker.storageMatch
    (snd (ServiceWorker.onFetch fetch request caches)) url' = Some response' ->
  ServiceWorker.storageMatch caches url' = Some response'
  \/ (url' = ServiceWorker.url request
      /\ fetch request = Some response'
      /\ ServiceWorker.method request = "GET"%string
      /\ ServiceWorker.mode request <> "navigate"%string
      /\ ServiceWorker.status response' = 200%Z
      /\ (ServiceWorker.type response' = "basic"%string
          \/ ServiceWorker.type response' = "cors"%string)).
Proof.
  unfold ServiceWorker.onFetch.
  destruct (String.eqb (ServiceWorker.method request) "GET") eqn:Em;
    simpl negb; cbv iota; [|intros H; left; exact H].
  destruct (String.eqb (ServiceWorker.mode request) "navigate") eqn:En.
  { destruct (ServiceWorker.storageMatch caches "./index.html");
      [intros H; left; exact H|].
    destruct (fetch request); intros H; left; exact H. }
  cbv zeta.
  destruct (ServiceWorker.cacheMatch _ (ServiceWorker.url request)).
  { simpl snd. rewrite storageMatch_open. intros H. left. exact H. }
  destruct (fetch request) as [networkResponse|] eqn:Ef.
  - destruct (ServiceWorker.status networkResponse =? 200)%Z eqn:Es; simpl negb;
      cbv iota.
    + destruct (String.eqb (ServiceWorker.type networkResponse) "basic"
                || String.eqb (ServiceWorker.type networkResponse) "cors")
        eqn:Et; simpl.
      * intros H. apply storageMatch_update_put in H.
        rewrite storageMatch_open in H.
        destruct H as [H|[-> ->]]; [left; exact H|right].
        apply String.eqb_eq in Em. apply String.eqb_neq in En.
        apply Z.eqb_eq in Es. apply orb_true_iff in Et.
        rewrite !String.eqb_eq in Et. auto 10.
      * rewrite storageMatch_open. intros H. left. exact H.
    + simpl. rewrite storageMatch_open. intros H. left. exact H.
  - destruct (ServiceWorker.storageMatch _ "./index.html"); simpl snd;
      rewrite storageMatch_open; intros H; left; exact H.
Qed.

Lemma fetch_stores_only_good_responses_witness :
  ServiceWorker.storageMatch [] "./assets/style.css" = Some (
    {| ServiceWorker.status := 200; ServiceWorker.type := "basic";
       ServiceWorker.body := "./assets/style.css" |})
  \/ ("./assets/style.css"%string = "./assets/style.css"%string
      /\ online {| ServiceWorker.method := "GET"; ServiceWorker.mode := "no-cors";
                   ServiceWorker.url := "./assets/style.css" |}
         = Some {| ServiceWorker.status := 200; ServiceWorker.type := "basic";
                   ServiceWorker.body := "./assets/style.css" |}
      /\ "GET"%string = "GET"%string
      /\ "no-cors"%string <> "navigate"%string
      /\ 200%Z = 200%Z
      /\ ("basic"%string = "basic"%string \/ "basic"%string = "cors"%string)).
Proof.
  exact (fetch_stores_only_good_responses online
           {| ServiceWorker.method := "GET"; ServiceWorker.mode := "no-cors";
              ServiceWorker.url := "./assets/style.css" |}
           [] "./assets/style.css"
           {| ServiceWorker.status := 200; ServiceWorker.type := "basic";
              ServiceWorker.body := "./assets/style.css" |}
           eq_refl).
Defined.
